(** * Shenasa: cache, rate limiter and credential admission path

    A shallow embedding of the TypeScript sources
    - [src/utils/rate-limiter.ts]  (MemoryStore, rateLimitTiers, createRateLimiter),
    - [src/utils/cache.ts]         (CacheManager),
    - [src/utils/api-key.ts]       (ApiKeyManager),
    - the application entry point  (authentication and rate limiting middleware),
    - the batch controller         (validator, processName, [Promise.all]
                                    and the chunked loop),
    - the name and administration controllers, metrics and cache warming.

    Conventions.
    - JavaScript numbers that hold counts and millisecond timestamps are
      modelled as [Z]; a TTL is a whole number of seconds.  The expiry of
      a cache entry in memory is a [Num]: a time value or [NaN], as
      [new Date(ms)] is an Invalid Date beyond 8.64e15 milliseconds.
    - Strings are held as UTF-8 bytes.
    - Every read of the clock ([Date.now()], [new Date()]) is an explicit
      argument of the function that performs it, in the order of the reads.
    - Prisma calls may throw.  The world carries an oracle [faults]: each
      Prisma call on the cache, key and log tables consumes one entry, and
      [true] makes that call throw before it touches the tables.  The
      origin lookup on the name table throws on the names selected by
      [origin_fault].
    - [console.error] appends to the [console] field of the world.
    - The calls that [Promise.all] runs together are tasks that stop at
      each Prisma call; the order in which those calls complete is a
      schedule, and the properties of the batch hold for every schedule. *)

From stdpp Require Import gmap strings list.
From Stdlib Require Import ZArith Lia Ascii.

(** ** Results and the state/exception monad *)

Inductive Res (A : Type) : Type :=
| Ok (a : A)
| Throw (err : string).
Arguments Ok {A} a.
Arguments Throw {A} err.

(** A computation over a mutable state [S] that returns or throws; the
    state mutated before a throw is kept, as in JavaScript. *)
Definition M (S A : Type) : Type := S → Res A * S.

#[global] Instance M_ret S : MRet (M S) := λ A a s, (Ok a, s).
#[global] Instance M_bind S : MBind (M S) := λ A B k m s,
  match m s with
  | (Ok a, s') => k a s'
  | (Throw e, s') => (Throw e, s')
  end.

Definition throw {S A} (e : string) : M S A := λ s, (Throw e, s).
Definition try_catch {S A} (m : M S A) (h : string → M S A) : M S A :=
  λ s, match m s with
       | (Ok a, s') => (Ok a, s')
       | (Throw e, s') => h e s'
       end.
Definition gets {S A} (f : S → A) : M S A := λ s, (Ok (f s), s).
Definition modify {S} (f : S → S) : M S unit := λ s, (Ok tt, f s).

(** JavaScript truthiness of a string and of an optional string. *)
Definition truthy (s : string) : bool := negb (String.eqb s "").
Definition truthy_opt (o : option string) : bool :=
  match o with Some s => truthy s | None => false end.
(** [a || b] on an optional string with a string default. *)
Definition or_else (o : option string) (d : string) : string :=
  match o with Some s => if truthy s then s else d | None => d end.

(** ** src/utils/rate-limiter.ts *)

Inductive Tier := FREE | BASIC | PREMIUM | ENTERPRISE.

#[global] Instance Tier_eq_dec : EqDecision Tier.
Proof. solve_decision. Defined.

Module RateLimiter.
Open Scope Z_scope.

(** An entry of [MemoryStore.hits]. *)
Record Hit := mkHit { count : Z; resetTime : Z }.

Record IncrementResult := mkInc { totalHits : Z; timeToExpire : Z }.

(** [interface RateLimitStore]; the clock read by [increment] is its
    first argument. *)
Class RateLimitStore (S : Type) := {
  increment : Z → string → S → IncrementResult * S;
  decrement : string → S → S;
  resetKey : string → S → S
}.

(** [MemoryStore.increment] *)
Definition MemoryStore_increment (now : Z) (key : string)
    (hits : gmap string Hit) : IncrementResult * gmap string Hit :=
  match hits !! key with
  | Some current =>
      if resetTime current <=? now then
        (mkInc 1 60000, <[key := mkHit 1 (now + 60000)]> hits)
      else
        let current' := mkHit (count current + 1) (resetTime current) in
        (mkInc (count current') (resetTime current' - now),
         <[key := current']> hits)
  | None => (mkInc 1 60000, <[key := mkHit 1 (now + 60000)]> hits)
  end.

(** [MemoryStore.decrement] *)
Definition MemoryStore_decrement (key : string)
    (hits : gmap string Hit) : gmap string Hit :=
  match hits !! key with
  | Some current =>
      if 0 <? count current
      then <[key := mkHit (count current - 1) (resetTime current)]> hits
      else hits
  | None => hits
  end.

(** [MemoryStore.resetKey] *)
Definition MemoryStore_resetKey (key : string)
    (hits : gmap string Hit) : gmap string Hit := delete key hits.

#[global] Instance MemoryStore : RateLimitStore (gmap string Hit) := {
  increment := MemoryStore_increment;
  decrement := MemoryStore_decrement;
  resetKey := MemoryStore_resetKey
}.

(** The counter of [key] is live at [now]: it exists and its window has
    not elapsed. *)
Definition live (now : Z) (key : string) (hits : gmap string Hit) : Prop :=
  ∃ h, hits !! key = Some h ∧ now < resetTime h.

(** The count the store holds for [key], 0 when it holds none. *)
Definition hitCount (key : string) (hits : gmap string Hit) : Z :=
  default 0 (count <$> hits !! key).

(** [rateLimitTiers] *)
Record TierLimit := mkTierLimit { requests : Z; window : Z }.

Definition rateLimitTiers (t : Tier) : TierLimit :=
  match t with
  | FREE => mkTierLimit 100 3600000
  | BASIC => mkTierLimit 1000 3600000
  | PREMIUM => mkTierLimit 10000 3600000
  | ENTERPRISE => mkTierLimit 100000 3600000
  end.

(** The part of a Hono context the middleware reads and writes. *)
Record Request := mkRequest {
  x_api_key : option string;
  cf_connecting_ip : option string;
  x_forwarded_for : option string
}.

(** A response header value: a number printed with [toString], a date
    printed with [toISOString] (kept as its millisecond value). *)
Inductive HeaderValue := HNum (z : Z) | HDate (ms : Z).

Record Context := mkContext {
  req : Request;
  var_rateLimitTier : option Tier;    (* c.get("rateLimitTier") *)
  var_apiKey : option string;         (* c.get("apiKey") *)
  rateLimitMax : option Z;            (* (c as any).rateLimitMax *)
  resHeaders : gmap string HeaderValue
}.

Definition header (name : string) (v : HeaderValue) (c : Context) : Context :=
  mkContext (req c) (var_rateLimitTier c) (var_apiKey c) (rateLimitMax c)
            (<[name := v]> (resHeaders c)).
Definition set_rateLimitMax (z : Z) (c : Context) : Context :=
  mkContext (req c) (var_rateLimitTier c) (var_apiKey c) (Some z) (resHeaders c).
Definition set_rateLimitTier (t : Tier) (c : Context) : Context :=
  mkContext (req c) (Some t) (var_apiKey c) (rateLimitMax c) (resHeaders c).
Definition set_apiKey (k : string) (c : Context) : Context :=
  mkContext (req c) (var_rateLimitTier c) (Some k) (rateLimitMax c) (resHeaders c).

(** [c.json(body, status)] with the body [{ code, message }]. *)
Record Response := Json { body_code : Z; body_message : string; status : Z }.

(** What a middleware does at its end: call [next()] or answer. *)
Inductive Outcome := Next | Respond (r : Response).

Record RateLimitConfig := mkConfig {
  windowMs : Z;
  max : Z;
  message : option string;
  keyGenerator : option (Context → Res (string * Context))
}.

(** [forwarded.split(",")[0]] *)
Fixpoint first_field (s : string) : string :=
  match s with
  | EmptyString => EmptyString
  | String a s' =>
      if Ascii.eqb a ","%char then EmptyString else String a (first_field s')
  end.

(** The white space and the line terminators that [trim] strips, on
    strings held as UTF-8 bytes.  One byte: TAB, LF, VT, FF, CR and the
    space.  Two bytes: U+00A0.  Three bytes: U+1680, U+2000 to U+200A,
    U+2028, U+2029, U+202F, U+205F, U+3000 and U+FEFF. *)
Definition is_space (a : Ascii.ascii) : bool :=
  let n := Ascii.nat_of_ascii a in
  (Nat.eqb n 32 || (Nat.leb 9 n && Nat.leb n 13))%bool.
Definition is_space2 (a b : Ascii.ascii) : bool :=
  (Nat.eqb (Ascii.nat_of_ascii a) 194 && Nat.eqb (Ascii.nat_of_ascii b) 160)%bool.
Definition is_space3 (a b c : Ascii.ascii) : bool :=
  let a := Ascii.nat_of_ascii a in
  let b := Ascii.nat_of_ascii b in
  let c := Ascii.nat_of_ascii c in
  (Nat.eqb a 225 && Nat.eqb b 154 && Nat.eqb c 128
   || Nat.eqb a 226 && Nat.eqb b 128
      && (Nat.leb 128 c && Nat.leb c 138 || Nat.eqb c 168 || Nat.eqb c 169
          || Nat.eqb c 175)
   || Nat.eqb a 226 && Nat.eqb b 129 && Nat.eqb c 159
   || Nat.eqb a 227 && Nat.eqb b 128 && Nat.eqb c 128
   || Nat.eqb a 239 && Nat.eqb b 187 && Nat.eqb c 191)%bool.

(** [trimStart]; with [backwards] the string is a reversed one and the
    bytes of a code point come last byte first. *)
Fixpoint trim_start (backwards : bool) (s : string) : string :=
  match s with
  | EmptyString => EmptyString
  | String a s1 =>
      if is_space a then trim_start backwards s1
      else
        match s1 with
        | EmptyString => s
        | String b s2 =>
            if (if backwards then is_space2 b a else is_space2 a b)
            then trim_start backwards s2
            else
              match s2 with
              | EmptyString => s
              | String c s3 =>
                  if (if backwards then is_space3 c b a else is_space3 a b c)
                  then trim_start backwards s3
                  else s
              end
        end
  end.

(** [trim] *)
Definition trim (s : string) : string :=
  String.rev (trim_start true (String.rev (trim_start false s))).

(** [getClientKey] *)
Definition getClientKey (c : Context) : string :=
  if truthy_opt (x_api_key (req c)) then "api:" +:+ default "" (x_api_key (req c))
  else
    let forwarded :=
      if truthy_opt (cf_connecting_ip (req c)) then cf_connecting_ip (req c)
      else x_forwarded_for (req c) in
    let ip := if truthy_opt forwarded
              then trim (first_field (default "" forwarded)) else "unknown" in
    "ip:" +:+ ip.

(** [Math.ceil(ms / 1000)] *)
Definition ceil_div_1000 (ms : Z) : Z := - ((- ms) / 1000).

(** [createRateLimiter(config, store)]: the returned middleware.  [now] is
    the clock read inside [store.increment], [now'] the one read for the
    reset header. *)
Definition createRateLimiter {S} `{RateLimitStore S} (config : RateLimitConfig)
    (now now' : Z) (c : Context) (store : S) : Res (Outcome * Context) * S :=
  match (match keyGenerator config with
         | Some g => g c
         | None => Ok (getClientKey c, c)
         end) with
  | Throw e => (Throw e, store)
  | Ok (key, c) =>
      let '(r, store) := increment now key store in
      let c := header "X-RateLimit-Limit" (HNum (max config)) c in
      let c := header "X-RateLimit-Remaining"
                 (HNum (Z.max 0 (max config - totalHits r))) c in
      let c := header "X-RateLimit-Reset" (HDate (now' + timeToExpire r)) c in
      if max config <? totalHits r then
        let c := header "Retry-After" (HNum (ceil_div_1000 (timeToExpire r))) c in
        (Ok (Respond (Json 42901
               (or_else (message config)
                  "Too many requests. Please try again later.") 429), c),
         store)
      else (Ok (Next, c), store)
  end.

(** The calls [increment(key)] made one after the other at the clock
    values [times]: the results in order, and the store at the end. *)
Fixpoint increments (times : list Z) (key : string) (hits : gmap string Hit)
  : list IncrementResult * gmap string Hit :=
  match times with
  | [] => ([], hits)
  | now :: times =>
      let '(r, hits) := MemoryStore_increment now key hits in
      let '(rs, hits) := increments times key hits in
      (r :: rs, hits)
  end.

End RateLimiter.

(** ** The Prisma client: tables, fault oracle and console

    The client is a library, not code of the repository: its calls are
    given the meaning its documentation gives them ([findUnique] and
    [findFirst] return the row or null, [upsert] creates or replaces by
    the unique key, [update] and [delete] throw when no row matches,
    [create] throws on a taken unique key, [deleteMany] and [count] take
    a filter), and each of them may fail as a whole. *)

Module Prisma.
Open Scope Z_scope.

(** [model CacheEntry]: the row stored under its unique [key]. *)
Record CacheRow := mkCacheRow { row_value : string; row_expiresAt : Z }.

(** [model ApiKey]: the row stored under its unique [key]. *)
Record ApiKeyRow := mkApiKeyRow {
  ak_id : string;
  ak_name : string;
  ak_tier : Tier;
  ak_requestLimit : Z;
  ak_requestCount : Z;
  ak_isActive : bool;
  ak_lastUsedAt : option Z
}.

(** [model RequestLog], the columns [validateApiKey] counts on. *)
Record RequestLogRow := mkLogRow { rl_apiKey : option string; rl_createdAt : Z }.

(** [model PersianName], the columns the batch controller selects. *)
Record NameRow := mkNameRow {
  nr_name : string;
  nr_gender : string;
  nr_enName : option string;
  nr_popularity : Z
}.

Record World := mkWorld {
  cacheEntry : gmap string CacheRow;
  apiKey : gmap string ApiKeyRow;
  requestLog : list RequestLogRow;
  persianName : list NameRow;
  faults : list bool;
  origin_fault : string → bool;
  console : list (string * string)
}.

Definition set_cacheEntry (t : gmap string CacheRow) (w : World) : World :=
  mkWorld t (apiKey w) (requestLog w) (persianName w) (faults w)
          (origin_fault w) (console w).
Definition set_apiKey (t : gmap string ApiKeyRow) (w : World) : World :=
  mkWorld (cacheEntry w) t (requestLog w) (persianName w) (faults w)
          (origin_fault w) (console w).
Definition set_faults (f : list bool) (w : World) : World :=
  mkWorld (cacheEntry w) (apiKey w) (requestLog w) (persianName w) f
          (origin_fault w) (console w).
Definition set_console (l : list (string * string)) (w : World) : World :=
  mkWorld (cacheEntry w) (apiKey w) (requestLog w) (persianName w) (faults w)
          (origin_fault w) l.

(** [console.error(label, error)] *)
Definition console_error (label err : string) : M World unit :=
  modify (λ w, set_console (console w ++ [(label, err)]) w).

(** One Prisma call: the oracle decides whether the backend fails. *)
Definition call {A} (op : M World A) : M World A := λ w,
  match faults w with
  | true :: fs => (Throw "PrismaClientError", set_faults fs w)
  | false :: fs => op (set_faults fs w)
  | [] => op w
  end.

Definition cacheEntry_findUnique (key : string) : M World (option CacheRow) :=
  call (gets (λ w, cacheEntry w !! key)).

Definition cacheEntry_upsert (key value : string) (expiresAt : Z) : M World unit :=
  call (modify (λ w,
    set_cacheEntry (<[key := mkCacheRow value expiresAt]> (cacheEntry w)) w)).

(** [delete] of a row that does not exist throws (Prisma error P2025). *)
Definition cacheEntry_delete (key : string) : M World unit :=
  call (λ w, match cacheEntry w !! key with
             | Some _ => (Ok tt, set_cacheEntry (delete key (cacheEntry w)) w)
             | None => (Throw "P2025", w)
             end).

Definition cacheEntry_deleteMany (where_ : CacheRow → bool) : M World unit :=
  call (modify (λ w,
    set_cacheEntry (filter (λ kv, where_ kv.2 = false) (cacheEntry w)) w)).

Definition apiKey_findUnique (key : string) : M World (option ApiKeyRow) :=
  call (gets (λ w, apiKey w !! key)).

(** [create] throws on a key that is already there (unique constraint). *)
Definition apiKey_create (key : string) (row : ApiKeyRow) : M World ApiKeyRow :=
  call (λ w, match apiKey w !! key with
             | Some _ => (Throw "P2002", w)
             | None => (Ok row, set_apiKey (<[key := row]> (apiKey w)) w)
             end).

(** [update({ where: { key } })]; throws when no row has the key. *)
Definition apiKey_update_by_key (key : string) (data : ApiKeyRow → ApiKeyRow)
  : M World unit :=
  call (λ w, match apiKey w !! key with
             | Some row => (Ok tt, set_apiKey (<[key := data row]> (apiKey w)) w)
             | None => (Throw "P2025", w)
             end).

Definition has_id (id : string) (row : ApiKeyRow) : bool :=
  bool_decide (ak_id row = id).

(** [update({ where: { id } })]; throws when no row has the id. *)
Definition apiKey_update_by_id (id : string) (data : ApiKeyRow → ApiKeyRow)
  : M World unit :=
  call (λ w,
    if bool_decide (map_Exists (λ _ row, has_id id row = true) (apiKey w))
    then (Ok tt, set_apiKey ((λ row, if has_id id row then data row else row)
                               <$> apiKey w) w)
    else (Throw "P2025", w)).

Definition requestLog_count (where_ : RequestLogRow → bool) : M World Z :=
  call (gets (λ w, Z.of_nat (length (filter (λ r, where_ r = true) (requestLog w))))).

(** [persianName.findFirst({ where: { name: { equals: name } } })]: the
    origin lookup.  It throws on the names for which [origin_fault] holds. *)
Definition persianName_findFirst (name : string) : M World (option NameRow) :=
  λ w, if origin_fault w name then (Throw "PrismaClientError", w)
       else (Ok (find (λ r, String.eqb (nr_name r) name) (persianName w)), w).

Definition set_requestLog (l : list RequestLogRow) (w : World) : World :=
  mkWorld (cacheEntry w) (apiKey w) l (persianName w) (faults w)
          (origin_fault w) (console w).

(** [requestLog.create({ data })]; [createdAt] is the database default
    [now()].  Of [data] the row model keeps the [apiKey] column. *)
Definition requestLog_create (now : Z) (apiKey : option string) : M World unit :=
  call (modify (λ w, set_requestLog (requestLog w ++ [mkLogRow apiKey now]) w)).

(** Insertion before the first row that is not more popular. *)
Fixpoint insert_desc (r : NameRow) (l : list NameRow) : list NameRow :=
  match l with
  | [] => [r]
  | x :: l' =>
      if nr_popularity x <=? nr_popularity r then r :: x :: l'
      else x :: insert_desc r l'
  end.

(** The rows by descending popularity; rows of equal popularity stay in
    table order (the database leaves their order open). *)
Definition by_popularity_desc (l : list NameRow) : list NameRow :=
  foldr insert_desc [] l.

(** [persianName.findMany({ orderBy: { popularity: "desc" }, take })] *)
Definition persianName_findMany_popular (take_ : nat) : M World (list NameRow) :=
  call (gets (λ w, take take_ (by_popularity_desc (persianName w)))).

End Prisma.

(** ** src/utils/cache.ts *)

Module Cache.
Import Prisma.
Open Scope Z_scope.

(** The [number] of the field [expiresAt]: the time value of a Date in
    milliseconds, or [NaN], which is [getTime()] of an Invalid Date. *)
Inductive Num :=
| Fin (ms : Z)
| NaN.
Coercion Fin : Z >-> Num.

(** [n > now] and [n <= now] on numbers; both are false on [NaN]. *)
Definition gt (n : Num) (now : Z) : bool :=
  match n with Fin ms => now <? ms | NaN => false end.
Definition le (n : Num) (now : Z) : bool :=
  match n with Fin ms => ms <=? now | NaN => false end.

(** [new Date(ms)] is a Date for a time value of at most 8.64e15
    milliseconds on either side of the epoch, and an Invalid Date ([None])
    beyond that. *)
Definition new_Date (ms : Z) : option Z :=
  if Z.abs ms <=? 8640000000000000 then Some ms else None.

(** [date.getTime()] *)
Definition getTime (date : option Z) : Num :=
  match date with Some ms => Fin ms | None => NaN end.

Section CacheManager.
(** The cached payload ([any] in the source) with [JSON.stringify] and
    [JSON.parse]; [parse] returns [None] where [JSON.parse] throws, and
    [JSON.stringify] is taken to return on every payload. *)
Context {V : Type} (stringify : V → string) (parse : string → option V).

Record MemItem := mkItem { value : V; expiresAt : Num }.

(** A [CacheManager] instance: its private map and its options.  The
    Prisma client it was built with is the [World] of the state. *)
Record CacheManager := mkCache {
  memoryCache : gmap string MemItem;
  prefix : option string
}.

Definition defaultTTL : Z := 3600.

(** [new CacheManager(db, { prefix })] *)
Definition new (prefix : option string) : CacheManager := mkCache ∅ prefix.

Definition St : Type := CacheManager * World.

Definition liftW {A} (m : M World A) : M St A := λ s,
  let '(r, w) := m s.2 in (r, (s.1, w)).
Definition modify_memory (f : gmap string MemItem → gmap string MemItem)
  : M St unit :=
  modify (λ s : St, (mkCache (f (memoryCache s.1)) (prefix s.1), s.2)).

(** [getKey] *)
Definition getKey (cm : CacheManager) (key : string) : string :=
  if truthy_opt (prefix cm) then default "" (prefix cm) +:+ ":" +:+ key else key.

Definition JSON_parse (s : string) : M St V :=
  match parse s with Some v => mret v | None => throw "SyntaxError" end.

(** [memoryItem && memoryItem.expiresAt > Date.now()] *)
Definition memory_hit (now : Z) (memoryItem : option MemItem) : option V :=
  match memoryItem with
  | Some item => if gt (expiresAt item) now then Some (value item) else None
  | None => None
  end.

(** [get]: [now1] is read for the memory check, [now2] for the database
    check.  The [try] block yields [Some v] where the source returns [v]
    from inside it, and [None] where control falls through to the final
    [return null]. *)
Definition get (now1 now2 : Z) (key : string) : M St (option V) :=
  cacheKey ← gets (λ s : St, getKey s.1 key);
  memoryItem ← gets (λ s : St, memoryCache s.1 !! cacheKey);
  match memory_hit now1 memoryItem with
  | Some v => mret (Some v)
  | None =>
      try_catch
        (dbItem ← liftW (cacheEntry_findUnique cacheKey);
         match dbItem with
         | Some row =>
             if now2 <? row_expiresAt row then
               value ← JSON_parse (row_value row);
               modify_memory (insert cacheKey (mkItem value (row_expiresAt row)));;
               mret (Some value)
             else mret None
         | None => mret None
         end)
        (λ error, liftW (console_error "Cache get error:" error);; mret None)
  end.

(** [ttl || this.defaultTTL] *)
Definition effective_ttl (ttl : option Z) : Z :=
  match ttl with
  | Some t => if t =? 0 then defaultTTL else t
  | None => defaultTTL
  end.

(** [set], for an expiry inside the Date range, as with the times to
    live the repository passes (3600 and 7200 seconds): [expiresAt] is
    then a Date and [getTime()] its time value. *)
Definition set (now : Z) (key : string) (value : V) (ttl : option Z) : M St unit :=
  cacheKey ← gets (λ s : St, getKey s.1 key);
  let expiresAt := now + effective_ttl ttl * 1000 in
  let serializedValue := stringify value in
  modify_memory (insert cacheKey (mkItem value expiresAt));;
  try_catch
    (liftW (cacheEntry_upsert cacheKey serializedValue expiresAt))
    (λ error, liftW (console_error "Cache set error:" error)).

(** [upsert] with the Date of [set]: the Prisma client refuses an
    Invalid Date when it validates the arguments, before the backend is
    called. *)
Definition cacheEntry_upsert_date (key value : string) (expiresAt : option Z)
  : M World unit :=
  match expiresAt with
  | Some ms => cacheEntry_upsert key value ms
  | None => throw "PrismaClientValidationError"
  end.

(** [set] for every [ttl?: number]: beyond the Date range [expiresAt] is
    an Invalid Date, the memory entry gets [NaN] as its expiry and the
    [upsert] throws. *)
Definition set_any (now : Z) (key : string) (value : V) (ttl : option Z)
  : M St unit :=
  cacheKey ← gets (λ s : St, getKey s.1 key);
  let expiresAt := new_Date (now + effective_ttl ttl * 1000) in
  let serializedValue := stringify value in
  modify_memory (insert cacheKey (mkItem value (getTime expiresAt)));;
  try_catch
    (liftW (cacheEntry_upsert_date cacheKey serializedValue expiresAt))
    (λ error, liftW (console_error "Cache set error:" error)).

(** [delete] *)
Definition delete (key : string) : M St unit :=
  cacheKey ← gets (λ s : St, getKey s.1 key);
  modify_memory (base.delete cacheKey);;
  try_catch
    (liftW (cacheEntry_delete cacheKey))
    (λ error, liftW (console_error "Cache delete error:" error)).

(** [clear] *)
Definition clear : M St unit :=
  modify_memory (λ _, ∅);;
  try_catch
    (liftW (cacheEntry_deleteMany (λ _, true)))
    (λ error, liftW (console_error "Cache clear error:" error)).

(** [cleanExpired] *)
Definition cleanExpired (now now2 : Z) : M St unit :=
  modify_memory (filter (λ kv, le (expiresAt kv.2) now = false));;
  try_catch
    (liftW (cacheEntry_deleteMany (λ row, row_expiresAt row <=? now2)))
    (λ error, liftW (console_error "Cache cleanup error:" error)).

(** The calls a client of one [CacheManager] can make, to speak of
    sequences of operations. *)
Inductive Op :=
| OpGet (now1 now2 : Z) (key : string)
| OpSet (now : Z) (key : string) (value : V) (ttl : option Z)
| OpDelete (key : string)
| OpClear
| OpCleanExpired (now now2 : Z).

Definition run_op (o : Op) (s : St) : St :=
  match o with
  | OpGet now1 now2 key => (get now1 now2 key s).2
  | OpSet now key value ttl => (set now key value ttl s).2
  | OpDelete key => (delete key s).2
  | OpClear => (clear s).2
  | OpCleanExpired now now2 => (cleanExpired now now2 s).2
  end.

Definition run_ops (os : list Op) (s : St) : St := foldl (λ s o, run_op o s) s os.

(** The operations that address the database by one prefixed key. *)
Definition keyed (o : Op) : bool :=
  match o with
  | OpGet _ _ _ | OpSet _ _ _ _ | OpDelete _ => true
  | OpClear | OpCleanExpired _ _ => false
  end.

End CacheManager.

(** A prefix without the separator [:]. *)
Fixpoint colon_free (s : string) : bool :=
  match s with
  | EmptyString => true
  | String a s' => negb (Ascii.eqb a ":"%char) && colon_free s'
  end.

End Cache.

(** ** src/utils/api-key.ts *)

Module ApiKey.
Import Prisma.
Open Scope Z_scope.

(** The [apiKey] object of a successful validation. *)
Record ValidatedKey := mkValidated {
  id : string;
  tier : Tier;
  requestLimit : Z;
  requestCount : Z;
  isActive : bool
}.

Record Validation := mkValidation { isValid : bool; validated : option ValidatedKey }.

Definition invalid : Validation := mkValidation false None.

Definition set_lastUsedAt (t : Z) (r : ApiKeyRow) : ApiKeyRow :=
  mkApiKeyRow (ak_id r) (ak_name r) (ak_tier r) (ak_requestLimit r)
              (ak_requestCount r) (ak_isActive r) (Some t).
Definition bump_usage (t : Z) (r : ApiKeyRow) : ApiKeyRow :=
  mkApiKeyRow (ak_id r) (ak_name r) (ak_tier r) (ak_requestLimit r)
              (ak_requestCount r + 1) (ak_isActive r) (Some t).
Definition set_inactive (r : ApiKeyRow) : ApiKeyRow :=
  mkApiKeyRow (ak_id r) (ak_name r) (ak_tier r) (ak_requestLimit r)
              (ak_requestCount r) false (ak_lastUsedAt r).

(** [createApiKey]: [uid] is the value of [createUniqueId()], [rowId] the
    id the database generates for the row. *)
Definition createApiKey (uid rowId : string) (name : string) (tier : Tier)
  : M World ApiKeyRow :=
  let key := "sk_" +:+ uid in
  let requestLimit := RateLimiter.requests (RateLimiter.rateLimitTiers tier) in
  apiKey_create key (mkApiKeyRow rowId name tier requestLimit 0 true None).

(** The [where] clause of the hourly count. *)
Definition recent_for (key : string) (oneHourAgo : Z) (r : RequestLogRow) : bool :=
  bool_decide (rl_apiKey r = Some key) && (oneHourAgo <=? rl_createdAt r).

(** [validateApiKey]: [now1] is read for [oneHourAgo], [now2] for the
    last-used timestamp. *)
Definition validateApiKey (now1 now2 : Z) (key : string) : M World Validation :=
  try_catch
    (apiKey ← apiKey_findUnique key;
     match apiKey with
     | None => mret invalid
     | Some apiKey =>
         if negb (ak_isActive apiKey) then mret invalid
         else
           let oneHourAgo := now1 - 60 * 60 * 1000 in
           recentRequests ← requestLog_count (recent_for key oneHourAgo);
           if ak_requestLimit apiKey <=? recentRequests then mret invalid
           else
             apiKey_update_by_id (ak_id apiKey) (set_lastUsedAt now2);;
             mret (mkValidation true
                     (Some (mkValidated (ak_id apiKey) (ak_tier apiKey)
                              (ak_requestLimit apiKey) (ak_requestCount apiKey)
                              (ak_isActive apiKey))))
     end)
    (λ error, console_error "API key validation error:" error;; mret invalid).

(** [incrementUsage] *)
Definition incrementUsage (now : Z) (key : string) : M World unit :=
  try_catch
    (apiKey_update_by_key key (bump_usage now))
    (λ error, console_error "Failed to increment API key usage:" error).

(** [deactivateApiKey] *)
Definition deactivateApiKey (key : string) : M World bool :=
  try_catch
    (apiKey_update_by_key key set_inactive;; mret true)
    (λ error, console_error "Failed to deactivate API key:" error;; mret false).

(** The value [recentRequests] takes in [validateApiKey] when the count
    query succeeds. *)
Definition recent_requests (now1 : Z) (key : string) (w : World) : Z :=
  Z.of_nat (length (filter (λ r, recent_for key (now1 - 60 * 60 * 1000) r = true)
                           (requestLog w))).

(** The credential [key] is stored and switched off. *)
Definition deactivated (key : string) (w : World) : Prop :=
  ∃ row, apiKey w !! key = Some row ∧ ak_isActive row = false.

(** The calls a client of [ApiKeyManager] can make, to speak of every
    later moment. *)
Inductive Op :=
| OpCreate (uid rowId name : string) (tier : Tier)
| OpValidate (now1 now2 : Z) (key : string)
| OpIncrementUsage (now : Z) (key : string)
| OpDeactivate (key : string).

Definition run_op (o : Op) (w : World) : World :=
  match o with
  | OpCreate uid rowId name tier => (createApiKey uid rowId name tier w).2
  | OpValidate now1 now2 key => (validateApiKey now1 now2 key w).2
  | OpIncrementUsage now key => (incrementUsage now key w).2
  | OpDeactivate key => (deactivateApiKey key w).2
  end.

Definition run_ops (os : list Op) (w : World) : World := foldl (λ w o, run_op o w) w os.

(** The verdict of [validateApiKey] as a boolean. *)
Definition accepts (now1 now2 : Z) (key : string) (w : World) : bool :=
  match (validateApiKey now1 now2 key w).1 with
  | Ok r => isValid r
  | Throw _ => false
  end.

(** The object [getApiKeyStats] returns. *)
Record Stats := mkStats {
  st_requestCount : Z;
  st_requestLimit : Z;
  st_remainingRequests : Z;
  st_resetTime : Z
}.

(** [resetTime.setHours(resetTime.getHours() + 1, 0, 0, 0)]: the start of
    the next hour, for a local time zone at a whole number of hours from
    UTC (the Workers runtime runs in UTC). *)
Definition next_hour (now : Z) : Z := (now / 3600000 + 1) * 3600000.

(** [getApiKeyStats]: [now1] is read for [oneHourAgo], [now2] for
    [resetTime]. *)
Definition getApiKeyStats (now1 now2 : Z) (key : string) : M World (option Stats) :=
  try_catch
    (apiKey ← apiKey_findUnique key;
     match apiKey with
     | None => mret None
     | Some apiKey =>
         let oneHourAgo := now1 - 60 * 60 * 1000 in
         recentRequests ← requestLog_count (recent_for key oneHourAgo);
         let resetTime := next_hour now2 in
         mret (Some (mkStats recentRequests (ak_requestLimit apiKey)
                       (Z.max 0 (ak_requestLimit apiKey - recentRequests))
                       resetTime))
     end)
    (λ error, console_error "Failed to get API key stats:" error;; mret None).

End ApiKey.

(** ** The application entry point: authentication and rate limiting *)

Module App.
Import Prisma RateLimiter.
Open Scope Z_scope.

(** The API key authentication middleware.  [now1] and [now2] are the
    clock reads of [validateApiKey], [now3] the one of [incrementUsage].
    The logger calls are not modelled.  The outcome [Next] stands for
    reaching [c.set("rateLimitTier", tier); await next()]. *)
Definition authMiddleware (now1 now2 now3 : Z) : M (Context * World) Outcome :=
  apiKey ← gets (λ s : Context * World, x_api_key (req s.1));
  if truthy_opt apiKey then
    let apiKey := default "" apiKey in
    try_catch
      (validation ← (λ s : Context * World,
                       let '(r, w) := ApiKey.validateApiKey now1 now2 apiKey s.2 in
                       (r, (s.1, w)));
       if negb (ApiKey.isValid validation) then
         mret (Respond (Json 40101 "Invalid or expired API key" 401))
       else
         modify (λ s : Context * World, (RateLimiter.set_apiKey apiKey s.1, s.2));;
         match ApiKey.validated validation with
         | None => throw "TypeError"
         | Some v =>
             (λ s : Context * World,
                let '(r, w) := ApiKey.incrementUsage now3 apiKey s.2 in
                (r, (s.1, w)));;
             modify (λ s : Context * World, (set_rateLimitTier (ApiKey.tier v) s.1, s.2));;
             mret Next
         end)
      (λ error, mret (Respond (Json 50001 "Internal server error" 500)))
  else
    modify (λ s : Context * World, (set_rateLimitTier FREE s.1, s.2));;
    mret Next.

(** The [keyGenerator] the application passes to [createRateLimiter]. *)
Definition keyGenerator (c : Context) : Res (string * Context) :=
  match var_rateLimitTier c with
  | None => Throw "TypeError"
  | Some tier =>
      let limit := requests (rateLimitTiers tier) in
      let c := set_rateLimitMax limit c in
      Ok (if truthy_opt (var_apiKey c) then "api:" +:+ default "" (var_apiKey c)
          else "ip:" +:+ or_else (cf_connecting_ip (req c)) "unknown", c)
  end.

(** The configuration the application passes to [createRateLimiter]. *)
Definition rateLimitConfig : RateLimitConfig :=
  mkConfig 3600000 100 None (Some keyGenerator).

(** The rate limiting middleware of the application, on the default
    [MemoryStore]. *)
Definition rateLimitMiddleware (now now' : Z) (c : Context)
    (hits : gmap string Hit) : Res (Outcome * Context) * gmap string Hit :=
  createRateLimiter rateLimitConfig now now' c hits.

(** The two middlewares in the order they are registered: the rate
    limiter runs inside the [next()] of the authentication middleware. *)
Definition admission (now1 now2 now3 now4 now5 : Z) (c : Context) (w : World)
    (hits : gmap string Hit)
  : Res (Outcome * Context) * World * gmap string Hit :=
  match authMiddleware now1 now2 now3 (c, w) with
  | (Ok Next, (c, w)) =>
      let '(r, hits) := rateLimitMiddleware now4 now5 c hits in (r, w, hits)
  | (Ok (Respond r), (c, w)) => (Ok (Respond r, c), w, hits)
  | (Throw e, (c, w)) => (Throw e, w, hits)
  end.

End App.

(** ** The batch controller *)

Module Batch.
Import Prisma.
Open Scope Z_scope.

(** The object cached under [name:<name>]. *)
Record CachedName := mkCached {
  c_gender : string;
  c_enName : option string;
  c_popularity : option Z
}.

(** One element of [results].  [confidence] is kept in hundredths:
    [1.0] is [100], [0.95] is [95] and [0.0] is [0]. *)
Record BatchResult := mkResult {
  name : string;
  gender : option string;
  enName : option string;
  popularity : option Z;
  confidence : Z
}.

(** The answer of the handler: the success body (without the processing
    time) or an error body with its status. *)
Inductive BatchResponse :=
| BatchOk (results : list BatchResult) (processedCount errorCount : Z)
| BatchError (code : Z) (message : string) (status : Z).

Definition batchSize : nat := 10.

(** [names.slice(i, j)] *)
Definition slice {A} (i j : nat) (l : list A) : list A := take (j - i) (drop i l).

(** [s || null] on strings *)
Definition or_null (o : option string) : option string :=
  match o with Some s => if truthy s then Some s else None | None => None end.

(** [batchResults.forEach(result => { if (result.confidence === 0.0) errorCount++ })] *)
Definition count_errors (errorCount : Z) (batchResults : list BatchResult) : Z :=
  foldl (λ errorCount result,
           if confidence result =? 0 then errorCount + 1 else errorCount)
        errorCount batchResults.

(** The result of an item whose processing threw. *)
Definition failed_result (includePopularity : bool) (name : string) : BatchResult :=
  mkResult name None None (if includePopularity then Some 0 else None) 0.

(** Neither tier of the cache holds an entry for [name]. *)
Definition uncached (cm : @Cache.CacheManager CachedName) (w : World)
    (name : string) : Prop :=
  Cache.memoryCache cm !! Cache.getKey cm ("name:" +:+ name) = None
  ∧ cacheEntry w !! Cache.getKey cm ("name:" +:+ name) = None.

(** The name table has a row for [name]. *)
Definition stored (w : World) (name : string) : Prop :=
  is_Some (find (λ r, String.eqb (nr_name r) name) (persianName w)).

(** The number of results with a confidence of zero. *)
Definition zero_confidence (results : list BatchResult) : nat :=
  length (filter (λ r, confidence r = 0) results).

(** [name.length], the number of UTF-16 code units of a string that is
    held as UTF-8 bytes: a continuation byte adds none, the first byte
    of a sequence of four adds two, any other byte one. *)
Fixpoint utf16_length (s : string) : nat :=
  match s with
  | EmptyString => 0
  | String a s =>
      let b := Ascii.nat_of_ascii a in
      ((if (b <? 128) || (192 <=? b) then 1 else 0)
       + (if 240 <=? b then 1 else 0) + utf16_length s)%nat
  end.

(** [batchRequestSchema] on the field [names]:
    [z.array(z.string().min(1).max(50)).min(1).max(100)] *)
Definition batchRequestSchema (names : list string) : bool :=
  forallb (λ name, (1 <=? utf16_length name)%nat && (utf16_length name <=? 50)%nat)
    names
  && (1 <=? length names)%nat && (length names <=? 100)%nat.

Section Handler.
Context (stringify : CachedName → string) (parse : string → option CachedName).
(** The clock reads of the [idx]-th name: two for [cache.get], one for
    [cache.set]. *)
Context (clock : nat → Z * Z * Z).
Context (includePopularity : bool).

Abbreviation St := (@Cache.St CachedName).

(** [processName] *)
Definition processName (idx : nat) (name : string) : M St BatchResult :=
  let '(now1, now2, now3) := clock idx in
  try_catch
    (cached ← Cache.get parse now1 now2 ("name:" +:+ name);
     match cached with
     | Some cached =>
         mret (mkResult name (Some (c_gender cached)) (c_enName cached)
                 (if includePopularity then c_popularity cached else None) 100)
     | None =>
         Cache.liftW (persianName_findFirst name) ≫= λ data : option NameRow,
         let result :=
           mkResult name
             (or_null (nr_gender <$> data))
             (or_null (data ≫= nr_enName))
             (if includePopularity then Some (default 0 (nr_popularity <$> data))
              else None)
             (match data with Some _ => 95 | None => 0 end) in
         match data with
         | Some data =>
             Cache.set stringify now3 ("name:" +:+ name)
               (mkCached (nr_gender data) (nr_enName data)
                  (if includePopularity then Some (nr_popularity data) else None))
               (Some 3600);;
             mret result
         | None => mret result
         end
     end)
    (λ error, mret (failed_result includePopularity name)).

(** *** [Promise.all] over a sub-batch

    [batch.map(processName)] starts every call before any of them goes
    on: a call runs up to its first pending Prisma call, and the calls
    then go on in the order in which their Prisma calls complete.  That
    order is not fixed by the program; it is the schedule below. *)

(** A call of [processName] that waits for a Prisma call, or has
    returned: it waits for the [findUnique] of [cache.get], for the
    [findFirst] on the name table, or for the [upsert] of [cache.set]
    (with the arguments that [set] has computed). *)
Inductive Task :=
| AwaitFindUnique (idx : nat) (name : string)
| AwaitFindFirst (idx : nat) (name : string)
| AwaitUpsert (cacheKey serializedValue : string) (expiresAt : Z)
              (result : BatchResult)
| Returned (result : BatchResult).

(** The result of a name that the cache holds. *)
Definition cached_result (name : string) (cached : CachedName) : BatchResult :=
  mkResult name (Some (c_gender cached)) (c_enName cached)
    (if includePopularity then c_popularity cached else None) 100.

(** [processName(name)] up to its first pending call: the memory check
    of [cache.get], which either answers or leaves [findUnique] pending. *)
Definition start (idx : nat) (name : string) : M St Task :=
  let '(now1, now2, now3) := clock idx in
  cacheKey ← gets (λ s : St, Cache.getKey s.1 ("name:" +:+ name));
  memoryItem ← gets (λ s : St, Cache.memoryCache s.1 !! cacheKey);
  match Cache.memory_hit now1 memoryItem with
  | Some cached => mret (Returned (cached_result name cached))
  | None => mret (AwaitFindUnique idx name)
  end.

(** The pending call of a task completes and the task goes on, up to
    its next pending call or to its return. *)
Definition resume (t : Task) : M St Task :=
  match t with
  | AwaitFindUnique idx name =>
      let '(now1, now2, now3) := clock idx in
      cacheKey ← gets (λ s : St, Cache.getKey s.1 ("name:" +:+ name));
      cached ←
        try_catch
          (dbItem ← Cache.liftW (cacheEntry_findUnique cacheKey);
           match dbItem with
           | Some row =>
               if now2 <? row_expiresAt row then
                 value ← Cache.JSON_parse parse (row_value row);
                 Cache.modify_memory
                   (insert cacheKey
                      (Cache.mkItem value (Cache.Fin (row_expiresAt row))));;
                 mret (Some value)
               else mret None
           | None => mret None
           end)
          (λ error, Cache.liftW (console_error "Cache get error:" error);; mret None);
      match cached with
      | Some cached => mret (Returned (cached_result name cached))
      | None => mret (AwaitFindFirst idx name)
      end
  | AwaitFindFirst idx name =>
      let '(now1, now2, now3) := clock idx in
      try_catch
        (Cache.liftW (persianName_findFirst name) ≫= λ data : option NameRow,
         let result :=
           mkResult name
             (or_null (nr_gender <$> data))
             (or_null (data ≫= nr_enName))
             (if includePopularity then Some (default 0 (nr_popularity <$> data))
              else None)
             (match data with Some _ => 95 | None => 0 end) in
         match data with
         | Some data =>
             let value :=
               mkCached (nr_gender data) (nr_enName data)
                 (if includePopularity then Some (nr_popularity data) else None) in
             cacheKey ← gets (λ s : St, Cache.getKey s.1 ("name:" +:+ name));
             let expiresAt := now3 + Cache.effective_ttl (Some 3600) * 1000 in
             let serializedValue := stringify value in
             Cache.modify_memory
               (insert cacheKey (Cache.mkItem value (Cache.Fin expiresAt)));;
             mret (AwaitUpsert cacheKey serializedValue expiresAt result)
         | None => mret (Returned result)
         end)
        (λ error, mret (Returned (failed_result includePopularity name)))
  | AwaitUpsert cacheKey serializedValue expiresAt result =>
      try_catch
        (Cache.liftW (cacheEntry_upsert cacheKey serializedValue expiresAt))
        (λ error, Cache.liftW (console_error "Cache set error:" error));;
      mret (Returned result)
  | Returned result => mret (Returned result)
  end.

(** [batch.map(processName)]: the calls are started in the order of the
    batch; [idx] is the position of the head of [batch] in [names]. *)
Fixpoint starts (idx : nat) (batch : list string) : M St (list Task) :=
  match batch with
  | [] => mret []
  | name :: rest =>
      t ← start idx name;
      ts ← starts (S idx) rest;
      mret (t :: ts)
  end.

(** The pending call of the [k]-th task completes. *)
Definition resume_at (k : nat) (pool : list Task) : M St (list Task) :=
  match pool !! k with
  | Some t => t' ← resume t; mret (<[k := t']> pool)
  | None => mret pool
  end.

(** The completions of a schedule, in its order. *)
Fixpoint run_schedule (schedule : list nat) (pool : list Task) : M St (list Task) :=
  match schedule with
  | [] => mret pool
  | k :: schedule => pool ← resume_at k pool; run_schedule schedule pool
  end.

(** One completion for every task, in the order of the batch. *)
Fixpoint resume_all (pool : list Task) : M St (list Task) :=
  match pool with
  | [] => mret []
  | t :: pool =>
      t' ← resume t;
      pool' ← resume_all pool;
      mret (t' :: pool')
  end.

(** The values of the settled promises. *)
Fixpoint collect (pool : list Task) : M St (list BatchResult) :=
  match pool with
  | [] => mret []
  | Returned result :: pool => results ← collect pool; mret (result :: results)
  | _ :: _ => throw "pending"
  end.

(** The Prisma calls a task may still make. *)
Definition rank (t : Task) : nat :=
  match t with
  | AwaitFindUnique _ _ => 3
  | AwaitFindFirst _ _ => 2
  | AwaitUpsert _ _ _ _ => 1
  | Returned _ => 0
  end.

(** [await Promise.all(batch.map(processName))]: the calls are started,
    their Prisma calls complete in the order of [schedule] and, once it
    is used up, in the order of the batch; a call has at most three
    Prisma calls, so three rounds settle every promise. *)
Definition promise_all (schedule : list nat) (idx : nat) (batch : list string)
  : M St (list BatchResult) :=
  pool ← starts idx batch;
  pool ← run_schedule schedule pool;
  pool ← resume_all pool;
  pool ← resume_all pool;
  pool ← resume_all pool;
  collect pool.

(** The schedule of the sub-batch that starts at position [i]. *)
Context (schedules : nat → list nat).

(** The loop [for (let i = 0; i < names.length; i += batchSize)]; each
    turn consumes one unit of [fuel]. *)
Fixpoint batch_loop (fuel i : nat) (names : list string)
    (results : list BatchResult) (errorCount : Z)
  : M St (list BatchResult * Z) :=
  match fuel with
  | O => mret (results, errorCount)
  | S fuel =>
      if (i <? length names)%nat then
        let batch := slice i (i + batchSize) names in
        batchResults ← promise_all (schedules i) i batch;
        let errorCount := count_errors errorCount batchResults in
        batch_loop fuel (i + batchSize)%nat names (results ++ batchResults) errorCount
      else mret (results, errorCount)
  end.

(** The handler of [POST /batch] after schema validation.  The loop
    needs at most [length names] turns. *)
Definition batchHandler (tier : Tier) (names : list string) : M St BatchResponse :=
  try_catch
    (if bool_decide (tier = FREE) then
       mret (BatchError 40303 "Batch processing requires a paid API key" 403)
     else if (length names =? 0)%nat then
       mret (BatchError 40001 "Names array cannot be empty" 400)
     else if (100 <? length names)%nat then
       mret (BatchError 40001 "Maximum 100 names allowed per batch request" 400)
     else
       '(results, errorCount) ← batch_loop (length names) 0 names [] 0;
       mret (BatchOk results (Z.of_nat (length names)) errorCount))
    (λ error,
       mret (BatchError 50001 "Internal server error during batch processing" 500)).

(** *** The sub-batches as the specification words them

    Modelled on the words of the specification, to compare the loop
    with: the names in consecutive groups of 10, the last one shorter. *)
Fixpoint sub_batches (fuel : nat) (names : list string) : list (list string) :=
  match fuel with
  | O => []
  | S fuel =>
      match names with
      | [] => []
      | _ :: _ => take 10 names :: sub_batches fuel (drop 10 names)
      end
  end.

(** One [Promise.all] per group, each awaited before the next starts;
    [i] is the position of the head of the first group. *)
Fixpoint run_sub_batches (i : nat) (batches : list (list string))
    (results : list BatchResult) (errorCount : Z)
  : M St (list BatchResult * Z) :=
  match batches with
  | [] => mret (results, errorCount)
  | batch :: batches =>
      batchResults ← promise_all (schedules i) i batch;
      run_sub_batches (i + length batch) batches (results ++ batchResults)
        (count_errors errorCount batchResults)
  end.

(** *** The route [POST /batch]

    [zValidator("json", batchRequestSchema, hook)] runs before the
    handler: on a body that fails the schema the hook answers, and the
    handler is not called.  [issue_message names] is the message that
    zod gives to the first issue of such a body. *)
Context (issue_message : list string → option string).

Definition batchRoute (tier : Tier) (names : list string) : M St BatchResponse :=
  if batchRequestSchema names then batchHandler tier names
  else
    mret (BatchError 40001 (or_else (issue_message names) "Validation error") 400).

End Handler.
End Batch.

(** ** Sample inputs *)

Module Sample.
Import Prisma RateLimiter.
Open Scope Z_scope.

(** A BASIC credential as [createApiKey] stores it. *)
Definition basic_row : ApiKeyRow :=
  mkApiKeyRow "id_basic" "Acme" BASIC 1000 0 true None.

Definition basic_world : World :=
  mkWorld ∅ {["sk_basic" := basic_row]} [] [] [] (λ _, false) [].

(** A request that presents the BASIC credential. *)
Definition basic_request : Context :=
  mkContext (mkRequest (Some "sk_basic") (Some "203.0.113.7") None)
            None None None ∅.

(** The context of a validated PREMIUM caller, as the authentication
    middleware leaves it. *)
Definition premium_context : Context :=
  mkContext (mkRequest (Some "sk_premium") (Some "203.0.113.7") None)
            (Some PREMIUM) (Some "sk_premium") None ∅.

(** The store after 100 requests of that credential at time 0. *)
Definition hits_100 : gmap string Hit :=
  Nat.iter 100 (λ hits, (MemoryStore_increment 0 "api:sk_basic" hits).2) ∅.

(** A world with empty tables and a backend that never fails. *)
Definition empty_world : World := mkWorld ∅ ∅ [] [] [] (λ _, false) [].

(** The same world with a backend that fails its next call. *)
Definition failing_world : World := mkWorld ∅ ∅ [] [] [true] (λ _, false) [].

(** A name table with three names, and an origin whose lookup throws
    on two other names. *)
Definition origin_world : World :=
  mkWorld ∅ ∅ []
    [mkNameRow "ali" "MALE" (Some "ali") 90;
     mkNameRow "sara" "FEMALE" (Some "sara") 80;
     mkNameRow "reza" "MALE" (Some "reza") 70]
    [] (λ n, String.eqb n "x1" || String.eqb n "x2") [].

Definition five_names : list string := ["ali"; "x1"; "sara"; "x2"; "reza"].

(** The cache instance of the application. *)
Definition shenasa_cache : @Cache.CacheManager string := Cache.new (Some "shenasa").

End Sample.

(** ** src/utils/metrics.ts *)

Module Metrics.
Import Prisma.
Open Scope Z_scope.

(** [MetricsCollector.logRequest]: [now] is the clock of the database
    when it stamps the row. *)
Definition logRequest (now : Z) (apiKey : option string) : M World unit :=
  try_catch
    (requestLog_create now apiKey)
    (λ error, console_error "Failed to log request:" error).

End Metrics.

(** ** src/utils/cache.ts: warming *)

Module Warm.
Import Prisma.
Open Scope Z_scope.

Section WarmCache.
Context (stringify : Batch.CachedName → string).
(** The clock read of the [idx]-th call of [set]. *)
Context (clock : nat → Z).

Abbreviation St := (@Cache.St Batch.CachedName).

(** The loop [for (const name of popularNames) await this.set(...)]. *)
Fixpoint warm_loop (idx : nat) (popularNames : list NameRow) : M St unit :=
  match popularNames with
  | [] => mret tt
  | name :: rest =>
      Cache.set stringify (clock idx) ("name:" +:+ nr_name name)
        (Batch.mkCached (nr_gender name) (nr_enName name) (Some (nr_popularity name)))
        (Some 7200);;
      warm_loop (S idx) rest
  end.

(** [warmCache] *)
Definition warmCache : M St unit :=
  try_catch
    (popularNames ← Cache.liftW (persianName_findMany_popular 100);
     warm_loop 0 popularNames)
    (λ error, Cache.liftW (console_error "Cache warming error:" error)).

End WarmCache.
End Warm.

(** ** src/controllers/name.controller.ts *)

Module NameController.
Import Prisma.
Open Scope Z_scope.

(** The body of a successful answer, which is also the cached payload. *)
Record NameResult := mkNameResult {
  gender : option string;
  enName : option string
}.

Inductive Body :=
| BodyResult (r : NameResult)
| BodyError (code : Z) (message : string).

(** The answer: body, status and the headers the handler sets
    ([X-Response-Time] in milliseconds). *)
Record Response := mkResponse {
  body : Body;
  status : Z;
  x_cache : option string;
  cache_control : option string;
  x_response_time : option Z
}.

Section Handler.
Context (stringify : NameResult → string) (parse : string → option NameResult).

Abbreviation St := (@Cache.St NameResult).

(** The handler of [GET /name/:name] after parameter validation.
    [requestStart] and [apiKey] are the context variables; [now1] and
    [now2] are the clock reads of [cache.get], [nowR] the one for the
    response time, [nowLog] the clock of the database for the log row,
    [now3] the one of [cache.set].  The logger calls and the duration
    of the lookup, which only they use, are not modelled. *)
Definition getName (requestStart now1 now2 nowR nowLog now3 : Z)
    (apiKey : option string) (name : string) : M St Response :=
  try_catch
    (if negb (truthy name) then
       mret (mkResponse (BodyError 40002 "Name parameter is required") 400
               None None None)
     else
       cached ← Cache.get parse now1 now2 ("name:" +:+ name);
       match cached with
       | Some cached =>
           mret (mkResponse (BodyResult cached) 200
                   (Some "HIT") (Some "public, max-age=3600") None)
       | None =>
           Cache.liftW (persianName_findFirst name) ≫= λ data : option NameRow,
           let responseTime := nowR - requestStart in
           Cache.liftW (Metrics.logRequest nowLog apiKey);;
           let result :=
             match data with
             | Some data => mkNameResult (Some (nr_gender data)) (nr_enName data)
             | None => mkNameResult None None
             end in
           Cache.set stringify now3 ("name:" +:+ name) result (Some 3600);;
           mret (mkResponse (BodyResult result) 200
                   (Some "MISS") (Some "public, max-age=3600") (Some responseTime))
       end)
    (λ error,
       mret (mkResponse (BodyError 50001 "Internal server error") 500
               None None None)).

End Handler.
End NameController.

(** ** src/controllers/admin.controller.ts *)

Module Admin.
Import Prisma.
Open Scope Z_scope.

(** [!adminKey || adminKey !== expectedAdminKey], with
    [expectedAdminKey = c.env.ADMIN_SECRET_KEY || "admin-secret-key"]. *)
Definition admin_denied (adminKey secret : option string) : bool :=
  negb (truthy_opt adminKey)
  || negb (String.eqb (default "" adminKey) (or_else secret "admin-secret-key")).

(** The answer of [POST /admin/api-keys]. *)
Inductive CreateResponse :=
| Created (row : ApiKeyRow) (key : string)
| CreateError (code : Z) (message : string) (status : Z).

(** The handler of [POST /admin/api-keys] after schema validation; [uid]
    and [rowId] are the identifiers generated for the key and its row. *)
Definition createKey (adminKey secret : option string) (uid rowId : string)
    (name : string) (tier : Tier) : M World CreateResponse :=
  try_catch
    (if negb (truthy_opt adminKey) then
       mret (CreateError 40101
               "Admin authentication key required in x-admin-key header" 401)
     else if negb (String.eqb (default "" adminKey)
                     (or_else secret "admin-secret-key")) then
       mret (CreateError 40101 "Admin access required" 401)
     else
       apiKey ← ApiKey.createApiKey uid rowId name tier;
       mret (Created apiKey ("sk_" +:+ uid)))
    (λ error, mret (CreateError 50001 "Failed to create API key" 500)).

(** The answer of [POST /admin/cache/warm]. *)
Inductive WarmResponse :=
| Warmed (message : string) (warmed : Z) (duration : Z)
| WarmError (code : Z) (message : string) (status : Z).

Section WarmHandler.
Context (stringify : Batch.CachedName → string) (clock : nat → Z).

(** The handler of [POST /admin/cache/warm]; [startTime] and [endTime]
    are the clock reads around [warmCache]. *)
Definition warm (adminKey secret : option string) (startTime endTime : Z)
  : M (@Cache.St Batch.CachedName) WarmResponse :=
  try_catch
    (if admin_denied adminKey secret then
       mret (WarmError 40101 "Admin access required" 401)
     else
       Warm.warmCache stringify clock;;
       let duration := endTime - startTime in
       mret (Warmed "Cache warmed successfully" 1000 duration))
    (λ error, mret (WarmError 50001 "Cache warming failed" 500)).

End WarmHandler.
End Admin.

(** ** More sample inputs *)

Module MoreSamples.
Import Prisma.
Open Scope Z_scope.

(** A database that holds a live row for [shenasa:name:ali]. *)
Definition stored_world : World :=
  mkWorld {["shenasa:name:ali" := mkCacheRow "MALE" 3600000]} ∅ [] [] []
          (λ _, false) [].

(** The same database, failing its next call. *)
Definition stale_world : World :=
  mkWorld {["shenasa:name:ali" := mkCacheRow "MALE" 3600000]} ∅ [] [] [true]
          (λ _, false) [].

(** A key with a limit of 2 and one request logged in the last hour. *)
Definition one_left_row : ApiKeyRow :=
  mkApiKeyRow "id_one" "Solo" FREE 2 1 true None.

Definition one_left_world : World :=
  mkWorld ∅ {["sk_one" := one_left_row]} [mkLogRow (Some "sk_one") 3000] []
          [] (λ _, false) [].

(** The same key with two requests logged in the last hour, one of
    another key, and one of its own that is older than an hour. *)
Definition two_logged_world : World :=
  mkWorld ∅ {["sk_one" := one_left_row]}
          [mkLogRow (Some "sk_one") (-3595001); mkLogRow (Some "sk_one") 3000;
           mkLogRow (Some "sk_two") 3500; mkLogRow (Some "sk_one") 4000;
           mkLogRow None 4500]
          [] [] (λ _, false) [].

(** The cache of the application with a live entry for [name:ali] in
    memory; with [stored_world] the entry is live in both tiers. *)
Definition warm_cache : @Cache.CacheManager string :=
  Cache.mkCache {["shenasa:name:ali" := Cache.mkItem "MALE" (Cache.Fin 3600000)]}
    (Some "shenasa").

(** A cache and a database that each hold an entry that expired at 5
    and an entry that expires at 50. *)
Definition mixed_cache : @Cache.CacheManager string :=
  Cache.mkCache {["shenasa:name:old" := Cache.mkItem "MALE" (Cache.Fin 5);
                  "shenasa:name:new" := Cache.mkItem "FEMALE" (Cache.Fin 50)]}
    (Some "shenasa").

Definition mixed_world : World :=
  mkWorld {["shenasa:name:old" := mkCacheRow "MALE" 5;
            "shenasa:name:new" := mkCacheRow "FEMALE" 50]} ∅ [] [] []
          (λ _, false) [].

End MoreSamples.

(** * Properties *)

(** ** Fixed-window counting in [MemoryStore] *)

Module RateLimiterTheory.
Import RateLimiter.
Open Scope Z_scope.

Lemma increment_fresh now key hits :
  ¬ live now key hits →
  MemoryStore_increment now key hits
  = (mkInc 1 60000, <[key := mkHit 1 (now + 60000)]> hits).
Proof.
  intros Hn. unfold MemoryStore_increment.
  destruct (hits !! key) as [h|] eqn:E; [|done].
  destruct (Z.leb_spec (resetTime h) now); [done|].
  exfalso. apply Hn. by exists h.
Qed.

Lemma increment_live now key hits h :
  hits !! key = Some h → now < resetTime h →
  MemoryStore_increment now key hits
  = (mkInc (count h + 1) (resetTime h - now),
     <[key := mkHit (count h + 1) (resetTime h)]> hits).
Proof.
  intros E Hlt. unfold MemoryStore_increment. rewrite E.
  destruct (Z.leb_spec (resetTime h) now); [lia|done].
Qed.

(** The store after [increment] holds, for [key], exactly the count it
    returned, and leaves the other identifiers alone. *)
Lemma increment_stores now key hits :
  ∃ h, (MemoryStore_increment now key hits).2 !! key = Some h
       ∧ count h = totalHits (MemoryStore_increment now key hits).1.
Proof.
  unfold MemoryStore_increment.
  destruct (hits !! key) as [h|]; [destruct (_ <=? _)|];
    simpl; rewrite lookup_insert_eq; eauto.
Qed.

Lemma increment_other now key key' hits :
  key ≠ key' →
  (MemoryStore_increment now key hits).2 !! key' = hits !! key'.
Proof.
  intros Hne. unfold MemoryStore_increment.
  destruct (hits !! key) as [h|]; [destruct (_ <=? _)|];
    simpl; by rewrite lookup_insert_ne.
Qed.

(** Fixed-window counting as the code performs it: the window lasts
    60000 ms.  A counter that is absent or elapsed restarts at 1 with a
    window that ends 60000 ms later; a live counter grows by one, keeps
    its window and reports the time left in it. *)
Lemma increment_fixed_window now key hits :
  (¬ live now key hits →
     MemoryStore_increment now key hits
     = (mkInc 1 60000, <[key := mkHit 1 (now + 60000)]> hits)
     ∧ hitCount key (MemoryStore_increment now key hits).2 = 1)
  ∧ (∀ h, hits !! key = Some h → now < resetTime h →
     MemoryStore_increment now key hits
     = (mkInc (count h + 1) (resetTime h - now),
        <[key := mkHit (count h + 1) (resetTime h)]> hits)
     ∧ hitCount key (MemoryStore_increment now key hits).2 = hitCount key hits + 1).
Proof.
  split.
  - intros Hn. rewrite (increment_fresh _ _ _ Hn). split; [done|].
    unfold hitCount. simpl. by rewrite lookup_insert_eq.
  - intros h E Hlt. rewrite (increment_live _ _ _ _ E Hlt). split; [done|].
    unfold hitCount. simpl. by rewrite lookup_insert_eq, E.
Qed.

(** [decrement] takes one off the count of [key] and stops at zero. *)
Lemma decrement_floor key hits :
  0 ≤ hitCount key hits →
  hitCount key (MemoryStore_decrement key hits) = Z.max 0 (hitCount key hits - 1).
Proof.
  unfold hitCount, MemoryStore_decrement.
  destruct (hits !! key) as [c|] eqn:E; simpl; [|rewrite E; simpl; lia].
  intros Hpos. destruct (Z.ltb_spec 0 (count c)).
  - rewrite lookup_insert_eq. simpl. lia.
  - rewrite E. simpl. lia.
Qed.

Lemma decrement_floor_witness :
  hitCount "ip:203.0.113.7"
    (MemoryStore_decrement "ip:203.0.113.7" {["ip:203.0.113.7" := mkHit 0 60000]})
  = Z.max 0 (hitCount "ip:203.0.113.7" {["ip:203.0.113.7" := mkHit 0 60000]} - 1).
Proof. apply decrement_floor. vm_compute. discriminate. Defined.

(** The quotas of the tier table grow strictly with the tier. *)
Lemma tier_ordering :
  requests (rateLimitTiers FREE) < requests (rateLimitTiers BASIC)
  ∧ requests (rateLimitTiers BASIC) < requests (rateLimitTiers PREMIUM)
  ∧ requests (rateLimitTiers PREMIUM) < requests (rateLimitTiers ENTERPRISE).
Proof. simpl. lia. Qed.

(** After 100 calls in one window the 101st returns 101 hits and the
    time left in the window; the first call after the window returns 1. *)
Lemma fixed_window_reset_scenario :
  MemoryStore_increment 59999 "api:sk_basic" Sample.hits_100
  = (mkInc 101 1, {["api:sk_basic" := mkHit 101 60000]})
  ∧ MemoryStore_increment 60000 "api:sk_basic" {["api:sk_basic" := mkHit 101 60000]}
    = (mkInc 1 60000, {["api:sk_basic" := mkHit 1 120000]}).
Proof. split; vm_compute; reflexivity. Qed.

(** C2, the code at the failing input.  A second request of the same
    identifier one minute after the first falls into a new window: the
    count restarts at 1 although far less than an hour has passed. *)
Theorem increment_window_is_one_minute :
  let key := "ip:203.0.113.7" in
  let '(r1, hits1) := MemoryStore_increment 0 key ∅ in
  let '(r2, hits2) := MemoryStore_increment 60000 key hits1 in
  r1 = mkInc 1 60000
  ∧ r2 = mkInc 1 60000
  ∧ hits2 !! key = Some (mkHit 1 120000)
  ∧ 60000 < window (rateLimitTiers FREE).
Proof.
  cbn zeta. rewrite increment_fresh.
  2:{ intros (h & E & _). by rewrite lookup_empty in E. }
  rewrite increment_fresh.
  2:{ intros (h & E & Hlt). rewrite lookup_insert_eq in E.
      injection E as <-. simpl in Hlt. lia. }
  split; [reflexivity|]. split; [reflexivity|].
  split; [by rewrite lookup_insert_eq | reflexivity].
Qed.

End RateLimiterTheory.

(** ** The admission path of the application *)

Module AppTheory.
Import Prisma RateLimiter App.
Open Scope Z_scope.

(** What the rate limiting middleware of the application does, for every
    tier: it compares the hit count with [config.max], which is 100; the
    threshold of the tier is only written to [rateLimitMax], which the
    middleware does not read.  The three quota headers are always set.
    On a rejection [Retry-After] is the time to the end of the window in
    seconds, rounded up; otherwise the header is left as it was. *)
Lemma rateLimitMiddleware_spec now now' c hits tier :
  var_rateLimitTier c = Some tier →
  let key := if truthy_opt (var_apiKey c) then "api:" +:+ default "" (var_apiKey c)
             else "ip:" +:+ or_else (cf_connecting_ip (req c)) "unknown" in
  let r := (MemoryStore_increment now key hits).1 in
  ∃ c',
    rateLimitMiddleware now now' c hits
    = (Ok (if 100 <? totalHits r
           then Respond (Json 42901 "Too many requests. Please try again later." 429)
           else Next, c'),
       (MemoryStore_increment now key hits).2)
    ∧ resHeaders c' !! "X-RateLimit-Limit" = Some (HNum 100)
    ∧ resHeaders c' !! "X-RateLimit-Remaining"
      = Some (HNum (Z.max 0 (100 - totalHits r)))
    ∧ resHeaders c' !! "X-RateLimit-Reset" = Some (HDate (now' + timeToExpire r))
    ∧ (100 < totalHits r →
       ∃ seconds,
         resHeaders c' !! "Retry-After" = Some (HNum seconds)
         ∧ 1000 * (seconds - 1) < timeToExpire r ≤ 1000 * seconds)
    ∧ (totalHits r ≤ 100 →
       resHeaders c' !! "Retry-After" = resHeaders c !! "Retry-After")
    ∧ rateLimitMax c' = Some (requests (rateLimitTiers tier)).
Proof.
  intros Ht key. unfold rateLimitMiddleware, createRateLimiter. simpl.
  unfold keyGenerator. rewrite Ht. simpl. fold key.
  destruct (MemoryStore_increment now key hits) as [r hits'] eqn:E.
  simpl.
  destruct (Z.ltb_spec 100 (totalHits r)) as [Hcmp|Hcmp];
    (eexists; split; [reflexivity|]);
    unfold header; simpl.
  - split; [by rewrite !lookup_insert_ne, lookup_insert_eq by done|].
    split; [by rewrite !lookup_insert_ne, lookup_insert_eq by done|].
    split; [by rewrite !lookup_insert_ne, lookup_insert_eq by done|].
    split; [|split; [lia|done]].
    intros _. exists (ceil_div_1000 (timeToExpire r)).
    split; [by rewrite lookup_insert_eq|].
    unfold ceil_div_1000.
    pose proof (Z.div_mod (- timeToExpire r) 1000 ltac:(lia)).
    pose proof (Z.mod_pos_bound (- timeToExpire r) 1000 ltac:(lia)). lia.
  - split; [by rewrite !lookup_insert_ne, lookup_insert_eq by done|].
    split; [by rewrite !lookup_insert_ne, lookup_insert_eq by done|].
    split; [by rewrite lookup_insert_eq|].
    split; [lia|]. split; [|done].
    intros _. by rewrite !lookup_insert_ne by done.
Qed.

(** A PREMIUM caller whose counter stands at 100, a second and a half
    before the end of the window: the request is rejected with nothing
    left of a limit of 100, and is told to retry after 2 seconds. *)
Lemma rateLimitMiddleware_spec_witness :
  ∃ c',
    rateLimitMiddleware 58500 58501 Sample.premium_context
      {["api:sk_premium" := mkHit 100 60000]}
    = (Ok (Respond (Json 42901 "Too many requests. Please try again later." 429), c'),
       {["api:sk_premium" := mkHit 101 60000]})
    ∧ resHeaders c' !! "X-RateLimit-Limit" = Some (HNum 100)
    ∧ resHeaders c' !! "X-RateLimit-Remaining" = Some (HNum 0)
    ∧ resHeaders c' !! "X-RateLimit-Reset" = Some (HDate 60001)
    ∧ resHeaders c' !! "Retry-After" = Some (HNum 2)
    ∧ rateLimitMax c' = Some 10000.
Proof.
  destruct (rateLimitMiddleware_spec 58500 58501 Sample.premium_context
              {["api:sk_premium" := mkHit 100 60000]} PREMIUM eq_refl)
    as (c' & E & Hlimit & Hrem & Hreset & Hretry & _ & Hmax).
  exists c'. split; [exact E|]. split; [exact Hlimit|]. split; [exact Hrem|].
  split; [exact Hreset|]. split; [|exact Hmax].
  destruct Hretry as (seconds & -> & Hlo & Hhi); [reflexivity|].
  change (1000 * (seconds - 1) < 1500) in Hlo. change (1500 ≤ 1000 * seconds) in Hhi.
  do 2 f_equal. lia.
Defined.

(** C1, the code at the failing input.  The 101st request of a BASIC
    credential within one window is answered 429 with the limit header
    at 100, although 101 hits do not exceed the BASIC threshold 1000. *)
Theorem admission_basic_tier_capped_at_100 :
  match admission 1000 1000 1000 1000 1000
          Sample.basic_request Sample.basic_world Sample.hits_100 with
  | (Ok (Respond r, c), w, hits) =>
      r = Json 42901 "Too many requests. Please try again later." 429
      ∧ var_rateLimitTier c = Some BASIC
      ∧ hits !! "api:sk_basic" = Some (mkHit 101 60000)
      ∧ 101 ≤ requests (rateLimitTiers BASIC)
      ∧ resHeaders c !! "X-RateLimit-Limit" = Some (HNum 100)
      ∧ rateLimitMax c = Some 1000
  | _ => False
  end.
Proof. vm_compute. repeat split; discriminate. Qed.

End AppTheory.

(** ** The two-tier cache *)

Module CacheTheory.
Import Prisma Cache.
Open Scope Z_scope.

Ltac run :=
  unfold get, set, delete, clear, cleanExpired, JSON_parse, modify_memory,
    liftW, cacheEntry_findUnique, cacheEntry_upsert, cacheEntry_delete,
    cacheEntry_deleteMany, console_error, call, try_catch, gets, modify,
    throw, mbind, mret, M_bind, M_ret in *;
  simpl in *.

Ltac oracle w :=
  destruct (faults w) as [|[|] ?]; simpl in *.

Section Laws.
Context {V : Type} (stringify : V → string) (parse : string → option V).

Implicit Types (cm : @CacheManager V) (w : World) (key : string) (v : V).

(** A live entry of the memory tier is returned at once; neither tier
    is touched. *)
Lemma get_memory_hit now1 now2 key cm w item (e : Z) :
  memoryCache cm !! getKey cm key = Some item →
  expiresAt item = e →
  now1 < e →
  get parse now1 now2 key (cm, w) = (Ok (Some (value item)), (cm, w)).
Proof.
  intros E He Hlt. run. rewrite E. simpl. rewrite He. simpl.
  destruct (Z.ltb_spec now1 e); [done|lia].
Qed.

(** [get] returns; it never throws. *)
Lemma get_returns now1 now2 key cm w :
  ∃ r s', get parse now1 now2 key (cm, w) = (Ok r, s').
Proof. run. repeat (case_match; simpl in *; simplify_eq); eauto. Qed.

(** Where a hit comes from. *)
Lemma get_hit_origin now1 now2 key cm w v s' :
  get parse now1 now2 key (cm, w) = (Ok (Some v), s') →
  (∃ item (e : Z), memoryCache cm !! getKey cm key = Some item
           ∧ value item = v ∧ expiresAt item = e ∧ now1 < e)
  ∨ (∃ row, cacheEntry w !! getKey cm key = Some row
            ∧ parse (row_value row) = Some v ∧ now2 < row_expiresAt row).
Proof.
  unfold get, memory_hit, gt. run. intros H.
  repeat (case_match; simpl in *; simplify_eq);
    repeat match goal with
           | H : (_ <? _) = true |- _ => apply Z.ltb_lt in H
           end;
    eauto 10.
Qed.

(** [set] returns; the memory tier holds the value under the prefixed
    key with the computed expiry, whatever the database did. *)
Lemma set_memory now key v ttl cm w :
  ∃ w',
    set stringify now key v ttl (cm, w)
    = (Ok tt,
       (mkCache (<[getKey cm key := mkItem v (now + effective_ttl ttl * 1000)]>
                   (memoryCache cm)) (prefix cm), w')).
Proof. run. oracle w; eauto. Qed.


(** The database side of [set] when the backend rejects the write. *)
Lemma set_database_fails now key v ttl cm w fs :
  faults w = true :: fs →
  ∃ cm' w',
    set stringify now key v ttl (cm, w) = (Ok tt, (cm', w'))
    ∧ cacheEntry w' = cacheEntry w
    ∧ console w' = console w ++ [("Cache set error:", "PrismaClientError")].
Proof. intros Hf. run. rewrite Hf. simpl. eauto. Qed.

(** [set] followed by [get] before the expiry returns the value. *)
Lemma set_get now now1 now2 key v ttl cm w :
  now1 < now + effective_ttl ttl * 1000 →
  ∃ s', (set stringify now key v ttl;; get parse now1 now2 key) (cm, w)
        = (Ok (Some v), s').
Proof.
  intros Hlt.
  destruct (set_memory now key v ttl cm w) as [w' Hset].
  unfold mbind at 1, M_bind at 1. rewrite Hset.
  eexists. eapply (get_memory_hit _ _ _ _ _ (mkItem v _)); [|reflexivity|exact Hlt].
  unfold getKey; simpl. by rewrite lookup_insert_eq.
Qed.

(** Entries that are dead in both tiers give a miss, present or not. *)
Lemma get_dead_is_miss now1 now2 key cm w :
  (∀ item (e : Z), memoryCache cm !! getKey cm key = Some item →
                   expiresAt item = e → e ≤ now1) →
  (∀ row, cacheEntry w !! getKey cm key = Some row → row_expiresAt row ≤ now2) →
  ∃ s', get parse now1 now2 key (cm, w) = (Ok None, s').
Proof.
  intros H1 H2. destruct (get_returns now1 now2 key cm w) as ([v|] & s' & E);
    [|eauto].
  apply get_hit_origin in E as [(item & e & Ei & _ & He & Hlt)|(row & Er & _ & Hlt)].
  - specialize (H1 item e Ei He). lia.
  - apply H2 in Er. lia.
Qed.

(** Inside the Date range [set_any] is [set]. *)
Lemma set_any_in_range now key v ttl s :
  Z.abs (now + effective_ttl ttl * 1000) ≤ 8640000000000000 →
  set_any stringify now key v ttl s = set stringify now key v ttl s.
Proof.
  intros H. unfold set_any, set, new_Date.
  destruct (Z.leb_spec (Z.abs (now + effective_ttl ttl * 1000)) 8640000000000000);
    [done|lia].
Qed.

(** Beyond the Date range [set_any] leaves an entry without an expiry
    in memory, writes no row and logs the refusal of the client. *)
Lemma set_any_beyond now key v ttl cm w :
  8640000000000000 < Z.abs (now + effective_ttl ttl * 1000) →
  set_any stringify now key v ttl (cm, w)
  = (Ok tt,
     (mkCache (<[getKey cm key := mkItem v NaN]> (memoryCache cm)) (prefix cm),
      set_console (console w ++ [("Cache set error:", "PrismaClientValidationError")])
        w)).
Proof.
  intros H. unfold set_any, new_Date.
  destruct (Z.leb_spec (Z.abs (now + effective_ttl ttl * 1000)) 8640000000000000);
    [lia|]. by run.
Qed.

(** [set_any] returns; it never throws. *)
Lemma set_any_returns now key v ttl s :
  ∃ s', set_any stringify now key v ttl s = (Ok tt, s').
Proof.
  destruct s as [cm w].
  destruct (Z.le_gt_cases (Z.abs (now + effective_ttl ttl * 1000)) 8640000000000000).
  - rewrite set_any_in_range by done.
    destruct (set_memory now key v ttl cm w) as [w' E]. eauto.
  - rewrite set_any_beyond by lia. eauto.
Qed.


(** C10.  A TTL of 0 is falsy, like a missing one: [set] takes the
    default of 3600 seconds, so the entry expires an hour later and
    [get] returns the value at any moment before that. *)
Theorem set_zero_ttl_uses_default :
  effective_ttl (Some 0) = defaultTTL
  ∧ effective_ttl None = defaultTTL
  ∧ defaultTTL = 3600
  ∧ (∀ now key v cm w,
       ∃ w', set stringify now key v (Some 0) (cm, w)
             = (Ok tt, (mkCache (<[getKey cm key := mkItem v (now + 3600000)]>
                                   (memoryCache cm)) (prefix cm), w')))
  ∧ (∀ now now1 now2 key v cm w,
       now1 < now + 3600000 →
       ∃ s', (set stringify now key v (Some 0);; get parse now1 now2 key) (cm, w)
             = (Ok (Some v), s')).
Proof.
  do 3 (split; [reflexivity|]). split.
  - intros. apply (set_memory now key v (Some 0) cm w).
  - intros * Hlt. by apply set_get.
Qed.




(** C5.  No operation of the cache throws, whatever the backend does
    and whatever the time to live.  A failed database read inside [get]
    gives a miss and one line on the console; a failed database write
    inside [set] gives one line on the console, leaves the table as it
    was and keeps the memory write, so that [get] before the expiry
    returns the value ([secs] is the time to live in force, 3600 for a
    missing one and for 0, and the expiry lies inside the Date range). *)
Theorem cache_never_throws :
  (∀ now1 now2 key s, ∃ r s', get parse now1 now2 key s = (Ok r, s'))
  ∧ (∀ now key v ttl s, ∃ s', set_any stringify now key v ttl s = (Ok tt, s'))
  ∧ (∀ now key v ttl s, ∃ s', set stringify now key v ttl s = (Ok tt, s'))
  ∧ (∀ key (s : @St V), ∃ s', Cache.delete key s = (Ok tt, s'))
  ∧ (∀ s : @St V, ∃ s', clear s = (Ok tt, s'))
  ∧ (∀ now now2 (s : @St V), ∃ s', cleanExpired now now2 s = (Ok tt, s'))
  ∧ (∀ now1 now2 key cm w fs,
       faults w = true :: fs →
       memory_hit now1 (memoryCache cm !! getKey cm key) = None →
       get parse now1 now2 key (cm, w)
       = (Ok None,
          (cm, set_console (console w ++ [("Cache get error:", "PrismaClientError")])
                 (set_faults fs w))))
  ∧ (∀ now now1 now2 key v ttl secs cm w fs,
       ttl = None ∧ secs = 3600 ∨ ttl = Some 0 ∧ secs = 3600
       ∨ ttl = Some secs ∧ secs ≠ 0 →
       now + secs * 1000 ≤ 8640000000000000 → -8640000000000000 ≤ now + secs * 1000 →
       faults w = true :: fs →
       now1 < now + secs * 1000 →
       ∃ cm' w',
         set_any stringify now key v ttl (cm, w) = (Ok tt, (cm', w'))
         ∧ cacheEntry w' = cacheEntry w
         ∧ console w' = console w ++ [("Cache set error:", "PrismaClientError")]
         ∧ get parse now1 now2 key (cm', w') = (Ok (Some v), (cm', w'))).
Proof.
  split; [|split; [|split; [|split; [|split; [|split; [|split]]]]]].
  - intros now1 now2 key [cm w]. apply get_returns.
  - intros. apply set_any_returns.
  - intros now key v ttl [cm w].
    destruct (set_memory now key v ttl cm w) as [w' E]. eauto.
  - intros key [cm w]. run.
    oracle w; repeat (case_match; simpl in *; simplify_eq);
      repeat match goal with u : unit |- _ => destruct u end; eauto.
  - intros [cm w]. run. oracle w; eauto.
  - intros now now2 [cm w]. run. oracle w; eauto.
  - intros * Hf Hmiss. run. rewrite Hmiss. simpl. rewrite Hf. reflexivity.
  - intros * Hsecs Hhi Hlo Hf Hlt.
    assert (effective_ttl ttl = secs) as Heff.
    { unfold effective_ttl.
      destruct Hsecs as [[-> ->]|[[-> ->]|[-> Hnz]]]; try done.
      destruct (Z.eqb_spec secs 0); [lia|done]. }
    rewrite set_any_in_range by (rewrite Heff; lia).
    destruct (set_database_fails now key v ttl cm w fs Hf)
      as (cm' & w' & Hset & Hrow & Hlog).
    destruct (set_memory now key v ttl cm w) as [w'' Hmem].
    rewrite Hset in Hmem. injection Hmem as -> <-.
    eexists _, _. split; [exact Hset|]. split; [exact Hrow|]. split; [exact Hlog|].
    eapply (get_memory_hit _ _ _ _ _ (mkItem v _)); [|reflexivity|].
    + unfold getKey; simpl. by rewrite lookup_insert_eq.
    + by rewrite Heff.
Qed.

(** [get] writes to the memory tier only, under the prefixed key. *)
Lemma get_frame now1 now2 key cm w :
  ∃ r cm' w',
    get parse now1 now2 key (cm, w) = (Ok r, (cm', w'))
    ∧ prefix cm' = prefix cm
    ∧ cacheEntry w' = cacheEntry w
    ∧ persianName w' = persianName w
    ∧ origin_fault w' = origin_fault w
    ∧ (∀ j, j ≠ getKey cm key → memoryCache cm' !! j = memoryCache cm !! j).
Proof.
  run. destruct (memory_hit _ _); [eauto 10|].
  oracle w; repeat (case_match; simpl in *; simplify_eq);
    eexists _, _, _; (split; [reflexivity|]); simpl;
    repeat split; intros; rewrite ?lookup_insert_ne by done; done.
Qed.

(** [get] on a key that neither tier holds is a miss that leaves both
    tiers alone. *)
Lemma get_absent now1 now2 key cm w :
  memoryCache cm !! getKey cm key = None →
  cacheEntry w !! getKey cm key = None →
  ∃ w',
    get parse now1 now2 key (cm, w) = (Ok None, (cm, w'))
    ∧ cacheEntry w' = cacheEntry w
    ∧ persianName w' = persianName w
    ∧ origin_fault w' = origin_fault w.
Proof.
  intros H1 H2. run. rewrite H1. simpl.
  oracle w; rewrite ?H2; simpl; eauto 10.
Qed.

(** [set] writes to both tiers under the prefixed key only. *)
Lemma set_frame now key v ttl cm w :
  ∃ cm' w',
    set stringify now key v ttl (cm, w) = (Ok tt, (cm', w'))
    ∧ prefix cm' = prefix cm
    ∧ persianName w' = persianName w
    ∧ origin_fault w' = origin_fault w
    ∧ (∀ j, j ≠ getKey cm key →
            memoryCache cm' !! j = memoryCache cm !! j
            ∧ cacheEntry w' !! j = cacheEntry w !! j).
Proof.
  run. oracle w; eexists _, _; (split; [reflexivity|]); simpl;
    repeat split; intros; rewrite ?lookup_insert_ne by done; done.
Qed.

(** [get], [set] and [delete] keep the prefix of the instance and touch
    no database row other than the one under the prefixed key. *)
Lemma keyed_op_frame (o : @Op V) cm w j :
  keyed o = true →
  (∀ k, j ≠ getKey cm k) →
  prefix (run_op stringify parse o (cm, w)).1 = prefix cm
  ∧ cacheEntry (run_op stringify parse o (cm, w)).2 !! j = cacheEntry w !! j.
Proof.
  intros Hk Hj. destruct o as [now1 now2 key|now key v ttl|key| |]; try done;
    specialize (Hj key); unfold run_op; run.
  - destruct (memory_hit _ _); [done|].
    oracle w; repeat (case_match; simpl in *; simplify_eq); done.
  - oracle w; rewrite ?lookup_insert_ne; done.
  - oracle w; repeat (case_match; simpl in *; simplify_eq);
      simpl; rewrite ?lookup_delete_ne by done; done.
Qed.

Lemma keyed_ops_frame (os : list (@Op V)) cm w j :
  Forall (λ o, keyed o = true) os →
  (∀ k, j ≠ getKey cm k) →
  cacheEntry (run_ops stringify parse os (cm, w)).2 !! j = cacheEntry w !! j.
Proof.
  intros Hos. revert cm w. induction Hos as [|o os Ho _ IH]; intros cm w Hj; [done|].
  change (run_ops stringify parse (o :: os) (cm, w))
    with (run_ops stringify parse os (run_op stringify parse o (cm, w))).
  destruct (keyed_op_frame o cm w j Ho Hj) as [Hp Hrow].
  destruct (run_op stringify parse o (cm, w)) as [cm' w'] eqn:E. simpl in *.
  rewrite IH; [done|].
  intros k. unfold getKey. rewrite Hp. apply Hj.
Qed.

End Laws.

(** Two different prefixes without [:] never give the same prefixed key. *)
Lemma prefixed_key_inj p q k k' :
  colon_free p = true → colon_free q = true →
  p +:+ ":" +:+ k = q +:+ ":" +:+ k' → p = q.
Proof.
  revert q. induction p as [|a p IH]; intros [|b q]; simpl; intros Hp Hq E; try done.
  - injection E as <- _. by rewrite Ascii.eqb_refl in Hq.
  - injection E as -> _. by rewrite Ascii.eqb_refl in Hp.
  - injection E as -> E. f_equal.
    apply andb_prop in Hp as [_ Hp]. apply andb_prop in Hq as [_ Hq]. eauto.
Qed.



(** A TTL of 0 and a read one millisecond before the hour is over. *)
Lemma set_zero_ttl_uses_default_witness :
  ∃ s', (set id 0 "name:ali" "MALE" (Some 0);; get Some 3599999 3599999 "name:ali")
          (Sample.shenasa_cache, Sample.empty_world)
        = (Ok (Some "MALE"), s').
Proof.
  apply (proj2 (proj2 (proj2 (proj2 (set_zero_ttl_uses_default id Some))))). lia.
Defined.



(** A read that the backend fails, on a key whose row is live; a write
    that the backend rejects, on a key that holds an older row, and the
    read that follows. *)
Lemma cache_never_throws_witness :
  get Some 0 0 "name:ali" (Sample.shenasa_cache, MoreSamples.stale_world)
  = (Ok None,
     (Sample.shenasa_cache,
      set_console [("Cache get error:", "PrismaClientError")] MoreSamples.stored_world))
  ∧ ∃ cm' w',
      set_any id 0 "name:ali" "FEMALE" (Some 3600)
        (Sample.shenasa_cache, MoreSamples.stale_world)
      = (Ok tt, (cm', w'))
      ∧ cacheEntry w' = {["shenasa:name:ali" := mkCacheRow "MALE" 3600000]}
      ∧ console w' = [("Cache set error:", "PrismaClientError")]
      ∧ get Some 0 0 "name:ali" (cm', w') = (Ok (Some "FEMALE"), (cm', w')).
Proof.
  split.
  - apply (proj1 (proj2 (proj2 (proj2 (proj2 (proj2 (proj2
             (cache_never_throws id Some)))))))
             0 0 "name:ali" Sample.shenasa_cache MoreSamples.stale_world []);
      reflexivity.
  - apply (proj2 (proj2 (proj2 (proj2 (proj2 (proj2 (proj2
             (cache_never_throws id Some)))))))
             0 0 0 "name:ali" "FEMALE" (Some 3600) 3600
             Sample.shenasa_cache MoreSamples.stale_world []);
      [right; right; by split | lia | lia | reflexivity | lia].
Defined.

(** What does hold of two instances on one database: with different
    non-empty prefixes that contain no [:], no sequence of [get], [set]
    and [delete] calls of one instance changes a row under a key of the
    other. *)
Lemma prefix_isolation_keyed {V} (stringify : V → string) (parse : string → option V)
    (A B : @CacheManager V) p q (os : list (@Op V)) w k :
  prefix A = Some p → prefix B = Some q → p ≠ q →
  truthy p = true → truthy q = true →
  colon_free p = true → colon_free q = true →
  Forall (λ o, keyed o = true) os →
  cacheEntry (run_ops stringify parse os (B, w)).2 !! getKey A k
  = cacheEntry w !! getKey A k.
Proof.
  intros HA HB Hne Tp Tq Cp Cq Hos. apply keyed_ops_frame; [done|].
  intros k' E. unfold getKey in E. rewrite HA, HB in E. simpl in E.
  rewrite Tp, Tq in E. by apply prefixed_key_inj in E.
Qed.

(** Instances [names] and [stats] of the sample: a [set], a [delete] and
    a [get] of [stats] leave the row [names:x] alone. *)
Lemma prefix_isolation_keyed_witness :
  cacheEntry (run_ops id Some
                [OpSet 0 "k" "v" None; OpDelete "k"; OpGet 1 1 "k"]
                (new (Some "stats"), Sample.empty_world)).2
    !! getKey (new (V := string) (Some "names")) "x"
  = cacheEntry Sample.empty_world !! getKey (new (V := string) (Some "names")) "x".
Proof.
  apply (prefix_isolation_keyed id Some (new (Some "names")) (new (Some "stats"))
           "names" "stats");
    try reflexivity; [discriminate | repeat constructor].
Defined.

(** C3, the code at the failing input.  Instance [names] stores a value;
    instance [stats], on the same database, calls [clear]: the row under
    the prefix of [names] is gone, and an instance with the prefix
    [names] whose memory is empty then misses where it hit before. *)
Theorem clear_wipes_other_prefix :
  let names : @CacheManager string := new (Some "names") in
  let stats : @CacheManager string := new (Some "stats") in
  let s1 := (set id 0 "k" "v" (Some 3600) (names, Sample.empty_world)).2 in
  let s2 := (clear (stats, s1.2)).2 in
  cacheEntry s1.2 !! "names:k" = Some (mkCacheRow "v" 3600000)
  ∧ (get Some 1 1 "k" (names, s1.2)).1 = Ok (Some "v")
  ∧ cacheEntry s2.2 !! "names:k" = None
  ∧ (get Some 1 1 "k" (names, s2.2)).1 = Ok None.
Proof. vm_compute. repeat split. Qed.

End CacheTheory.

(** ** Credential validation *)

Module ApiKeyTheory.
Import Prisma ApiKey.
Open Scope Z_scope.

Ltac run :=
  unfold validateApiKey, incrementUsage, deactivateApiKey, createApiKey,
    apiKey_findUnique, apiKey_create, apiKey_update_by_key, apiKey_update_by_id,
    requestLog_count, console_error, call, try_catch, gets, modify,
    throw, mbind, mret, M_bind, M_ret in *;
  simpl in *.

Ltac crunch :=
  repeat (case_match; simpl in *; simplify_eq);
  repeat match goal with
         | u : unit |- _ => destruct u
         | H : negb _ = true |- _ => apply negb_true_iff in H
         | H : negb _ = false |- _ => apply negb_false_iff in H
         | H : (_ <=? _) = true |- _ => apply Z.leb_le in H
         | H : (_ <=? _) = false |- _ => apply Z.leb_gt in H
         end.

(** [validateApiKey] returns; it never throws. *)
Lemma validate_returns now1 now2 key w :
  ∃ r w', validateApiKey now1 now2 key w = (Ok r, w').
Proof. run. crunch; eauto. Qed.

(** A successful validation and what it tells. *)
Lemma validate_valid now1 now2 key w r w' :
  validateApiKey now1 now2 key w = (Ok r, w') →
  isValid r = true →
  ∃ row,
    apiKey w !! key = Some row
    ∧ ak_isActive row = true
    ∧ recent_requests now1 key w < ak_requestLimit row
    ∧ validated r = Some (mkValidated (ak_id row) (ak_tier row)
                            (ak_requestLimit row) (ak_requestCount row) true)
    ∧ apiKey w' !! key = Some (set_lastUsedAt now2 row).
Proof.
  unfold recent_requests. run. intros E Hv.
  crunch; try discriminate;
    match goal with
    | H : apiKey _ !! key = Some ?row |- _ =>
        exists row;
        (split; [done|]); (split; [done|]); (split; [done|]);
        (split; [congruence|]);
        simpl; rewrite lookup_fmap, H
    end;
    simpl; unfold has_id; by rewrite bool_decide_eq_true_2.
Qed.

(** [incrementUsage] returns; it never throws. *)
Lemma incrementUsage_returns now key w :
  ∃ w', incrementUsage now key w = (Ok tt, w').
Proof. run. crunch; eauto. Qed.

(** A validation that is not successful is the bare [{ isValid: false }]. *)
Lemma validate_cases now1 now2 key w r w' :
  validateApiKey now1 now2 key w = (Ok r, w') →
  r = invalid ∨ isValid r = true.
Proof. run. intros E. crunch; auto. Qed.

Lemma validate_invalid now1 now2 key w r w' :
  validateApiKey now1 now2 key w = (Ok r, w') →
  (∀ row, apiKey w !! key = Some row → ak_isActive row = true →
          ak_requestLimit row ≤ recent_requests now1 key w) →
  r = invalid.
Proof.
  intros E Hno. destruct (validate_cases _ _ _ _ _ _ E) as [|Hv]; [done|].
  destruct (validate_valid _ _ _ _ _ _ E Hv) as (row & Hrow & Ha & Hlt & _).
  specialize (Hno row Hrow Ha). lia.
Qed.

(** With a backend that answers, a stored, active credential under its
    cap is accepted. *)
Lemma validate_accepts now1 now2 key w row :
  faults w = [] →
  apiKey w !! key = Some row →
  ak_isActive row = true →
  recent_requests now1 key w < ak_requestLimit row →
  ∃ r w', validateApiKey now1 now2 key w = (Ok r, w') ∧ isValid r = true.
Proof.
  unfold recent_requests. intros Hf Hrow Ha Hlt. run.
  rewrite Hf, Hrow. simpl. rewrite Ha. simpl. rewrite Hf. simpl.
  destruct (Z.leb_spec (ak_requestLimit row)
              (Z.of_nat (length (filter
                 (λ r, recent_for key (now1 - 60 * 60 * 1000) r = true)
                 (requestLog w))))); [lia|].
  rewrite Hf. rewrite bool_decide_eq_true_2; [simpl; eauto|].
  exists key, row. split; [done|]. unfold has_id. by rewrite bool_decide_eq_true_2.
Qed.

(** A [deactivateApiKey] that reports success has switched the key off. *)
Lemma deactivate_deactivated key w w' :
  deactivateApiKey key w = (Ok true, w') → deactivated key w'.
Proof.
  unfold deactivated. run. intros E.
  crunch; try discriminate; simpl; rewrite lookup_insert_eq; eauto.
Qed.

(** With a backend that answers, deactivating a stored key succeeds. *)
Lemma deactivate_succeeds key w row :
  hd false (faults w) = false →
  apiKey w !! key = Some row →
  ∃ w', deactivateApiKey key w = (Ok true, w').
Proof.
  intros Hf Hrow. run.
  destruct (faults w) as [|[|] fs]; simplify_eq; simpl; rewrite Hrow; eauto.
Qed.

(** No call of [ApiKeyManager] switches a key back on. *)
Lemma run_op_deactivated o key w :
  deactivated key w → deactivated key (run_op o w).
Proof.
  unfold deactivated. intros (row & Hrow & Hoff).
  destruct o as [uid rowId name tier|now1 now2 k|now k|k]; unfold run_op; run.
  - crunch; simpl; eauto.
    all: destruct (decide ("sk_" +:+ uid = key)) as [Heq|Hne];
      [rewrite Heq in *; congruence | rewrite lookup_insert_ne by done; eauto].
  - crunch; simpl; eauto.
    all: rewrite lookup_fmap, Hrow; simpl; case_match; eauto.
  - crunch; simpl; eauto.
    all: destruct (decide (k = key)) as [->|Hne];
      [rewrite lookup_insert_eq; simplify_eq; eauto
      |rewrite lookup_insert_ne by done; eauto].
  - crunch; simpl; eauto.
    all: destruct (decide (k = key)) as [->|Hne];
      [rewrite lookup_insert_eq; simplify_eq; eauto
      |rewrite lookup_insert_ne by done; eauto].
Qed.

Lemma run_ops_deactivated os key w :
  deactivated key w → deactivated key (run_ops os w).
Proof.
  revert w. induction os as [|o os IH]; intros w Hd; [done|].
  apply (IH (run_op o w)). by apply run_op_deactivated.
Qed.

(** [validateApiKey] adds nothing to the request log. *)
Lemma validate_keeps_log now1 now2 key w :
  requestLog (validateApiKey now1 now2 key w).2 = requestLog w.
Proof. run. crunch; done. Qed.

(** The hourly count, written out: the logged requests attributed to
    the key whose [createdAt] is not older than one hour. *)
Lemma recent_requests_explicit now1 key w :
  recent_requests now1 key w
  = Z.of_nat (length (filter (λ r, rl_apiKey r = Some key
                                   ∧ now1 - 3600000 ≤ rl_createdAt r)
                             (requestLog w))).
Proof.
  unfold recent_requests. f_equal. f_equal.
  apply list_filter_iff. intros r. unfold recent_for.
  replace (now1 - 60 * 60 * 1000) with (now1 - 3600000) by lia.
  rewrite andb_true_iff, bool_decide_eq_true, Z.leb_le. done.
Qed.

(** C8.  [validateApiKey] always returns, and returns the bare
    [{ isValid: false }] for a key that is not stored, for a stored key
    that is switched off, and for a stored key whose logged requests of
    the last hour, counted by key and time stamp, have reached its
    [requestLimit] (so also when they exceed it).  A successful
    validation is of a stored, active key under its cap, carries its
    tier and [requestLimit], and leaves the row as it was but for
    [lastUsedAt], which is the clock.  After a [deactivateApiKey] that
    reported success, and whatever calls of the manager follow,
    validation fails.  With a backend that answers, a stored active key
    under its cap is accepted. *)
Theorem validate_fails_closed :
  (∀ now1 now2 key w,
     ∃ r w',
       validateApiKey now1 now2 key w = (Ok r, w')
       ∧ (apiKey w !! key = None → r = mkValidation false None)
       ∧ (∀ row, apiKey w !! key = Some row → ak_isActive row = false →
                 r = mkValidation false None)
       ∧ (∀ row, apiKey w !! key = Some row →
                 ak_requestLimit row
                 ≤ Z.of_nat (length (filter (λ r, rl_apiKey r = Some key
                                                  ∧ now1 - 3600000 ≤ rl_createdAt r)
                                            (requestLog w))) →
                 r = mkValidation false None)
       ∧ (isValid r = true →
          ∃ row,
            apiKey w !! key = Some row
            ∧ ak_isActive row = true
            ∧ Z.of_nat (length (filter (λ r, rl_apiKey r = Some key
                                             ∧ now1 - 3600000 ≤ rl_createdAt r)
                                       (requestLog w)))
              < ak_requestLimit row
            ∧ validated r = Some (mkValidated (ak_id row) (ak_tier row)
                                    (ak_requestLimit row) (ak_requestCount row) true)
            ∧ apiKey w' !! key
              = Some (mkApiKeyRow (ak_id row) (ak_name row) (ak_tier row)
                        (ak_requestLimit row) (ak_requestCount row) true
                        (Some now2))))
  ∧ (∀ key w w1 os now1 now2,
       deactivateApiKey key w = (Ok true, w1) →
       ∃ w2, validateApiKey now1 now2 key (run_ops os w1)
             = (Ok (mkValidation false None), w2))
  ∧ (∀ now1 now2 key w row,
       faults w = [] →
       apiKey w !! key = Some row →
       ak_isActive row = true →
       Z.of_nat (length (filter (λ r, rl_apiKey r = Some key
                                      ∧ now1 - 3600000 ≤ rl_createdAt r)
                                (requestLog w)))
       < ak_requestLimit row →
       ∃ w',
         validateApiKey now1 now2 key w
         = (Ok (mkValidation true
                  (Some (mkValidated (ak_id row) (ak_tier row) (ak_requestLimit row)
                           (ak_requestCount row) true))), w')
         ∧ apiKey w' !! key
           = Some (mkApiKeyRow (ak_id row) (ak_name row) (ak_tier row)
                     (ak_requestLimit row) (ak_requestCount row) true (Some now2))
         ∧ requestLog w' = requestLog w).
Proof.
  split; [|split].
  - intros. destruct (validate_returns now1 now2 key w) as (r & w' & E).
    exists r, w'. split; [done|]. rewrite <- recent_requests_explicit. repeat split.
    + intros Hnone. apply (validate_invalid _ _ _ _ _ _ E). congruence.
    + intros row Hrow Hoff. apply (validate_invalid _ _ _ _ _ _ E). congruence.
    + intros row Hrow Hcap. apply (validate_invalid _ _ _ _ _ _ E).
      intros row' Hrow' _. congruence.
    + intros Hv. destruct (validate_valid _ _ _ _ _ _ E Hv)
        as (row & Hrow & Ha & Hlt & Hval & Hlast).
      exists row. repeat (split; [done|]).
      rewrite Hlast. unfold set_lastUsedAt. by rewrite Ha.
  - intros * Hd. apply deactivate_deactivated in Hd.
    apply (run_ops_deactivated os) in Hd. destruct Hd as (row & Hrow & Hoff).
    destruct (validate_returns now1 now2 key (run_ops os w1)) as (r & w2 & E).
    exists w2. rewrite E. f_equal. f_equal.
    apply (validate_invalid _ _ _ _ _ _ E). congruence.
  - intros * Hf Hrow Ha Hlt. rewrite <- recent_requests_explicit in Hlt.
    destruct (validate_accepts now1 now2 key w row Hf Hrow Ha Hlt) as (r & w' & E & Hv).
    destruct (validate_valid _ _ _ _ _ _ E Hv) as (row' & Hrow' & _ & _ & Hval & Hlast).
    rewrite Hrow in Hrow'. injection Hrow' as <-.
    exists w'. split; [|split].
    + rewrite E. destruct r as [v o]. simpl in *. congruence.
    + rewrite Hlast. unfold set_lastUsedAt. by rewrite Ha.
    + change w' with (Ok r, w').2. rewrite <- E. apply validate_keeps_log.
Qed.

(** The BASIC sample credential is switched off, used once more, and
    then fails validation; the sample credential with a limit of 2 and
    one request logged in the last hour validates, which stamps its row;
    and it fails validation for a clock at which two requests of the
    last hour are logged. *)
Lemma validate_fails_closed_witness :
  (∃ w2,
     validateApiKey 5000 5000 "sk_basic"
       (run_ops [OpIncrementUsage 10 "sk_basic"]
          (deactivateApiKey "sk_basic" Sample.basic_world).2)
     = (Ok (mkValidation false None), w2))
  ∧ (∃ w',
       validateApiKey 5000 6000 "sk_one" MoreSamples.one_left_world
       = (Ok (mkValidation true (Some (mkValidated "id_one" FREE 2 1 true))), w')
       ∧ apiKey w' !! "sk_one"
         = Some (mkApiKeyRow "id_one" "Solo" FREE 2 1 true (Some 6000))
       ∧ requestLog w' = requestLog MoreSamples.one_left_world)
  ∧ (∃ w',
       validateApiKey 5000 6000 "sk_one" MoreSamples.two_logged_world
       = (Ok (mkValidation false None), w')).
Proof.
  split; [|split].
  - apply (proj1 (proj2 validate_fails_closed) "sk_basic" Sample.basic_world).
    vm_compute. reflexivity.
  - apply (proj2 (proj2 validate_fails_closed) 5000 6000 "sk_one"
             MoreSamples.one_left_world MoreSamples.one_left_row);
      reflexivity.
  - destruct (proj1 validate_fails_closed 5000 6000 "sk_one"
                MoreSamples.two_logged_world) as (r & w' & E & _ & _ & Hcap & _).
    exists w'. rewrite E.
    rewrite (Hcap MoreSamples.one_left_row eq_refl); [done|].
    vm_compute. discriminate.
Defined.

End ApiKeyTheory.

(** ** Credential resolution in the authentication middleware *)

Module AuthTheory.
Import Prisma RateLimiter ApiKey App.
Open Scope Z_scope.

Ltac run :=
  unfold authMiddleware, try_catch, gets, modify, throw,
    mbind, mret, M_bind, M_ret in *;
  cbv beta iota zeta delta [fst snd truthy_opt from_option Datatypes.id] in *.

(** Without a truthy [x-api-key] header the request goes on as FREE and
    the credential store is not consulted. *)
Lemma auth_no_key now1 now2 now3 c w :
  truthy_opt (x_api_key (req c)) = false →
  authMiddleware now1 now2 now3 (c, w) = (Ok Next, (set_rateLimitTier FREE c, w)).
Proof. intros Hk. run. by rewrite Hk. Qed.

(** A presented key whose validation fails is answered 401; the tier
    variable is not set and [next()] is not reached. *)
Lemma auth_invalid_key now1 now2 now3 c w k w' :
  x_api_key (req c) = Some k → truthy k = true →
  validateApiKey now1 now2 k w = (Ok invalid, w') →
  authMiddleware now1 now2 now3 (c, w)
  = (Ok (Respond (Json 40101 "Invalid or expired API key" 401)), (c, w')).
Proof.
  intros Hk Ht E. run. rewrite Hk. cbv beta iota zeta delta [fst snd truthy_opt from_option Datatypes.id].
  rewrite Ht, E. reflexivity.
Qed.

(** A presented key that validates goes on with the tier of its row. *)
Lemma auth_valid_key now1 now2 now3 c w k v w' :
  x_api_key (req c) = Some k → truthy k = true →
  validateApiKey now1 now2 k w = (Ok (mkValidation true (Some v)), w') →
  ∃ w'',
    authMiddleware now1 now2 now3 (c, w)
    = (Ok Next, (set_rateLimitTier (tier v) (RateLimiter.set_apiKey k c), w'')).
Proof.
  intros Hk Ht E. run. rewrite Hk. cbv beta iota zeta delta [fst snd truthy_opt from_option Datatypes.id].
  rewrite Ht, E.
  cbv beta iota zeta delta [fst snd negb isValid validated].
  destruct (ApiKeyTheory.incrementUsage_returns now3 k w') as [w'' ->]. eauto.
Qed.

(** C7.  A request whose [x-api-key] header carries a non-empty key that
    is unknown, switched off or at its hourly cap is answered 401: the
    tier is not set and the chain does not go on.  A request goes on
    either without such a header, as FREE, or with a stored, active key
    under its cap, with the tier of that key. *)
Theorem invalid_key_is_rejected :
  (∀ now1 now2 now3 c w k,
     x_api_key (req c) = Some k → truthy k = true →
     (apiKey w !! k = None
      ∨ (∃ row, apiKey w !! k = Some row ∧ ak_isActive row = false)
      ∨ (∃ row, apiKey w !! k = Some row
                ∧ ak_requestLimit row ≤ recent_requests now1 k w)) →
     ∃ w',
       authMiddleware now1 now2 now3 (c, w)
       = (Ok (Respond (Json 40101 "Invalid or expired API key" 401)), (c, w')))
  ∧ (∀ now1 now2 now3 c w c' w',
       authMiddleware now1 now2 now3 (c, w) = (Ok Next, (c', w')) →
       (truthy_opt (x_api_key (req c)) = false
        ∧ c' = set_rateLimitTier FREE c ∧ w' = w)
       ∨ (∃ k row,
            x_api_key (req c) = Some k ∧ truthy k = true
            ∧ apiKey w !! k = Some row ∧ ak_isActive row = true
            ∧ recent_requests now1 k w < ak_requestLimit row
            ∧ var_rateLimitTier c' = Some (ak_tier row))).
Proof.
  split.
  - intros * Hk Ht Hbad.
    destruct (ApiKeyTheory.validate_returns now1 now2 k w) as (r & w' & E).
    assert (r = invalid) as ->.
    { apply (ApiKeyTheory.validate_invalid _ _ _ _ _ _ E).
      intros row Hrow Ha.
      destruct Hbad as [Hn|[(row' & Hrow' & Hoff)|(row' & Hrow' & Hcap)]];
        simplify_eq; congruence. }
    exists w'. by apply (auth_invalid_key now1 now2 now3 c w k w').
  - intros * E.
    destruct (truthy_opt (x_api_key (req c))) eqn:Hk.
    + right. destruct (x_api_key (req c)) as [k|] eqn:Hh; [|done]. simpl in Hk.
      destruct (ApiKeyTheory.validate_returns now1 now2 k w) as (r & w1 & Ev).
      destruct (ApiKeyTheory.validate_cases _ _ _ _ _ _ Ev) as [->|Hv].
      * rewrite (auth_invalid_key _ _ _ _ _ _ _ Hh Hk Ev) in E. discriminate.
      * destruct (ApiKeyTheory.validate_valid _ _ _ _ _ _ Ev Hv)
          as (row & Hrow & Ha & Hlt & Hval & _).
        destruct r as [b o]. simpl in *. subst b o.
        destruct (auth_valid_key _ _ now3 c _ _ _ _ Hh Hk Ev) as [w'' E'].
        rewrite E' in E. injection E as <- <-.
        exists k, row. auto 10.
    + left. rewrite (auth_no_key _ _ _ _ _ Hk) in E. by injection E as <- <-.
Qed.

(** An unknown key on the sample world is rejected. *)
Lemma invalid_key_is_rejected_witness :
  ∃ w',
    authMiddleware 1000 1000 1000
      (mkContext (mkRequest (Some "sk_unknown") None None) None None None ∅,
       Sample.basic_world)
    = (Ok (Respond (Json 40101 "Invalid or expired API key" 401)),
       (mkContext (mkRequest (Some "sk_unknown") None None) None None None ∅, w')).
Proof.
  apply (proj1 invalid_key_is_rejected 1000 1000 1000 _ _ "sk_unknown");
    [reflexivity | reflexivity | left; vm_compute; reflexivity].
Defined.

End AuthTheory.

(** ** The batch endpoint *)

Module BatchTheory.
Import Prisma Cache Batch.
Open Scope Z_scope.

Lemma append_inj_r (s a b : string) : s +:+ a = s +:+ b → a = b.
Proof. induction s as [|c s IH]; simpl; [done|]. intros [= E]. auto. Qed.

(** One instance maps different keys to different prefixed keys. *)
Lemma getKey_inj {V} (cm : @CacheManager V) k k' :
  getKey cm k = getKey cm k' → k = k'.
Proof.
  unfold getKey. destruct (truthy_opt (prefix cm)); [|done].
  intros E. apply append_inj_r in E. by apply append_inj_r in E.
Qed.

Lemma count_errors_zero errorCount results :
  count_errors errorCount results
  = errorCount + Z.of_nat (zero_confidence results).
Proof.
  unfold count_errors, zero_confidence. revert errorCount.
  induction results as [|r rs IH]; intros ec; simpl; [lia|].
  rewrite IH, filter_cons. destruct (Z.eqb_spec (confidence r) 0).
  - rewrite decide_True by done. simpl. lia.
  - rewrite decide_False by done. lia.
Qed.

Lemma slice_length {A} (i : nat) (l : list A) :
  (length (slice i (i + batchSize) l) ≤ 10)%nat.
Proof. unfold slice, batchSize. rewrite length_take. lia. Qed.

Section Handler.
Context (stringify : CachedName → string) (parse : string → option CachedName).
Context (clock : nat → Z * Z * Z) (includePopularity : bool).
Context (schedules : nat → list nat).

Abbreviation processName := (Batch.processName stringify parse clock includePopularity).
Abbreviation start := (Batch.start clock includePopularity).
Abbreviation resume := (Batch.resume stringify parse clock includePopularity).
Abbreviation starts := (Batch.starts clock includePopularity).
Abbreviation resume_at := (Batch.resume_at stringify parse clock includePopularity).
Abbreviation run_schedule :=
  (Batch.run_schedule stringify parse clock includePopularity).
Abbreviation resume_all := (Batch.resume_all stringify parse clock includePopularity).
Abbreviation promise_all := (Batch.promise_all stringify parse clock includePopularity).
Abbreviation batch_loop :=
  (Batch.batch_loop stringify parse clock includePopularity schedules).
Abbreviation batchHandler :=
  (Batch.batchHandler stringify parse clock includePopularity schedules).
Abbreviation run_sub_batches :=
  (Batch.run_sub_batches stringify parse clock includePopularity schedules).

Ltac enter :=
  unfold Batch.processName;
  match goal with |- context [clock ?i] => destruct (clock i) as [[now1 now2] now3] end;
  unfold try_catch; unfold mbind at 1, M_bind at 1.

(** An item whose origin lookup throws, and which the cache does not
    hold, becomes the zero-confidence result; the cache is left alone. *)
Lemma processName_fails idx n cm w :
  origin_fault w n = true → uncached cm w n →
  ∃ w',
    processName idx n (cm, w) = (Ok (failed_result includePopularity n), (cm, w'))
    ∧ cacheEntry w' = cacheEntry w
    ∧ persianName w' = persianName w
    ∧ origin_fault w' = origin_fault w.
Proof.
  intros Hf [H1 H2]. enter.
  destruct (CacheTheory.get_absent parse now1 now2 ("name:" +:+ n) cm w H1 H2)
    as (w' & E & Hc & Hp & Ho).
  rewrite E. unfold mbind, M_bind, liftW, persianName_findFirst. simpl.
  rewrite Ho, Hf. simpl. eauto.
Qed.

(** *** The steps of a task *)

Ltac steps :=
  unfold Batch.start, Batch.resume, Batch.cached_result, JSON_parse, modify_memory,
    liftW, cacheEntry_findUnique, cacheEntry_upsert, persianName_findFirst,
    console_error, call, try_catch, gets, modify, throw, mbind, mret, M_bind, M_ret
    in *;
  simpl in *.

(** [start] touches nothing: it answers from a live memory entry, or
    leaves [findUnique] pending. *)
Lemma start_cases idx n cm w :
  (memory_hit (clock idx).1.1 (memoryCache cm !! getKey cm ("name:" +:+ n)) = None
   ∧ start idx n (cm, w) = (Ok (AwaitFindUnique idx n), (cm, w)))
  ∨ (∃ cached,
       memory_hit (clock idx).1.1 (memoryCache cm !! getKey cm ("name:" +:+ n))
       = Some cached
       ∧ start idx n (cm, w)
         = (Ok (Returned (mkResult n (Some (c_gender cached)) (c_enName cached)
                            (if includePopularity then c_popularity cached else None)
                            100)), (cm, w))).
Proof.
  steps. destruct (clock idx) as [[now1 now2] now3]. simpl.
  destruct (memory_hit now1 _) as [cached|]; [right|left]; eauto.
Qed.

(** The completion of [findUnique]: the task goes on to [findFirst]
    with the cache as it was, or answers from a row of the table, which
    it copies to memory. *)
Lemma resume_find_unique idx n cm w :
  ∃ t' cm' w',
    resume (AwaitFindUnique idx n) (cm, w) = (Ok t', (cm', w'))
    ∧ prefix cm' = prefix cm
    ∧ cacheEntry w' = cacheEntry w
    ∧ persianName w' = persianName w
    ∧ origin_fault w' = origin_fault w
    ∧ ((t' = AwaitFindFirst idx n ∧ cm' = cm)
       ∨ (∃ cached row,
            t' = Returned (mkResult n (Some (c_gender cached)) (c_enName cached)
                             (if includePopularity then c_popularity cached else None)
                             100)
            ∧ cacheEntry w !! getKey cm ("name:" +:+ n) = Some row
            ∧ ∀ j, j ≠ getKey cm ("name:" +:+ n) →
                   memoryCache cm' !! j = memoryCache cm !! j)).
Proof.
  steps. destruct (clock idx) as [[now1 now2] now3]. simpl.
  destruct (faults w) as [|[|] fs]; simpl;
    repeat (case_match; simpl in *; simplify_eq);
    eexists _, _, _; (split; [reflexivity|]); simpl;
    repeat (split; [done|]);
    first [ by left
          | right; eexists _, _; split; [reflexivity|]; split; [done|];
            intros; by rewrite lookup_insert_ne ].
Qed.

(** The completion of [findFirst]. *)
Lemma resume_find_first idx n cm w :
  (origin_fault w n = true
   ∧ resume (AwaitFindFirst idx n) (cm, w)
     = (Ok (Returned (mkResult n None None
                        (if includePopularity then Some 0 else None) 0)), (cm, w)))
  ∨ (origin_fault w n = false
     ∧ find (λ r, String.eqb (nr_name r) n) (persianName w) = None
     ∧ resume (AwaitFindFirst idx n) (cm, w)
       = (Ok (Returned (mkResult n None None
                          (if includePopularity then Some 0 else None) 0)), (cm, w)))
  ∨ (∃ row result value,
       origin_fault w n = false
       ∧ find (λ r, String.eqb (nr_name r) n) (persianName w) = Some row
       ∧ resume (AwaitFindFirst idx n) (cm, w)
         = (Ok (AwaitUpsert (getKey cm ("name:" +:+ n))
                  (stringify value) ((clock idx).2 + 3600000) result),
            (mkCache (<[getKey cm ("name:" +:+ n)
                        := mkItem value ((clock idx).2 + 3600000)]> (memoryCache cm))
               (prefix cm), w))
       ∧ name result = n ∧ confidence result = 95).
Proof.
  steps. destruct (clock idx) as [[now1 now2] now3]. simpl.
  destruct (origin_fault w n); [left; by unfold failed_result|right].
  destruct (find _ _) as [row|]; [right|left; by unfold failed_result].
  unfold effective_ttl. simpl.
  replace (now3 + 3600 * 1000) with (now3 + 3600000) by lia.
  eexists _, _, _. split; [done|]. split; [done|]. by split.
Qed.

(** The completion of [upsert]: the task returns its result, whatever
    the backend did; only the row under its key can have changed. *)
Lemma resume_upsert k v e r cm w :
  ∃ w',
    resume (AwaitUpsert k v e r) (cm, w) = (Ok (Returned r), (cm, w'))
    ∧ persianName w' = persianName w
    ∧ origin_fault w' = origin_fault w
    ∧ ∀ j, j ≠ k → cacheEntry w' !! j = cacheEntry w !! j.
Proof.
  steps. destruct (faults w) as [|[|] fs]; simpl;
    eexists; (split; [reflexivity|]); simpl; repeat split; try done;
    intros; by rewrite lookup_insert_ne.
Qed.

(** Every completion returns, and uses up one of the calls the task may
    still make. *)
Lemma resume_progress t s :
  ∃ t' s', resume t s = (Ok t', s') ∧ (rank t' ≤ pred (rank t))%nat.
Proof.
  destruct s as [cm w]. destruct t as [idx n|idx n|k v e r|r].
  - destruct (resume_find_unique idx n cm w)
      as (t' & cm' & w' & E & _ & _ & _ & _ & [[-> _]|(c & row & -> & _)]);
      rewrite E; eexists _, _; (split; [reflexivity|]); simpl; lia.
  - destruct (resume_find_first idx n cm w)
      as [[_ E]|[(_ & _ & E)|(row & r & v & _ & _ & E & _)]];
      rewrite E; eexists _, _; (split; [reflexivity|]); simpl; lia.
  - destruct (resume_upsert k v e r cm w) as (w' & E & _).
    rewrite E. eexists _, _. split; [reflexivity|]. simpl. lia.
  - eexists _, _. split; [reflexivity|]. simpl. lia.
Qed.

(** The steps of a task, taken one after the other, are
    [processName]. *)
Lemma settle_single idx n s :
  (t ← start idx n;
   pool ← resume_all [t]; pool ← resume_all pool; pool ← resume_all pool;
   Batch.collect pool) s
  = (r ← processName idx n; mret [r]) s.
Proof.
  destruct s as [cm w].
  destruct (clock idx) as [[now1 now2] now3] eqn:Hc.
  unfold Batch.processName, Batch.start, Batch.resume_all, get. rewrite Hc.
  unfold Batch.cached_result, gets, try_catch, mbind, M_bind, mret, M_ret. simpl.
  destruct (memory_hit now1 (memoryCache cm !! getKey cm ("name:" +:+ n)))
    as [c|] eqn:Hm; simpl; [reflexivity|].
  rewrite Hc.
  unfold liftW, cacheEntry_findUnique, call, JSON_parse, modify_memory, console_error,
    gets, modify, throw, try_catch, mbind, M_bind, mret, M_ret. simpl.
  destruct (faults w) as [|[|] fs] eqn:Hf; simpl;
    try (destruct (cacheEntry w !! getKey cm ("name:" +:+ n)) as [row|] eqn:Hrow; simpl;
         [destruct (now2 <? row_expiresAt row) eqn:Hlive; simpl;
          [destruct (parse (row_value row)) as [v|] eqn:Hp; simpl|]|]).
  all: try reflexivity.
  all: rewrite ?Hc.
  all: unfold persianName_findFirst, set, liftW, cacheEntry_upsert, call, modify_memory,
         console_error, gets, modify, throw, try_catch, mbind, M_bind, mret, M_ret;
       simpl.
  all: destruct (origin_fault w n) eqn:Ho; simpl; try reflexivity.
  all: destruct (find (λ r, String.eqb (nr_name r) n) (persianName w)) as [data|];
         simpl; try reflexivity.
  all: unfold liftW, cacheEntry_upsert, call, console_error, gets, modify, throw,
         try_catch, mbind, M_bind, mret, M_ret;
       simpl; rewrite ?Hf; simpl; try reflexivity.
  all: destruct fs as [|[|] ?]; reflexivity.
Qed.

Lemma resume_returned r s : resume (Returned r) s = (Ok (Returned r), s).
Proof. reflexivity. Qed.

(** A completion that comes before the three rounds changes nothing:
    a task has at most three Prisma calls. *)
Lemma settle_absorbs t s :
  (t' ← resume t;
   pool ← resume_all [t']; pool ← resume_all pool; pool ← resume_all pool;
   Batch.collect pool) s
  = (pool ← resume_all [t]; pool ← resume_all pool; pool ← resume_all pool;
     Batch.collect pool) s.
Proof.
  unfold Batch.resume_all, mbind, M_bind, mret, M_ret.
  destruct (resume_progress t s) as (t1 & s1 & E1 & H1). rewrite E1.
  destruct (resume_progress t1 s1) as (t2 & s2 & E2 & H2). rewrite E2.
  destruct (resume_progress t2 s2) as (t3 & s3 & E3 & H3). rewrite E3.
  assert (rank t ≤ 3)%nat as Ht by (destruct t; simpl; lia).
  destruct t3 as [| | |r]; simpl in *; try lia.
  reflexivity.
Qed.

(** With one name in the sub-batch the schedule does not matter. *)
Lemma run_schedule_single schedule : ∀ t s,
  (pool ← run_schedule schedule [t];
   pool ← resume_all pool; pool ← resume_all pool; pool ← resume_all pool;
   Batch.collect pool) s
  = (pool ← resume_all [t]; pool ← resume_all pool; pool ← resume_all pool;
     Batch.collect pool) s.
Proof.
  induction schedule as [|k schedule IH]; intros t s.
  - reflexivity.
  - destruct k as [|k].
    + rewrite <- settle_absorbs.
      assert (∀ K : list Task → M St (list BatchResult),
                (run_schedule (0%nat :: schedule) [t] ≫= K) s
                = (t' ← resume t; run_schedule schedule [t'] ≫= K) s) as ->.
      { intros K. simpl. unfold Batch.resume_at. simpl.
        unfold mbind, M_bind, mret, M_ret.
        by destruct (resume t s) as [[t'|e] s']. }
      unfold mbind at 1 6, M_bind at 1 6.
      destruct (resume t s) as [[t'|e] s']; [|reflexivity].
      apply IH.
    + apply IH.
Qed.

(** A sub-batch of one name is one call of [processName], whatever the
    schedule. *)
Lemma promise_all_single schedule idx n s :
  promise_all schedule idx [n] s = (r ← processName idx n; mret [r]) s.
Proof.
  rewrite <- settle_single. unfold Batch.promise_all.
  unfold mbind at 1 6, M_bind at 1 6. simpl.
  unfold mbind at 1 2, M_bind at 1 2.
  destruct (start idx n s) as [[t|e] s']; [|done].
  apply run_schedule_single.
Qed.


(** *** [Promise.all] and the loop, for any invariant of the steps *)

Section Invariant.
Context (Inv : @St CachedName → Prop) (Good : string → Prop)
        (TInv : string → Task → Prop) (Q : string → BatchResult → Prop).
Hypothesis start_ok : ∀ idx n s,
  Inv s → Good n → ∃ t s', start idx n s = (Ok t, s') ∧ TInv n t ∧ Inv s'.
Hypothesis resume_ok : ∀ n t s t' s',
  Inv s → TInv n t → resume t s = (Ok t', s') → TInv n t' ∧ Inv s'.
Hypothesis returned_ok : ∀ n r, TInv n (Returned r) → Q n r.

Lemma starts_inv batch : ∀ idx s,
  Inv s → Forall Good batch →
  ∃ pool s', starts idx batch s = (Ok pool, s') ∧ Forall2 TInv batch pool ∧ Inv s'.
Proof.
  induction batch as [|n batch IH]; intros idx s HI HG; simpl.
  - exists [], s. by repeat split.
  - apply Forall_cons in HG as [Hn HG].
    destruct (start_ok idx n s HI Hn) as (t & s1 & E & Ht & HI1).
    destruct (IH (S idx) s1 HI1 HG) as (pool & s2 & E2 & Hp & HI2).
    exists (t :: pool), s2. unfold mbind, M_bind. rewrite E, E2.
    split; [done|]. split; [by constructor|done].
Qed.

Lemma resume_at_inv k batch pool s :
  Inv s → Forall2 TInv batch pool →
  ∃ pool' s', resume_at k pool s = (Ok pool', s') ∧ Forall2 TInv batch pool' ∧ Inv s'.
Proof.
  intros HI HP. unfold Batch.resume_at.
  destruct (pool !! k) as [t|] eqn:Ek; [|by exists pool, s].
  destruct (Forall2_lookup_r _ _ _ _ _ HP Ek) as (n & En & Ht).
  destruct (resume_progress t s) as (t' & s' & E & _).
  destruct (resume_ok n t s t' s' HI Ht E) as [Ht' HI'].
  exists (<[k := t']> pool), s'. unfold mbind, M_bind. rewrite E.
  split; [done|]. split; [|done].
  rewrite <- (list_insert_id batch k n En). by apply Forall2_insert.
Qed.

Lemma run_schedule_inv schedule : ∀ batch pool s,
  Inv s → Forall2 TInv batch pool →
  ∃ pool' s',
    run_schedule schedule pool s = (Ok pool', s') ∧ Forall2 TInv batch pool' ∧ Inv s'.
Proof.
  induction schedule as [|k schedule IH]; intros batch pool s HI HP; simpl.
  - by exists pool, s.
  - destruct (resume_at_inv k batch pool s HI HP) as (pool1 & s1 & E & HP1 & HI1).
    unfold mbind, M_bind. rewrite E. by apply IH.
Qed.

Lemma resume_all_inv (m : nat) batch : ∀ pool s,
  Inv s → Forall2 TInv batch pool → Forall (λ t, (rank t ≤ m)%nat) pool →
  ∃ pool' s',
    resume_all pool s = (Ok pool', s') ∧ Forall2 TInv batch pool' ∧ Inv s'
    ∧ Forall (λ t, (rank t ≤ pred m)%nat) pool'.
Proof.
  induction batch as [|n batch IH]; intros pool s HI HP Hm.
  - apply Forall2_nil_inv_l in HP as ->. by exists [], s.
  - apply Forall2_cons_inv_l in HP as (t & pool0 & Ht & HP & ->).
    apply Forall_cons in Hm as [Hmt Hm]. simpl.
    destruct (resume_progress t s) as (t' & s1 & E & Hr).
    destruct (resume_ok n t s t' s1 HI Ht E) as [Ht' HI1].
    destruct (IH pool0 s1 HI1 HP Hm) as (pool' & s2 & E2 & HP2 & HI2 & Hm2).
    exists (t' :: pool'), s2. unfold mbind, M_bind. rewrite E, E2.
    split; [done|]. split; [by constructor|]. split; [done|].
    constructor; [lia|done].
Qed.

Lemma collect_inv batch : ∀ pool (s : @St CachedName),
  Forall2 TInv batch pool → Forall (λ t, (rank t ≤ 0)%nat) pool →
  ∃ rs, collect pool s = (Ok rs, s) ∧ Forall2 Q batch rs.
Proof.
  induction batch as [|n batch IH]; intros pool s HP Hm.
  - apply Forall2_nil_inv_l in HP as ->. by exists [].
  - apply Forall2_cons_inv_l in HP as (t & pool0 & Ht & HP & ->).
    apply Forall_cons in Hm as [Hmt Hm].
    destruct t as [| | |r]; simpl in Hmt; try lia.
    destruct (IH pool0 s HP Hm) as (rs & E & HQ).
    exists (r :: rs). simpl. unfold mbind, M_bind. rewrite E.
    split; [done|]. constructor; [by apply returned_ok|done].
Qed.

Lemma rank_le_3 pool : Forall (λ t, (rank t ≤ 3)%nat) pool.
Proof. apply Forall_forall. intros [| | |] _; simpl; lia. Qed.

(** Whatever the schedule, [Promise.all] resolves, with one result per
    name in the order of the batch. *)
Lemma promise_all_inv schedule batch idx s :
  Inv s → Forall Good batch →
  ∃ rs s',
    promise_all schedule idx batch s = (Ok rs, s') ∧ Forall2 Q batch rs ∧ Inv s'.
Proof.
  intros HI HG. unfold Batch.promise_all.
  destruct (starts_inv batch idx s HI HG) as (p0 & s0 & E0 & HP0 & HI0).
  destruct (run_schedule_inv schedule batch p0 s0 HI0 HP0) as (p1 & s1 & E1 & HP1 & HI1).
  destruct (resume_all_inv 3 batch p1 s1 HI1 HP1 (rank_le_3 p1))
    as (p2 & s2 & E2 & HP2 & HI2 & Hm2).
  destruct (resume_all_inv 2 batch p2 s2 HI2 HP2 Hm2)
    as (p3 & s3 & E3 & HP3 & HI3 & Hm3).
  destruct (resume_all_inv 1 batch p3 s3 HI3 HP3 Hm3)
    as (p4 & s4 & E4 & HP4 & HI4 & Hm4).
  destruct (collect_inv batch p4 s4 HP4 Hm4) as (rs & E5 & HQ).
  exists rs, s4. unfold mbind, M_bind. rewrite E0, E1, E2, E3, E4, E5. done.
Qed.

Lemma batch_loop_inv fuel i names acc ec s :
  Inv s → Forall Good names → (length names ≤ i + fuel * 10)%nat →
  ∃ rs s',
    batch_loop fuel i names acc ec s = (Ok (acc ++ rs, count_errors ec rs), s')
    ∧ Forall2 Q (drop i names) rs ∧ Inv s'.
Proof.
  intros HI HG. revert i acc ec s HI.
  induction fuel as [|fuel IH]; intros i acc ec s HI Hlen; simpl.
  - exists [], s. rewrite app_nil_r, drop_ge by lia. by repeat split.
  - destruct (Nat.ltb_spec i (length names)) as [Hlt|Hge].
    + unfold slice, batchSize. replace (i + 10 - i)%nat with 10%nat by lia.
      destruct (promise_all_inv (schedules i) (take 10 (drop i names)) i s HI)
        as (brs & s1 & E1 & HQ1 & HI1).
      { by apply Forall_take, Forall_drop. }
      unfold mbind, M_bind. rewrite E1.
      destruct (IH (i + 10)%nat (acc ++ brs) (count_errors ec brs) s1 HI1)
        as (rs & s2 & E2 & HQ2 & HI2); [lia|].
      exists (brs ++ rs), s2. rewrite E2. split; [|split; [|done]].
      * rewrite <- app_assoc. unfold count_errors. by rewrite foldl_app.
      * rewrite <- (take_drop 10 (drop i names)), drop_drop.
        by apply Forall2_app.
    + exists [], s. rewrite app_nil_r, drop_ge by lia. by repeat split.
Qed.

(** A paid tier and between 1 and 100 names: the handler answers with
    one result per name, in order, and with the number of
    zero-confidence results as [errorCount]. *)
Lemma batchHandler_inv tier names s :
  tier ≠ FREE → (1 ≤ length names ≤ 100)%nat →
  Inv s → Forall Good names →
  ∃ rs s',
    batchHandler tier names s
    = (Ok (BatchOk rs (Z.of_nat (length names)) (Z.of_nat (zero_confidence rs))), s')
    ∧ Forall2 Q names rs ∧ Inv s'.
Proof.
  intros Ht [Hlo Hhi] HI HG. unfold Batch.batchHandler, try_catch.
  rewrite bool_decide_eq_false_2 by done.
  destruct (Nat.eqb_spec (length names) 0); [lia|].
  destruct (Nat.ltb_spec 100 (length names)); [lia|].
  destruct (batch_loop_inv (length names) 0 names [] 0 s HI HG)
    as (rs & s' & E & HQ & HI'); [lia|].
  unfold mbind, M_bind. rewrite E. simpl.
  exists rs, s'. rewrite count_errors_zero. by repeat split.
Qed.

End Invariant.

Lemma zero_confidence_count (fault : string → bool) names rs :
  Forall2 (λ n r, name r = n ∧ (confidence r = 0 ↔ fault n = true)) names rs →
  zero_confidence rs = length (filter (λ n, fault n = true) names).
Proof.
  unfold zero_confidence. induction 1 as [|n r names rs [_ Hc] _ IH]; [done|].
  rewrite !filter_cons. destruct (decide (confidence r = 0)) as [Hz|Hz].
  - rewrite decide_True by tauto. simpl. by rewrite IH.
  - rewrite decide_False by tauto. done.
Qed.

(** Whatever the schedules, a paid tier and 1 to 100 names get one
    result per name, in the order of the names. *)
Lemma batchHandler_shape tier names s :
  tier ≠ FREE → (1 ≤ length names ≤ 100)%nat →
  ∃ rs s',
    batchHandler tier names s
    = (Ok (BatchOk rs (Z.of_nat (length names)) (Z.of_nat (zero_confidence rs))), s')
    ∧ map name rs = names.
Proof.
  intros Ht Hlen.
  destruct (batchHandler_inv (λ _, True) (λ _, True)
              (λ n t, match t with
                      | AwaitFindUnique _ m | AwaitFindFirst _ m => m = n
                      | AwaitUpsert _ _ _ r | Returned r => name r = n
                      end)
              (λ n r, name r = n))
    with (tier := tier) (names := names) (s := s)
    as (rs & s' & E & HQ & _); try done.
  - intros idx n [cm w] _ _.
    destruct (start_cases idx n cm w) as [[_ E]|(c & _ & E)]; rewrite E;
      by eexists _, _.
  - intros n t [cm w] t' s' _ Ht' E. split; [|done].
    destruct t as [idx m|idx m|k v e r|r]; subst.
    + destruct (resume_find_unique idx n cm w)
        as (t1 & cm1 & w1 & E1 & _ & _ & _ & _ & [[-> _]|(c & row & -> & _)]);
        rewrite E1 in E; by injection E as <- _.
    + destruct (resume_find_first idx n cm w)
        as [[_ E1]|[(_ & _ & E1)|(row & r & v & _ & _ & E1 & Hn & _)]];
        rewrite E1 in E; by injection E as <- _.
    + destruct (resume_upsert k v e r cm w) as (w1 & E1 & _).
      rewrite E1 in E. by injection E as <- _.
    + by injection E as <- _.
  - by apply Forall_forall.
  - exists rs, s'. split; [done|].
    clear E Hlen. induction HQ; simpl; congruence.
Qed.

(** Names whose origin lookup throws are not cached; the other names
    are stored in the name table.  Then, whatever the schedules, the
    names whose lookup throws get the zero-confidence result with null
    fields, the other names a confidence of 0.95 or 1.0, and
    [errorCount] is the number of names whose lookup throws. *)
Lemma batchHandler_faults tier names cm w :
  tier ≠ FREE → (1 ≤ length names ≤ 100)%nat →
  Forall (λ n, origin_fault w n = true → uncached cm w n) names →
  Forall (λ n, origin_fault w n = false → stored w n) names →
  ∃ rs s',
    batchHandler tier names (cm, w)
    = (Ok (BatchOk rs (Z.of_nat (length names))
             (Z.of_nat (length (filter (λ n, origin_fault w n = true) names)))), s')
    ∧ Forall2 (λ n r,
                 name r = n
                 ∧ (origin_fault w n = true →
                    r = mkResult n None None
                          (if includePopularity then Some 0 else None) 0)
                 ∧ (origin_fault w n = false → confidence r = 95 ∨ confidence r = 100))
        names rs.
Proof.
  intros Ht Hlen Hun Hst.
  set (Inv := λ s : @St CachedName,
         prefix s.1 = prefix cm ∧ persianName s.2 = persianName w
         ∧ origin_fault s.2 = origin_fault w
         ∧ ∀ m, m ∈ names → origin_fault w m = true → uncached s.1 s.2 m).
  set (Good := λ n, n ∈ names ∧ (origin_fault w n = false → stored w n)).
  set (Q := λ n r,
         name r = n
         ∧ (origin_fault w n = true →
            r = mkResult n None None (if includePopularity then Some 0 else None) 0)
         ∧ (origin_fault w n = false → confidence r = 95 ∨ confidence r = 100)).
  set (TInv := λ n t,
         Good n
         ∧ match t with
           | AwaitFindUnique _ m | AwaitFindFirst _ m => m = n
           | AwaitUpsert k _ _ r =>
               k = getKey cm ("name:" +:+ n) ∧ origin_fault w n = false
               ∧ name r = n ∧ confidence r = 95
           | Returned r => Q n r
           end).
  assert (∀ (c1 c2 : @CacheManager CachedName) k,
            prefix c1 = prefix c2 → getKey c1 k = getKey c2 k) as Hkey.
  { intros c1 c2 k Hp. unfold getKey. by rewrite Hp. }
  assert (∀ n m, origin_fault w n = false → origin_fault w m = true →
                 getKey cm ("name:" +:+ m) ≠ getKey cm ("name:" +:+ n)) as Hne.
  { intros n m Hn Hm Hk. apply getKey_inj, append_inj_r in Hk. congruence. }
  destruct (batchHandler_inv Inv Good TInv Q)
    with (tier := tier) (names := names) (s := (cm, w))
    as (rs & s' & E & HQ & _); try done.
  - (* start *)
    intros idx n [cm1 w1] (Hp & Hn & Ho & Hu) [Hin Hgood]. simpl in *.
    destruct (start_cases idx n cm1 w1) as [[_ E]|(c & Hhit & E)]; rewrite E;
      eexists _, _; (split; [reflexivity|]); (split; [|done]).
    + by repeat split.
    + split; [done|]. split; [done|]. split; [|by right].
      intros Hf. destruct (Hu n Hin Hf) as [Hmem _].
      by rewrite Hmem in Hhit.
  - (* resume *)
    intros n t [cm1 w1] t' s' (Hp & Hn & Ho & Hu) [[Hin Hgood] Ht'] E. simpl in *.
    destruct t as [idx m|idx m|k v e r|r]; simpl in Ht'.
    + subst m.
      destruct (resume_find_unique idx n cm1 w1)
        as (t1 & cm2 & w2 & E1 & Hp2 & Hc2 & Hn2 & Ho2 & Hcase).
      rewrite E1 in E. injection E as <- <-.
      destruct Hcase as [[-> ->]|(c & row & -> & Hrow & Hframe)].
      * split; [done|]. unfold Inv. simpl. repeat split; try congruence.
        -- by destruct (Hu m) as [H1 _].
        -- rewrite Hc2. by destruct (Hu m) as [_ H2].
      * assert (origin_fault w n = false) as Hfn.
        { destruct (origin_fault w n) eqn:Hf; [|done].
          destruct (Hu n Hin Hf) as [_ H2]. congruence. }
        split.
        -- split; [done|]. split; [done|]. split; [congruence|by right].
        -- unfold Inv. simpl. repeat split; try congruence.
           ++ destruct (Hu m) as [H1 _]; [done..|].
              rewrite (Hkey cm2 cm1) by done.
              rewrite Hframe; [done|].
              rewrite !(Hkey cm1 cm) by done. by apply Hne.
           ++ rewrite Hc2, (Hkey cm2 cm1) by done. by destruct (Hu m) as [_ H2].
    + subst m.
      destruct (resume_find_first idx n cm1 w1)
        as [[Hf E1]|[(Hf & Hnone & E1)|(row & r & v & Hf & Hrow & E1 & Hname & Hconf)]];
        rewrite E1 in E; injection E as <- <-.
      * rewrite Ho in Hf. split; [|done]. split; [done|].
        split; [done|]. split; [done|]. congruence.
      * rewrite Ho in Hf. destruct (Hgood Hf) as [row Hrow].
        rewrite Hn in Hnone. congruence.
      * rewrite Ho in Hf. split.
        -- split; [done|]. split; [by apply Hkey|]. done.
        -- unfold Inv. simpl. repeat split; try congruence.
           ++ destruct (Hu m) as [H1 _]; [done..|].
              unfold getKey at 1; simpl. fold (getKey cm1 ("name:" +:+ m)).
              rewrite lookup_insert_ne; [done|].
              rewrite !(Hkey cm1 cm) by done. intros Hk. by apply (Hne n m).
           ++ destruct (Hu m) as [_ H2]; [done..|].
              unfold getKey at 1; simpl. by fold (getKey cm1 ("name:" +:+ m)).
    + destruct Ht' as (-> & Hfn & Hname & Hconf).
      destruct (resume_upsert (getKey cm ("name:" +:+ n)) v e r cm1 w1)
        as (w2 & E1 & Hn2 & Ho2 & Hframe).
      rewrite E1 in E. injection E as <- <-. split.
      * split; [done|]. split; [done|]. split; [congruence|by left].
      * unfold Inv. simpl. repeat split; try congruence.
        -- by destruct (Hu m) as [H1 _].
        -- destruct (Hu m) as [_ H2]; [done..|].
           rewrite Hframe; [done|].
           rewrite (Hkey cm1 cm) by done. by apply Hne.
    + injection E as <- <-. split; [by split|]. unfold Inv. simpl.
      repeat (split; [done|]). done.
  - intros n r [_ HQr]. exact HQr.
  - unfold Inv. simpl. repeat split; try done.
    + intros. by apply (proj1 (Forall_forall _ _) Hun).
    + intros. by apply (proj1 (Forall_forall _ _) Hun).
  - apply Forall_forall. intros n Hin. split; [done|].
    by apply (proj1 (Forall_forall _ _) Hst).
  - exists rs, s'. split; [|done].
    rewrite E. do 4 f_equal.
    apply (zero_confidence_count (origin_fault w) names rs).
    eapply Forall2_impl; [exact HQ|]. intros n r (Hname & Hbad & Hgood').
    split; [done|]. destruct (origin_fault w n); split; intros; try done.
    + by rewrite Hbad.
    + destruct Hgood' as [Hc|Hc]; [done| |]; lia.
Qed.

(** *** The loop and the sub-batches of the specification *)

Lemma sub_batches_spec fuel : ∀ names,
  (length names ≤ fuel * 10)%nat →
  concat (sub_batches fuel names) = names
  ∧ Forall (λ batch, (1 ≤ length batch ≤ 10)%nat) (sub_batches fuel names)
  ∧ (length (sub_batches fuel names) * 10 < length names + 10)%nat.
Proof.
  induction fuel as [|fuel IH]; intros names Hlen.
  - destruct names; simpl in *; [|lia]. repeat split; [constructor|lia].
  - destruct names as [|n names]; [simpl; repeat split; [constructor|lia]|].
    remember (n :: names) as l eqn:El.
    assert (sub_batches (S fuel) l = take 10 l :: sub_batches fuel (drop 10 l)) as ->
      by (by rewrite El).
    assert (1 ≤ length l)%nat as Hl by (rewrite El; simpl; lia).
    destruct (IH (drop 10 l)) as (Hcat & Hall & Hnum).
    { rewrite length_drop. lia. }
    split; [|split].
    + rewrite concat_cons, Hcat. apply take_drop.
    + constructor; [|done]. rewrite length_take. lia.
    + rewrite length_cons. rewrite length_drop in Hnum. lia.
Qed.

(** The loop is one [Promise.all] per group of 10 names, each awaited
    before the next one starts. *)
Lemma batch_loop_sub_batches fuel : ∀ i names acc ec s,
  batch_loop fuel i names acc ec s
  = run_sub_batches i (sub_batches fuel (drop i names)) acc ec s.
Proof.
  induction fuel as [|fuel IH]; intros i names acc ec s; simpl; [done|].
  destruct (Nat.ltb_spec i (length names)) as [Hlt|Hge].
  - destruct (drop i names) as [|n rest] eqn:Ed.
    { apply (f_equal length) in Ed. rewrite length_drop in Ed. simpl in Ed. lia. }
    rewrite <- Ed. simpl.
    unfold slice, batchSize. replace (i + 10 - i)%nat with 10%nat by lia.
    unfold mbind, M_bind.
    destruct (promise_all (schedules i) i (take 10 (drop i names)) s)
      as [[brs|err] s1]; [|done].
    rewrite IH, drop_drop.
    destruct (decide (length names ≤ i + 10)%nat) as [Hend|Hmore].
    + rewrite (drop_ge names (i + 10)) by lia.
      by destruct fuel.
    + rewrite length_take, length_drop.
      by replace (i + 10 `min` (length names - i))%nat with (i + 10)%nat by lia.
  - rewrite drop_ge by lia. done.
Qed.

(** C9.  Whatever the order in which the Prisma calls of a sub-batch
    complete: for a paid tier and 1 to 100 names the handler answers
    with one result per name, in the order of the names, and
    [errorCount] is the number of results with a confidence of zero; the
    handler runs one [Promise.all] per group of at most 10 consecutive
    names, each awaited before the next starts, and the groups are the
    names cut after every tenth; an item whose origin lookup
    throws (and which the cache does not hold) becomes the
    zero-confidence result with null fields, the other items, being
    stored, keep a confidence of 0.95 or 1.0, and the handler goes on;
    a [Promise.all] over one name is one call of [processName].
    For 5 names of which exactly 2 have a failing origin lookup, the
    other 3 being stored, the answer has 5 results, exactly 2 of them
    with a confidence of zero, those of the failing names, and
    [errorCount] is 2. *)
Theorem batch_partial_failure :
  (∀ tier names s,
     tier ≠ FREE → (1 ≤ length names ≤ 100)%nat →
     ∃ rs s',
       batchHandler tier names s
       = (Ok (BatchOk rs (Z.of_nat (length names)) (Z.of_nat (zero_confidence rs))), s')
       ∧ map name rs = names)
  ∧ (∀ tier names s,
       tier ≠ FREE → (1 ≤ length names ≤ 100)%nat →
       batchHandler tier names s
       = try_catch
           ('(results, errorCount) ←
              run_sub_batches 0 (sub_batches (length names) names) [] 0;
            mret (BatchOk results (Z.of_nat (length names)) errorCount))
           (λ error,
              mret (BatchError 50001
                      "Internal server error during batch processing" 500)) s)
  ∧ (∀ names s,
       batch_loop (length names) 0 names [] 0 s
       = run_sub_batches 0 (sub_batches (length names) names) [] 0 s
       ∧ concat (sub_batches (length names) names) = names
       ∧ Forall (λ batch, (1 ≤ length batch ≤ 10)%nat)
           (sub_batches (length names) names)
       ∧ (length (sub_batches (length names) names) * 10 < length names + 10)%nat)
  ∧ (∀ idx n cm w,
       origin_fault w n = true → uncached cm w n →
       ∃ w', processName idx n (cm, w)
             = (Ok (mkResult n None None
                      (if includePopularity then Some 0 else None) 0), (cm, w')))
  ∧ (∀ schedule idx n s,
       promise_all schedule idx [n] s = (r ← processName idx n; mret [r]) s)
  ∧ (∀ tier names cm w,
       tier ≠ FREE → (1 ≤ length names ≤ 100)%nat →
       Forall (λ n, origin_fault w n = true → uncached cm w n) names →
       Forall (λ n, origin_fault w n = false → stored w n) names →
       ∃ rs s',
         batchHandler tier names (cm, w)
         = (Ok (BatchOk rs (Z.of_nat (length names))
                  (Z.of_nat (length (filter (λ n, origin_fault w n = true) names)))),
            s')
         ∧ Forall2 (λ n r,
                      name r = n
                      ∧ (origin_fault w n = true →
                         r = mkResult n None None
                               (if includePopularity then Some 0 else None) 0)
                      ∧ (origin_fault w n = false →
                         confidence r = 95 ∨ confidence r = 100))
             names rs)
  ∧ (∀ tier names cm w,
       tier ≠ FREE → length names = 5%nat →
       length (filter (λ n, origin_fault w n = true) names) = 2%nat →
       Forall (λ n, origin_fault w n = true → uncached cm w n) names →
       Forall (λ n, origin_fault w n = false → stored w n) names →
       ∃ rs s',
         batchHandler tier names (cm, w) = (Ok (BatchOk rs 5 2), s')
         ∧ length rs = 5%nat
         ∧ zero_confidence rs = 2%nat
         ∧ Forall2 (λ n r, name r = n ∧ (confidence r = 0 ↔ origin_fault w n = true))
             names rs).
Proof.
  split; [|split; [|split; [|split; [|split; [|split]]]]].
  - apply batchHandler_shape.
  - intros tier names s Ht Hlen. unfold Batch.batchHandler.
    rewrite bool_decide_eq_false_2 by done.
    destruct (Nat.eqb_spec (length names) 0); [lia|].
    destruct (Nat.ltb_spec 100 (length names)); [lia|].
    unfold try_catch, mbind, M_bind. by rewrite batch_loop_sub_batches.
  - intros names s. split.
    + by rewrite batch_loop_sub_batches.
    + apply sub_batches_spec. lia.
  - intros * Hf Hu.
    destruct (processName_fails idx n cm w Hf Hu) as (w' & E & _). eauto.
  - apply promise_all_single.
  - apply batchHandler_faults.
  - intros * Ht Hlen Hcount Hun Hst.
    destruct (batchHandler_faults tier names cm w Ht) as (rs & s' & E & HQ);
      [lia|done|done|].
    rewrite Hlen, Hcount in E. exists rs, s'. split; [done|].
    assert (Forall2 (λ n r, name r = n ∧ (confidence r = 0 ↔ origin_fault w n = true))
              names rs) as HQ'.
    { eapply Forall2_impl; [exact HQ|]. intros n r (Hname & Hbad & Hgood).
      split; [done|]. destruct (origin_fault w n); split; intros; try done.
      - by rewrite Hbad.
      - destruct Hgood as [Hc|Hc]; [done| |]; lia. }
    split; [by rewrite <- (Forall2_length _ _ _ HQ)|]. split; [|done].
    by rewrite (zero_confidence_count (origin_fault w) names rs HQ').
Qed.

End Handler.

(** Five names on the sample origin, two of which make the lookup
    throw; the Prisma calls of the five items complete in the order of
    the schedule [4; 3; 2; 1; 0; 0; 2; 4] and then in the order of the
    batch. *)
Lemma batch_partial_failure_witness :
  ∃ s',
    Batch.batchHandler c_gender (λ _, None) (λ _, (0, 0, 0)) false
      (λ _, [4; 3; 2; 1; 0; 0; 2; 4]%nat) BASIC
      Sample.five_names (Cache.new (Some "shenasa"), Sample.origin_world)
    = (Ok (BatchOk
             [mkResult "ali" (Some "MALE") (Some "ali") None 95;
              mkResult "x1" None None None 0;
              mkResult "sara" (Some "FEMALE") (Some "sara") None 95;
              mkResult "x2" None None None 0;
              mkResult "reza" (Some "MALE") (Some "reza") None 95] 5 2), s').
Proof.
  destruct (proj2 (proj2 (proj2 (proj2 (proj2 (proj2
              (batch_partial_failure c_gender (λ _, None) (λ _, (0, 0, 0)) false
                 (λ _, [4; 3; 2; 1; 0; 0; 2; 4]%nat)))))))
              BASIC Sample.five_names (Cache.new (Some "shenasa")) Sample.origin_world)
    as (rs & s' & E & _).
  - discriminate.
  - reflexivity.
  - reflexivity.
  - repeat constructor.
  - repeat constructor; intros H; try discriminate H; by eexists.
  - exists s'. rewrite E. f_equal. apply (f_equal fst) in E. simpl in E.
    vm_compute in E. by injection E as <-.
Defined.

(** A name sent twice in one sub-batch: both calls check the memory
    before either has written to it, so when the Prisma calls complete
    in the order of the batch both calls go to the origin and both
    answers carry a confidence of 0.95. *)
Example repeated_name_in_one_sub_batch :
  (Batch.promise_all c_gender (λ _, None) (λ _, (0, 0, 0)) false [] 0 ["ali"; "ali"]
     (Cache.new (Some "shenasa"), Sample.origin_world)).1
  = Ok [mkResult "ali" (Some "MALE") (Some "ali") None 95;
        mkResult "ali" (Some "MALE") (Some "ali") None 95].
Proof. vm_compute. reflexivity. Qed.

(** The same name in two sub-batches: the second sub-batch starts after
    the first has settled, and the second answer comes from the cache
    with a confidence of 1.0. *)
Example repeated_name_in_two_sub_batches :
  (λ r : Res BatchResponse,
     match r with
     | Ok (BatchOk results _ _) => Some (confidence <$> results)
     | _ => None
     end)
    (Batch.batchHandler c_gender (λ _, None) (λ _, (0, 0, 0)) false (λ _, []) BASIC
       ("ali" :: replicate 9 "sara" ++ ["ali"])
       (Cache.new (Some "shenasa"), Sample.origin_world)).1
  = Some (replicate 10 95 ++ [100]).
Proof. vm_compute. reflexivity. Qed.

End BatchTheory.

(** ** More on the rate limit store and the client identifiers *)

Module StoreTheory.
Import RateLimiter.
Open Scope Z_scope.

(** The three operations of the store on one identifier leave the
    counter of every other identifier as it was. *)
Lemma store_frame now key key' hits :
  key ≠ key' →
  (MemoryStore_increment now key hits).2 !! key' = hits !! key'
  ∧ MemoryStore_decrement key hits !! key' = hits !! key'
  ∧ MemoryStore_resetKey key hits !! key' = hits !! key'.
Proof.
  intros Hne. split; [by apply RateLimiterTheory.increment_other|]. split.
  - unfold MemoryStore_decrement.
    destruct (hits !! key) as [c|]; [|done].
    destruct (0 <? count c); [|done]. by rewrite lookup_insert_ne.
  - unfold MemoryStore_resetKey. by rewrite lookup_delete_ne.
Qed.

Lemma store_frame_witness :
  (MemoryStore_increment 5 "api:a" {["api:b" := mkHit 7 60000]}).2 !! "api:b"
  = ({["api:b" := mkHit 7 60000]} : gmap string Hit) !! "api:b"
  ∧ MemoryStore_decrement "api:a" {["api:b" := mkHit 7 60000]} !! "api:b"
    = ({["api:b" := mkHit 7 60000]} : gmap string Hit) !! "api:b"
  ∧ MemoryStore_resetKey "api:a" {["api:b" := mkHit 7 60000]} !! "api:b"
    = ({["api:b" := mkHit 7 60000]} : gmap string Hit) !! "api:b".
Proof. apply store_frame. discriminate. Defined.

(** After [resetKey] the next [increment] opens a new window with a
    count of 1, whatever the counter was. *)
Lemma resetKey_restarts now key hits :
  MemoryStore_increment now key (MemoryStore_resetKey key hits)
  = (mkInc 1 60000, <[key := mkHit 1 (now + 60000)]> hits).
Proof.
  unfold MemoryStore_resetKey. rewrite RateLimiterTheory.increment_fresh.
  - by rewrite insert_delete_eq.
  - intros (h & E & _). by rewrite lookup_delete_eq in E.
Qed.

Lemma increments_live ts key hits h :
  hits !! key = Some h →
  Forall (λ t, t < resetTime h) ts →
  (increments ts key hits).1
  = imap (λ i t, mkInc (count h + Z.of_nat (S i)) (resetTime h - t)) ts.
Proof.
  revert hits h. induction ts as [|t ts IH]; intros hits h E Hts; [done|].
  apply Forall_cons in Hts as [Ht Hts]. simpl.
  rewrite (RateLimiterTheory.increment_live _ _ _ _ E Ht).
  specialize (IH (<[key := mkHit (count h + 1) (resetTime h)]> hits)
                 (mkHit (count h + 1) (resetTime h))).
  destruct (increments ts key _) as [rs hits'] eqn:Ers. simpl in *.
  rewrite IH by (by rewrite ?lookup_insert_eq).
  f_equal. apply imap_ext. intros i t' _. simpl. f_equal. lia.
Qed.

(** A request that opens a window at [t0], followed by any number of
    requests of the same identifier before [t0 + 60000]: the n-th
    request of the window is counted as n and is told the time left
    until [t0 + 60000]. *)
Lemma increments_in_window t0 ts key hits :
  ¬ live t0 key hits →
  Forall (λ t, t < t0 + 60000) ts →
  (increments (t0 :: ts) key hits).1
  = mkInc 1 60000
    :: imap (λ i t, mkInc (Z.of_nat (S (S i))) (t0 + 60000 - t)) ts.
Proof.
  intros Hfresh Hts. simpl.
  rewrite (RateLimiterTheory.increment_fresh _ _ _ Hfresh).
  pose proof (increments_live ts key (<[key := mkHit 1 (t0 + 60000)]> hits)
                (mkHit 1 (t0 + 60000))) as H.
  destruct (increments ts key _) as [rs hits'] eqn:Ers. simpl in *.
  rewrite H by (by rewrite ?lookup_insert_eq).
  f_equal. apply imap_ext. intros i t _. simpl. f_equal. lia.
Qed.

Lemma increments_in_window_witness :
  (increments [0; 10; 59999] "ip:203.0.113.7" ∅).1
  = mkInc 1 60000
    :: imap (λ i t, mkInc (Z.of_nat (S (S i))) (0 + 60000 - t)) [10; 59999].
Proof.
  apply increments_in_window.
  - intros (h & E & _). by rewrite lookup_empty in E.
  - repeat constructor.
Defined.

(** The default identifier: a non-empty API key header wins over every
    address header, and an identifier made from an API key is never
    equal to one made from an address. *)
Lemma getClientKey_namespaces c1 c2 k :
  x_api_key (req c1) = Some k → truthy k = true →
  truthy_opt (x_api_key (req c2)) = false →
  getClientKey c1 = "api:" +:+ k
  ∧ getClientKey c1 ≠ getClientKey c2.
Proof.
  intros Hk Ht Hno. unfold getClientKey. rewrite Hk, Hno. simpl. rewrite Ht.
  split; [done|]. discriminate.
Qed.

Lemma getClientKey_namespaces_witness :
  getClientKey (mkContext (mkRequest (Some "sk_a") (Some "203.0.113.7") None)
                  None None None ∅)
  = "api:" +:+ "sk_a"
  ∧ getClientKey (mkContext (mkRequest (Some "sk_a") (Some "203.0.113.7") None)
                    None None None ∅)
    ≠ getClientKey (mkContext (mkRequest None (Some "203.0.113.7") None)
                      None None None ∅).
Proof. apply getClientKey_namespaces; reflexivity. Defined.

(** Without an API key the identifier is the first field of the address
    header without the white space around it: here a space and a TAB
    before the address and U+00A0 and U+FEFF after it. *)
Example getClientKey_trims :
  getClientKey
    (mkContext
       (mkRequest None None
          (Some (" " +:+ String (Ascii.ascii_of_nat 9) "203.0.113.7"
                 +:+ String (Ascii.ascii_of_nat 194) (String (Ascii.ascii_of_nat 160)
                       (String (Ascii.ascii_of_nat 239) (String (Ascii.ascii_of_nat 187)
                          (String (Ascii.ascii_of_nat 191) ", 10.0.0.1")))))))
       None None None ∅)
  = "ip:203.0.113.7".
Proof. vm_compute. reflexivity. Qed.

(** The identifier the application uses: a stored API key gives
    [api:<key>], different keys different identifiers; without a key
    the identifier is made from [cf-connecting-ip] alone, so a caller
    without that header shares [ip:unknown] whatever it forwards. *)
Lemma keyGenerator_identifiers c tier :
  var_rateLimitTier c = Some tier →
  ∃ key c',
    App.keyGenerator c = Ok (key, c')
    ∧ (∀ k, var_apiKey c = Some k → truthy k = true → key = "api:" +:+ k)
    ∧ (truthy_opt (var_apiKey c) = false →
       truthy_opt (cf_connecting_ip (req c)) = false → key = "ip:unknown")
    ∧ (∀ c2 key2 c2',
         App.keyGenerator c2 = Ok (key2, c2') →
         truthy_opt (var_apiKey c) = true → truthy_opt (var_apiKey c2) = true →
         var_apiKey c ≠ var_apiKey c2 → key ≠ key2).
Proof.
  intros Ht. unfold App.keyGenerator. rewrite Ht. simpl.
  eexists _, _. split; [reflexivity|]. split; [|split].
  - intros k Hk Htr. rewrite Hk. simpl. by rewrite Htr.
  - intros Hno Hip. rewrite Hno. unfold or_else.
    destruct (cf_connecting_ip (req c)) as [ip|]; [|done].
    simpl in Hip. by rewrite Hip.
  - intros c2 key2 c2' E2 H1 H2 Hne.
    destruct (var_rateLimitTier c2); [|discriminate]. simpl in E2.
    injection E2 as <- _. rewrite H1, H2.
    destruct (var_apiKey c) as [k1|], (var_apiKey c2) as [k2|]; try done.
    simpl. intros [= E]. apply Hne. f_equal. exact E.
Qed.

Lemma keyGenerator_identifiers_witness :
  ∃ key c',
    App.keyGenerator Sample.premium_context = Ok (key, c')
    ∧ (∀ k, var_apiKey Sample.premium_context = Some k → truthy k = true →
            key = "api:" +:+ k)
    ∧ (truthy_opt (var_apiKey Sample.premium_context) = false →
       truthy_opt (cf_connecting_ip (req Sample.premium_context)) = false →
       key = "ip:unknown")
    ∧ (∀ c2 key2 c2',
         App.keyGenerator c2 = Ok (key2, c2') →
         truthy_opt (var_apiKey Sample.premium_context) = true →
         truthy_opt (var_apiKey c2) = true →
         var_apiKey Sample.premium_context ≠ var_apiKey c2 → key ≠ key2).
Proof. apply (keyGenerator_identifiers Sample.premium_context PREMIUM). reflexivity. Defined.

End StoreTheory.

(** ** More on the cache: delete, clear, sweeping, promotion, restart *)

Module CacheMoreTheory.
Import Prisma Cache.
Open Scope Z_scope.

Ltac run :=
  unfold get, set, Cache.delete, clear, cleanExpired, JSON_parse, modify_memory,
    liftW, cacheEntry_findUnique, cacheEntry_upsert, cacheEntry_delete,
    cacheEntry_deleteMany, console_error, call, try_catch, gets, modify,
    throw, mbind, mret, M_bind, M_ret in *;
  simpl in *.

Ltac oracle w :=
  destruct (faults w) as [|[|] ?]; simpl in *.

Section Laws.
Context {V : Type} (stringify : V → string) (parse : string → option V).

Implicit Types (cm : @CacheManager V) (w : World) (key : string) (v : V).

(** What [delete] leaves behind when the backend takes its call: the
    prefix is kept and neither tier holds the key. *)
Lemma delete_removes key cm w :
  hd false (faults w) = false →
  ∃ cm' w',
    Cache.delete key (cm, w) = (Ok tt, (cm', w'))
    ∧ prefix cm' = prefix cm
    ∧ memoryCache cm' !! getKey cm key = None
    ∧ cacheEntry w' !! getKey cm key = None.
Proof.
  intros Hf. run.
  oracle w; simplify_eq;
    destruct (cacheEntry w !! getKey cm key) eqn:E; simpl;
    eexists _, _; (split; [reflexivity|]); simpl;
    by rewrite ?lookup_delete_eq.
Qed.

(** [delete] followed by [get]: a miss, when the backend takes the
    deletion (whatever it does with the read). *)
Lemma delete_then_get_misses now1 now2 key cm w :
  hd false (faults w) = false →
  ∃ s', (Cache.delete key;; get parse now1 now2 key) (cm, w) = (Ok None, s').
Proof.
  intros Hf.
  destruct (delete_removes key cm w Hf) as (cm' & w' & E & Hp & H1 & H2).
  unfold mbind at 1, M_bind at 1. rewrite E. cbv beta.
  assert (getKey cm' key = getKey cm key) as Hk by (unfold getKey; by rewrite Hp).
  apply CacheTheory.get_dead_is_miss; intros x; rewrite Hk; congruence.
Qed.

(** Deleting a key that has no database row returns normally, changes
    no row, and leaves the error of the database on the console. *)
Lemma delete_absent_logs key cm w :
  hd false (faults w) = false →
  cacheEntry w !! getKey cm key = None →
  ∃ cm' w',
    Cache.delete key (cm, w) = (Ok tt, (cm', w'))
    ∧ cacheEntry w' = cacheEntry w
    ∧ console w' = console w ++ [("Cache delete error:", "P2025")].
Proof.
  intros Hf E. run. oracle w; simplify_eq.
  all: rewrite E; simpl; eauto.
Qed.

(** A live row that parses, behind a memory miss, is returned and copied
    to memory. *)
Lemma get_from_database now1 now2 key cm w row v :
  memory_hit now1 (memoryCache cm !! getKey cm key) = None →
  hd false (faults w) = false →
  cacheEntry w !! getKey cm key = Some row →
  now2 < row_expiresAt row →
  parse (row_value row) = Some v →
  ∃ w', get parse now1 now2 key (cm, w)
        = (Ok (Some v),
           (mkCache (<[getKey cm key := mkItem v (row_expiresAt row)]>
                       (memoryCache cm)) (prefix cm), w')).
Proof.
  intros Hmiss Hf Hrow Hlive Hparse. run. rewrite Hmiss. simpl.
  oracle w; simplify_eq; rewrite Hrow; simpl;
    (destruct (Z.ltb_spec now2 (row_expiresAt row)); [|lia]);
    rewrite Hparse; simpl; eauto.
Qed.

(** A hit served from the database is copied to memory: until that
    entry expires, [get] returns it without the database, whatever the
    state of the backend. *)
Lemma get_promotes now1 now2 key cm w row v :
  memory_hit now1 (memoryCache cm !! getKey cm key) = None →
  hd false (faults w) = false →
  cacheEntry w !! getKey cm key = Some row →
  now2 < row_expiresAt row →
  parse (row_value row) = Some v →
  ∃ cm' w',
    get parse now1 now2 key (cm, w) = (Ok (Some v), (cm', w'))
    ∧ ∀ now1' now2' w'',
        now1' < row_expiresAt row →
        get parse now1' now2' key (cm', w'') = (Ok (Some v), (cm', w'')).
Proof.
  intros Hmiss Hf Hrow Hlive Hparse.
  destruct (get_from_database now1 now2 key cm w row v) as [w' E]; try done.
  eexists _, _. split; [exact E|].
  intros now1' now2' w'' Hlt.
  eapply (CacheTheory.get_memory_hit parse _ _ _ _ _ (mkItem v _));
    [|reflexivity|exact Hlt].
  unfold getKey; simpl. by rewrite lookup_insert_eq.
Qed.

(** When the backend fails the deletion, the row stays, and a [get]
    that reaches the database serves the deleted entry again. *)
Lemma delete_failure_keeps_row now1 now2 key cm w fs row v :
  faults w = true :: fs →
  hd false fs = false →
  cacheEntry w !! getKey cm key = Some row →
  now2 < row_expiresAt row →
  parse (row_value row) = Some v →
  ∃ s', (Cache.delete key;; get parse now1 now2 key) (cm, w) = (Ok (Some v), s').
Proof.
  intros Hf Hfs Hrow Hlive Hparse.
  assert (∃ cm' w', Cache.delete key (cm, w) = (Ok tt, (cm', w'))
                    ∧ prefix cm' = prefix cm
                    ∧ memoryCache cm' !! getKey cm key = None
                    ∧ cacheEntry w' = cacheEntry w
                    ∧ faults w' = fs) as (cm' & w' & E & Hp & Hm & Hc & Hf').
  { run. rewrite Hf. simpl. eexists _, _. split; [reflexivity|]. simpl.
    by rewrite lookup_delete_eq. }
  unfold mbind at 1, M_bind at 1. rewrite E. cbv beta.
  assert (getKey cm' key = getKey cm key) as Hk by (unfold getKey; by rewrite Hp).
  destruct (get_from_database now1 now2 key cm' w' row v) as (w2 & E2);
    rewrite ?Hk, ?Hm, ?Hc, ?Hf'; eauto.
Qed.

(** [clear] followed by [get] of any key: a miss, when the backend
    takes the bulk deletion. *)
Lemma clear_then_get_misses now1 now2 key cm w :
  hd false (faults w) = false →
  ∃ s', (clear;; get parse now1 now2 key) (cm, w) = (Ok None, s').
Proof.
  intros Hf.
  assert (∃ w', clear (cm, w) = (Ok tt, (mkCache ∅ (prefix cm), w'))
                ∧ cacheEntry w' = ∅) as (w' & E & Hempty).
  { run. oracle w; simplify_eq; eexists; (split; [reflexivity|]); simpl;
      apply map_empty; intros i; apply map_lookup_filter_None_2;
      right; intros x _; simpl; discriminate. }
  unfold mbind at 1, M_bind at 1. rewrite E. cbv beta.
  apply CacheTheory.get_dead_is_miss; intros x; simpl.
  - by rewrite lookup_empty.
  - by rewrite Hempty, lookup_empty.
Qed.

(** With a backend that answers, [cleanExpired] removes from both tiers
    the entries that are expired at its clock reads and keeps the ones
    that are not, and it is invisible: a later [get] returns what it
    would have returned without the sweep. *)
Lemma cleanExpired_sweeps now now' cm w :
  faults w = [] →
  ∃ cm' w',
    cleanExpired now now' (cm, w) = (Ok tt, (cm', w'))
    ∧ (∀ k item (e : Z),
         memoryCache cm' !! k = Some item → expiresAt item = e → now < e)
    ∧ (∀ k row, cacheEntry w' !! k = Some row → now' < row_expiresAt row)
    ∧ (∀ k item (e : Z),
         memoryCache cm !! k = Some item → expiresAt item = e → now < e →
         memoryCache cm' !! k = Some item)
    ∧ (∀ k row,
         cacheEntry w !! k = Some row → now' < row_expiresAt row →
         cacheEntry w' !! k = Some row)
    ∧ (∀ now1 now2 key,
         now ≤ now1 → now' ≤ now2 →
         (get parse now1 now2 key (cm', w')).1 = (get parse now1 now2 key (cm, w)).1).
Proof.
  intros Hf. run. rewrite Hf. simpl.
  eexists _, _. split; [reflexivity|]. split; [|split; [|split; [|split]]].
  - intros k item e H He. apply map_lookup_filter_Some in H as [_ H]. simpl in H.
    rewrite He in H. simpl in H. apply Z.leb_gt in H. lia.
  - intros k row H. apply map_lookup_filter_Some in H as [_ H]. simpl in H.
    apply Z.leb_gt in H. lia.
  - intros k item e H He Hlt. apply map_lookup_filter_Some. split; [done|].
    simpl. rewrite He. simpl. apply Z.leb_gt. lia.
  - intros k row H Hlt. apply map_lookup_filter_Some. split; [done|].
    simpl. apply Z.leb_gt. lia.
  - intros now1 now2 key Hn1 Hn2. unfold getKey at 1 2 3; simpl.
    fold (getKey cm key).
    set (k := getKey cm key).
    assert (memory_hit now1
              (filter (λ kv, le (expiresAt kv.2) now = false) (memoryCache cm) !! k)
            = memory_hit now1 (memoryCache cm !! k)) as ->.
    { rewrite map_lookup_filter. destruct (memoryCache cm !! k) as [item|]; [|done].
      simpl. case_guard as Hg; simpl; [done|].
      apply not_false_is_true in Hg. destruct (expiresAt item) as [e|]; simpl in *;
        [|done].
      apply Z.leb_le in Hg. destruct (Z.ltb_spec now1 e); [lia|done]. }
    destruct (memory_hit now1 (memoryCache cm !! k)); [done|].
    simpl. rewrite Hf. simpl.
    rewrite map_lookup_filter. destruct (cacheEntry w !! k) as [row|]; [|done].
    simpl. case_guard as Hg; simpl.
    + destruct (now2 <? row_expiresAt row); [|done].
      by destruct (parse (row_value row)).
    + apply not_false_is_true, Z.leb_le in Hg.
      destruct (Z.ltb_spec now2 (row_expiresAt row)); [lia|done].
Qed.


End Laws.

(** An entry that is live in both tiers is gone after [delete]. *)
Lemma delete_then_get_misses_witness :
  (∃ s, get Some 0 0 "name:ali" (MoreSamples.warm_cache, MoreSamples.stored_world)
        = (Ok (Some "MALE"), s))
  ∧ (∃ s, get Some 0 0 "name:ali" (Sample.shenasa_cache, MoreSamples.stored_world)
          = (Ok (Some "MALE"), s))
  ∧ ∃ s', (Cache.delete "name:ali";; get Some 0 0 "name:ali")
            (MoreSamples.warm_cache, MoreSamples.stored_world)
          = (Ok None, s').
Proof.
  split; [by eexists|]. split; [by eexists|].
  apply (delete_then_get_misses Some). reflexivity.
Defined.

Lemma delete_absent_logs_witness :
  ∃ cm' w',
    Cache.delete "name:ali" (Sample.shenasa_cache, Sample.empty_world)
    = (Ok tt, (cm', w'))
    ∧ cacheEntry w' = cacheEntry Sample.empty_world
    ∧ console w' = console Sample.empty_world ++ [("Cache delete error:", "P2025")].
Proof. apply delete_absent_logs; reflexivity. Defined.

Lemma delete_failure_keeps_row_witness :
  ∃ s', (Cache.delete "name:ali";; get Some 0 0 "name:ali")
          (Sample.shenasa_cache, MoreSamples.stale_world)
        = (Ok (Some "MALE"), s').
Proof.
  apply (delete_failure_keeps_row Some 0 0 "name:ali" Sample.shenasa_cache
           MoreSamples.stale_world [] (mkCacheRow "MALE" 3600000) "MALE");
    reflexivity.
Defined.

Lemma clear_then_get_misses_witness :
  ∃ s', (clear;; get Some 0 0 "name:ali")
          (Sample.shenasa_cache, Sample.empty_world)
        = (Ok None, s').
Proof. apply (clear_then_get_misses Some). reflexivity. Defined.

(** A sweep at 10 of a cache and a table that each hold an entry that
    expired at 5 and one that expires at 50. *)
Lemma cleanExpired_sweeps_witness :
  ∃ cm' w',
    cleanExpired 10 10 (MoreSamples.mixed_cache, MoreSamples.mixed_world)
    = (Ok tt, (cm', w'))
    ∧ memoryCache cm' = {["shenasa:name:new" := mkItem "FEMALE" 50]}
    ∧ cacheEntry w' = {["shenasa:name:new" := mkCacheRow "FEMALE" 50]}
    ∧ (∀ k item (e : Z),
         memoryCache cm' !! k = Some item → expiresAt item = e → 10 < e)
    ∧ (∀ k row, cacheEntry w' !! k = Some row → 10 < row_expiresAt row)
    ∧ (∀ now1 now2 key,
         10 ≤ now1 → 10 ≤ now2 →
         (get Some now1 now2 key (cm', w')).1
         = (get Some now1 now2 key (MoreSamples.mixed_cache, MoreSamples.mixed_world)).1).
Proof.
  destruct (cleanExpired_sweeps Some 10 10 MoreSamples.mixed_cache MoreSamples.mixed_world)
    as (cm' & w' & E & Hmem & Hrow & _ & _ & Hget); [reflexivity|].
  exists cm', w'. split; [exact E|].
  assert (cleanExpired 10 10 (MoreSamples.mixed_cache, MoreSamples.mixed_world)
          = (Ok tt,
             (mkCache {["shenasa:name:new" := mkItem "FEMALE" 50]} (Some "shenasa"),
              set_cacheEntry {["shenasa:name:new" := mkCacheRow "FEMALE" 50]}
                MoreSamples.mixed_world))) as E'
    by (vm_compute; reflexivity).
  rewrite E' in E. injection E as <- <-.
  split; [reflexivity|]. split; [reflexivity|].
  split; [exact Hmem|]. split; [exact Hrow|exact Hget].
Defined.

Lemma get_promotes_witness :
  ∃ cm' w',
    get Some 0 0 "name:ali" (Sample.shenasa_cache, MoreSamples.stored_world)
    = (Ok (Some "MALE"), (cm', w'))
    ∧ ∀ now1' now2' w'',
        now1' < row_expiresAt (mkCacheRow "MALE" 3600000) →
        get Some now1' now2' "name:ali" (cm', w'') = (Ok (Some "MALE"), (cm', w'')).
Proof.
  apply (get_promotes Some 0 0 "name:ali" Sample.shenasa_cache
           MoreSamples.stored_world (mkCacheRow "MALE" 3600000) "MALE");
    reflexivity.
Defined.


End CacheMoreTheory.

(** ** More on credentials: creation, usage, statistics, the request log *)

Module ApiKeyMoreTheory.
Import Prisma ApiKey.
Open Scope Z_scope.

Ltac run :=
  unfold validateApiKey, incrementUsage, deactivateApiKey, createApiKey,
    getApiKeyStats, Metrics.logRequest, requestLog_create,
    apiKey_findUnique, apiKey_create, apiKey_update_by_key, apiKey_update_by_id,
    requestLog_count, console_error, call, try_catch, gets, modify,
    throw, mbind, mret, M_bind, M_ret in *;
  simpl in *.

(** With a backend that answers, the verdict is decided by the row of
    the key and the request log alone. *)
Lemma accepts_spec now1 now2 key w :
  faults w = [] →
  accepts now1 now2 key w = true
  ↔ ∃ row, apiKey w !! key = Some row ∧ ak_isActive row = true
           ∧ recent_requests now1 key w < ak_requestLimit row.
Proof.
  intros Hf. unfold accepts.
  destruct (ApiKeyTheory.validate_returns now1 now2 key w) as (r & w' & E).
  rewrite E. simpl. split.
  - intros Hv. destruct (ApiKeyTheory.validate_valid _ _ _ _ _ _ E Hv)
      as (row & ? & ? & ? & _). eauto.
  - intros (row & Hrow & Ha & Hlt).
    destruct (ApiKeyTheory.validate_accepts now1 now2 key w row Hf Hrow Ha Hlt)
      as (r' & w'' & E' & Hv). congruence.
Qed.

(** A key that was just created validates, with the quota of its tier
    as [requestLimit], no use counted and the tier it was created for. *)
Lemma createApiKey_then_validate uid rowId name tier now1 now2 w :
  faults w = [] →
  apiKey w !! ("sk_" +:+ uid) = None →
  recent_requests now1 ("sk_" +:+ uid) w
    < RateLimiter.requests (RateLimiter.rateLimitTiers tier) →
  ∃ w1 w2,
    createApiKey uid rowId name tier w
    = (Ok (mkApiKeyRow rowId name tier
             (RateLimiter.requests (RateLimiter.rateLimitTiers tier)) 0 true None), w1)
    ∧ validateApiKey now1 now2 ("sk_" +:+ uid) w1
      = (Ok (mkValidation true
               (Some (mkValidated rowId tier
                        (RateLimiter.requests (RateLimiter.rateLimitTiers tier))
                        0 true))), w2).
Proof.
  intros Hf Hfresh Hlt.
  set (key := "sk_" +:+ uid) in *.
  set (row := mkApiKeyRow rowId name tier
                (RateLimiter.requests (RateLimiter.rateLimitTiers tier)) 0 true None).
  assert (createApiKey uid rowId name tier w
          = (Ok row, set_apiKey (<[key := row]> (apiKey w)) w)) as E.
  { unfold createApiKey, apiKey_create, call. fold key. by rewrite Hf, Hfresh. }
  set (w1 := set_apiKey (<[key := row]> (apiKey w)) w) in *.
  assert (apiKey w1 !! key = Some row) as Hrow by (simpl; by rewrite lookup_insert_eq).
  destruct (ApiKeyTheory.validate_accepts now1 now2 key w1 row)
    as (r & w2 & Ev & Hv); try done.
  destruct (ApiKeyTheory.validate_valid _ _ _ _ _ _ Ev Hv)
    as (row' & Hrow' & _ & _ & Hval & _).
  rewrite Hrow in Hrow'. injection Hrow' as <-.
  exists w1, w2. split; [done|]. rewrite Ev. destruct r as [b o].
  simpl in *. by subst.
Qed.

Lemma createApiKey_then_validate_witness :
  ∃ w1 w2,
    createApiKey "abc" "id1" "Acme" PREMIUM Sample.empty_world
    = (Ok (mkApiKeyRow "id1" "Acme" PREMIUM
             (RateLimiter.requests (RateLimiter.rateLimitTiers PREMIUM)) 0 true None), w1)
    ∧ validateApiKey 1000 1000 ("sk_" +:+ "abc") w1
      = (Ok (mkValidation true
               (Some (mkValidated "id1" PREMIUM
                        (RateLimiter.requests (RateLimiter.rateLimitTiers PREMIUM))
                        0 true))), w2).
Proof. apply createApiKey_then_validate; reflexivity. Defined.

(** [createApiKey] has no handler of its own: a failure of the backend,
    and a key that is already stored, reach the caller as exceptions,
    and the table of keys is left as it was. *)
Lemma createApiKey_propagates uid rowId name tier w :
  (∀ fs, faults w = true :: fs →
     createApiKey uid rowId name tier w = (Throw "PrismaClientError", set_faults fs w))
  ∧ (hd false (faults w) = false → is_Some (apiKey w !! ("sk_" +:+ uid)) →
     ∃ w', createApiKey uid rowId name tier w = (Throw "P2002", w')
           ∧ apiKey w' = apiKey w).
Proof.
  split.
  - intros fs Hf. unfold createApiKey, apiKey_create, call. by rewrite Hf.
  - intros Hf [row Hrow]. unfold createApiKey, apiKey_create, call.
    destruct (faults w) as [|[|] fs]; simplify_eq; simpl; rewrite Hrow; eauto.
Qed.

(** With a backend that takes the update, [incrementUsage] adds one to
    the use counter of the key and stamps it; the other keys and the
    request log are left alone. *)
Lemma incrementUsage_effect now key w row :
  hd false (faults w) = false →
  apiKey w !! key = Some row →
  ∃ w',
    incrementUsage now key w = (Ok tt, w')
    ∧ apiKey w' !! key = Some (bump_usage now row)
    ∧ (∀ k, k ≠ key → apiKey w' !! k = apiKey w !! k)
    ∧ requestLog w' = requestLog w.
Proof.
  intros Hf Hrow. run.
  destruct (faults w) as [|[|] fs]; simplify_eq; simpl; rewrite Hrow;
    eexists; (split; [reflexivity|]); simpl;
    (split; [by rewrite lookup_insert_eq|]);
    (split; [|done]); intros k Hne; by rewrite lookup_insert_ne.
Qed.

Lemma incrementUsage_effect_witness :
  ∃ w',
    incrementUsage 77 "sk_basic" Sample.basic_world = (Ok tt, w')
    ∧ apiKey w' !! "sk_basic" = Some (bump_usage 77 Sample.basic_row)
    ∧ (∀ k, k ≠ "sk_basic" → apiKey w' !! k = apiKey Sample.basic_world !! k)
    ∧ requestLog w' = requestLog Sample.basic_world.
Proof. apply incrementUsage_effect; reflexivity. Defined.

(** The use counter is bookkeeping only: with a backend that answers,
    [incrementUsage] never changes the verdict of a later validation,
    however often the key was used. *)
Lemma incrementUsage_not_counted now now1 now2 key w :
  faults w = [] →
  accepts now1 now2 key (incrementUsage now key w).2 = accepts now1 now2 key w.
Proof.
  intros Hf.
  assert (faults (incrementUsage now key w).2 = []
          ∧ requestLog (incrementUsage now key w).2 = requestLog w
          ∧ (∀ row, apiKey w !! key = Some row →
                    apiKey (incrementUsage now key w).2 !! key
                    = Some (bump_usage now row))
          ∧ (apiKey w !! key = None →
             apiKey (incrementUsage now key w).2 !! key = None))
    as (Hf' & Hlog & Hsome & Hnone).
  { run. rewrite Hf. simpl. destruct (apiKey w !! key) as [row|] eqn:E; simpl.
    - repeat split; try done.
      + intros row' [= <-]. by rewrite lookup_insert_eq.
    - repeat split; try done. }
  apply eq_true_iff_eq.
  rewrite (accepts_spec _ _ _ _ Hf), (accepts_spec _ _ _ _ Hf').
  unfold recent_requests. rewrite Hlog. split.
  - intros (row' & Hrow' & Ha & Hlt).
    destruct (apiKey w !! key) as [row|] eqn:E.
    + rewrite (Hsome row eq_refl) in Hrow'. injection Hrow' as <-. eauto.
    + rewrite (Hnone eq_refl) in Hrow'. discriminate.
  - intros (row & Hrow & Ha & Hlt). exists (bump_usage now row).
    rewrite (Hsome row Hrow). eauto.
Qed.

Lemma incrementUsage_not_counted_witness :
  accepts 1000 1000 "sk_basic" (incrementUsage 77 "sk_basic" Sample.basic_world).2
  = accepts 1000 1000 "sk_basic" Sample.basic_world.
Proof. apply incrementUsage_not_counted. reflexivity. Defined.

Lemma next_hour_bounds now :
  now < next_hour now ≤ now + 3600000 ∧ next_hour now mod 3600000 = 0.
Proof.
  unfold next_hour. split; [|by rewrite Z.mod_mul].
  pose proof (Z.div_mod now 3600000 ltac:(lia)).
  pose proof (Z.mod_pos_bound now 3600000 ltac:(lia)). lia.
Qed.

(** [getApiKeyStats] returns; it gives [null] for a key that is not
    stored and on a failure of the backend.  With a backend that
    answers it reports, for a stored key, active or not, the count of
    the last hour, the limit, what is left of it (never below zero) and
    the start of the next hour; and for an active key something is left
    exactly when the key validates. *)
Lemma getApiKeyStats_spec now1 now2 key w :
  (∃ r w', getApiKeyStats now1 now2 key w = (Ok r, w'))
  ∧ (hd false (faults w) = false → apiKey w !! key = None →
     ∃ w', getApiKeyStats now1 now2 key w = (Ok None, w'))
  ∧ (∀ fs, faults w = true :: fs →
     ∃ w', getApiKeyStats now1 now2 key w = (Ok None, w'))
  ∧ (∀ row, faults w = [] → apiKey w !! key = Some row →
     getApiKeyStats now1 now2 key w
     = (Ok (Some (mkStats (recent_requests now1 key w) (ak_requestLimit row)
                    (Z.max 0 (ak_requestLimit row - recent_requests now1 key w))
                    (next_hour now2))), w)
     ∧ 0 ≤ Z.max 0 (ak_requestLimit row - recent_requests now1 key w)
     ∧ now2 < next_hour now2 ≤ now2 + 3600000
     ∧ (ak_isActive row = true →
        ∀ now2', accepts now1 now2' key w = true
                 ↔ 0 < Z.max 0 (ak_requestLimit row - recent_requests now1 key w))).
Proof.
  split; [|split; [|split]].
  - run. repeat (case_match; simpl in *; simplify_eq); eauto.
  - intros Hf Hnone. run.
    destruct (faults w) as [|[|] fs]; simplify_eq; simpl; rewrite Hnone; eauto.
  - intros fs Hf. run. rewrite Hf. simpl. eauto.
  - intros row Hf Hrow. split; [|split; [lia|split; [apply next_hour_bounds|]]].
    + unfold recent_requests. run. rewrite Hf, Hrow. simpl. rewrite Hf. simpl.
      by destruct w.
    + intros Ha now2'. rewrite (accepts_spec _ _ _ _ Hf). split.
      * intros (row' & Hrow' & _ & Hlt). simplify_eq. lia.
      * intros Hpos. exists row. repeat split; [done..|lia].
Qed.

Lemma getApiKeyStats_spec_witness :
  getApiKeyStats 5000 5000 "sk_one" MoreSamples.one_left_world
  = (Ok (Some (mkStats 1 2 1 3600000)), MoreSamples.one_left_world)
  ∧ (∃ w', getApiKeyStats 5000 5000 "sk_none" Sample.empty_world = (Ok None, w'))
  ∧ (∃ w', getApiKeyStats 5000 5000 "sk_one" Sample.failing_world = (Ok None, w')).
Proof.
  split; [|split].
  - destruct (getApiKeyStats_spec 5000 5000 "sk_one" MoreSamples.one_left_world)
      as (_ & _ & _ & H).
    destruct (H MoreSamples.one_left_row eq_refl eq_refl) as (E & _). exact E.
  - destruct (getApiKeyStats_spec 5000 5000 "sk_none" Sample.empty_world)
      as (_ & H & _).
    exact (H eq_refl eq_refl).
  - destruct (getApiKeyStats_spec 5000 5000 "sk_one" Sample.failing_world)
      as (_ & _ & H & _).
    exact (H [] eq_refl).
Defined.

End ApiKeyMoreTheory.

(** ** The request log and the hourly cap of a credential *)

Module MetricsTheory.
Import Prisma ApiKey.
Open Scope Z_scope.

Lemma recent_requests_logged now1 key w l row :
  requestLog w = l ++ [row] →
  recent_requests now1 key w
  = Z.of_nat (length (filter (λ r, recent_for key (now1 - 60 * 60 * 1000) r = true) l))
    + (if recent_for key (now1 - 60 * 60 * 1000) row then 1 else 0).
Proof.
  intros E. unfold recent_requests. rewrite E, filter_app, length_app.
  rewrite filter_cons, filter_nil.
  destruct (recent_for key (now1 - 60 * 60 * 1000) row) eqn:R.
  - rewrite decide_True by done. simpl. lia.
  - rewrite decide_False by congruence. simpl. lia.
Qed.

(** [logRequest] returns; it never throws.  When the backend takes the
    row, the log grows by one row stamped with the clock of the
    database and attributed to the key of the request, which adds one
    to the hourly count of that key while the stamp is within the hour,
    and nothing to the count of any other key; an anonymous request
    counts for no key.  When the backend fails, the log is left as it
    was and the failure goes to the console. *)
Lemma logRequest_counts now apiKey_ w :
  (∃ w', Metrics.logRequest now apiKey_ w = (Ok tt, w'))
  ∧ (hd false (faults w) = false →
     ∃ w',
       Metrics.logRequest now apiKey_ w = (Ok tt, w')
       ∧ requestLog w' = requestLog w ++ [mkLogRow apiKey_ now]
       ∧ apiKey w' = apiKey w
       ∧ (∀ now1 key,
            recent_requests now1 key w'
            = recent_requests now1 key w
              + (if bool_decide (apiKey_ = Some key) && (now1 - 3600000 <=? now)
                 then 1 else 0)))
  ∧ (∀ fs, faults w = true :: fs →
     ∃ w',
       Metrics.logRequest now apiKey_ w = (Ok tt, w')
       ∧ requestLog w' = requestLog w
       ∧ console w' = console w ++ [("Failed to log request:", "PrismaClientError")]).
Proof.
  unfold Metrics.logRequest, requestLog_create, console_error, call, try_catch,
    modify. split; [|split].
  - destruct (faults w) as [|[|] fs]; simpl; eauto.
  - intros Hf.
    destruct (faults w) as [|[|] fs]; simplify_eq; simpl;
      eexists; (split; [reflexivity|]); simpl;
      (split; [done|]); (split; [done|]); intros now1 key;
      by erewrite recent_requests_logged by reflexivity.
  - intros fs Hf. rewrite Hf. simpl. eauto.
Qed.

Lemma logRequest_counts_witness :
  (∃ w',
     Metrics.logRequest 4000 (Some "sk_one") MoreSamples.one_left_world = (Ok tt, w')
     ∧ requestLog w'
       = requestLog MoreSamples.one_left_world ++ [mkLogRow (Some "sk_one") 4000]
     ∧ recent_requests 5000 "sk_one" w' = 2
     ∧ recent_requests 5000 "sk_two" w' = 0)
  ∧ (∃ w',
       Metrics.logRequest 4000 (Some "sk_one") Sample.failing_world = (Ok tt, w')
       ∧ requestLog w' = requestLog Sample.failing_world
       ∧ console w'
         = console Sample.failing_world
           ++ [("Failed to log request:", "PrismaClientError")]).
Proof.
  split.
  - destruct (logRequest_counts 4000 (Some "sk_one") MoreSamples.one_left_world)
      as (_ & H & _).
    destruct (H eq_refl) as (w' & E & Hl & _ & Hc).
    exists w'. split; [exact E|]. split; [exact Hl|].
    split; rewrite Hc; reflexivity.
  - destruct (logRequest_counts 4000 (Some "sk_one") Sample.failing_world)
      as (_ & _ & H).
    exact (H [] eq_refl).
Defined.

(** The request that brings the hourly count of a key to its limit is
    the last one that validates: with a backend that answers, an active
    key one request short of its limit validates, and after one more
    logged request within the hour it does not. *)
Lemma cap_boundary now1 now2 nowLog key w row :
  faults w = [] →
  apiKey w !! key = Some row →
  ak_isActive row = true →
  recent_requests now1 key w = ak_requestLimit row - 1 →
  now1 - 3600000 ≤ nowLog →
  accepts now1 now2 key w = true
  ∧ accepts now1 now2 key (Metrics.logRequest nowLog (Some key) w).2 = false.
Proof.
  intros Hf Hrow Ha Hcount Hstamp. split.
  - apply (ApiKeyMoreTheory.accepts_spec _ _ _ _ Hf). exists row.
    repeat split; [done..|lia].
  - set (w' := set_requestLog (requestLog w ++ [mkLogRow (Some key) nowLog]) w).
    assert (Metrics.logRequest nowLog (Some key) w = (Ok tt, w')) as E.
    { unfold Metrics.logRequest, requestLog_create, console_error,
        call, try_catch, modify. by rewrite Hf. }
    rewrite E. simpl.
    apply not_true_is_false.
    rewrite (ApiKeyMoreTheory.accepts_spec now1 now2 key w' Hf).
    intros (row' & Hrow' & _ & Hlt). simpl in Hrow'. rewrite Hrow in Hrow'.
    injection Hrow' as <-.
    rewrite (recent_requests_logged now1 key w' (requestLog w)
               (mkLogRow (Some key) nowLog) eq_refl) in Hlt.
    assert (recent_for key (now1 - 60 * 60 * 1000) (mkLogRow (Some key) nowLog) = true)
      as Hrec.
    { unfold recent_for. simpl. rewrite bool_decide_eq_true_2 by done.
      apply Z.leb_le. lia. }
    rewrite Hrec in Hlt. unfold recent_requests in Hcount. lia.
Qed.

Lemma cap_boundary_witness :
  accepts 5000 5000 "sk_one" MoreSamples.one_left_world = true
  ∧ accepts 5000 5000 "sk_one"
      (Metrics.logRequest 4000 (Some "sk_one") MoreSamples.one_left_world).2 = false.
Proof.
  apply (cap_boundary 5000 5000 4000 "sk_one" MoreSamples.one_left_world
           MoreSamples.one_left_row); try reflexivity.
  vm_compute. discriminate.
Defined.

End MetricsTheory.

(** ** The admission path: what a rejection leaves behind *)

Module AdmissionTheory.
Import Prisma RateLimiter ApiKey App.
Open Scope Z_scope.

(** A request whose key is unknown, switched off or at its cap is
    answered 401 before the rate limiter runs: no counter of the store
    is touched, and the context is as it came. *)
Lemma rejected_key_keeps_counters now1 now2 now3 now4 now5 c w hits k :
  x_api_key (req c) = Some k → truthy k = true →
  (∀ row, apiKey w !! k = Some row → ak_isActive row = true →
          ak_requestLimit row ≤ recent_requests now1 k w) →
  ∃ w',
    admission now1 now2 now3 now4 now5 c w hits
    = (Ok (Respond (Json 40101 "Invalid or expired API key" 401), c), w', hits).
Proof.
  intros Hk Ht Hbad.
  destruct (ApiKeyTheory.validate_returns now1 now2 k w) as (r & w' & E).
  assert (r = invalid) as -> by exact (ApiKeyTheory.validate_invalid _ _ _ _ _ _ E Hbad).
  exists w'. unfold admission.
  by rewrite (AuthTheory.auth_invalid_key now1 now2 now3 c w k w' Hk Ht E).
Qed.

Lemma rejected_key_keeps_counters_witness :
  ∃ w',
    admission 1000 1000 1000 1000 1000
      (mkContext (mkRequest (Some "sk_unknown") None None) None None None ∅)
      Sample.basic_world Sample.hits_100
    = (Ok (Respond (Json 40101 "Invalid or expired API key" 401),
           mkContext (mkRequest (Some "sk_unknown") None None) None None None ∅),
       w', Sample.hits_100).
Proof.
  apply (rejected_key_keeps_counters 1000 1000 1000 1000 1000 _ _ _ "sk_unknown");
    [reflexivity | reflexivity | intros row H; vm_compute in H; discriminate H].
Defined.

(** A request of a valid key that the rate limiter rejects has already
    been counted as a use of the key: with a backend that answers, the
    answer is 429, the counter of the store has grown by one, and the
    row of the key is as it was but for [requestCount], which is one
    more, and [lastUsedAt], which is the clock of [incrementUsage]. *)
Lemma throttled_request_is_counted now1 now2 now3 now4 now5 c w hits k row h :
  faults w = [] →
  x_api_key (req c) = Some k → truthy k = true →
  apiKey w !! k = Some row → ak_isActive row = true →
  Z.of_nat (length (filter (λ r, rl_apiKey r = Some k ∧ now1 - 3600000 ≤ rl_createdAt r)
                           (requestLog w)))
  < ak_requestLimit row →
  hits !! ("api:" +:+ k) = Some h → now4 < resetTime h → 100 ≤ count h →
  ∃ c' w' hits',
    admission now1 now2 now3 now4 now5 c w hits
    = (Ok (Respond (Json 42901 "Too many requests. Please try again later." 429), c'),
       w', hits')
    ∧ apiKey w' !! k
      = Some (mkApiKeyRow (ak_id row) (ak_name row) (ak_tier row) (ak_requestLimit row)
                (ak_requestCount row + 1) true (Some now3))
    ∧ hits' !! ("api:" +:+ k) = Some (mkHit (count h + 1) (resetTime h)).
Proof.
  intros Hf Hk Ht Hrow Ha Hlt Hh Hwin Hfull.
  rewrite <- ApiKeyTheory.recent_requests_explicit in Hlt.
  destruct (ApiKeyTheory.validate_accepts now1 now2 k w row Hf Hrow Ha Hlt)
    as (r & w1 & Ev & Hv).
  destruct (ApiKeyTheory.validate_valid _ _ _ _ _ _ Ev Hv)
    as (row' & Hrow' & _ & _ & Hval & Hlast).
  rewrite Hrow in Hrow'. injection Hrow' as <-.
  destruct r as [b o]. simpl in Hv, Hval. subst b o.
  assert (faults w1 = []) as Hf1.
  { revert Ev. unfold validateApiKey, apiKey_findUnique, requestLog_count,
      apiKey_update_by_id, console_error, call, try_catch, gets, modify,
      mbind, mret, M_bind, M_ret. rewrite Hf, Hrow. simpl. rewrite Ha. simpl.
    rewrite Hf. simpl.
    repeat (case_match; simpl in *; simplify_eq); intros; simplify_eq; done. }
  set (w2 := Prisma.set_apiKey
                (<[k := bump_usage now3 (set_lastUsedAt now2 row)]> (apiKey w1)) w1).
  assert (incrementUsage now3 k w1 = (Ok tt, w2)) as Ei.
  { unfold incrementUsage, apiKey_update_by_key, console_error, call, try_catch.
    by rewrite Hf1, Hlast. }
  assert (apiKey w2 !! k = Some (bump_usage now3 (set_lastUsedAt now2 row)))
    as Hbump by (simpl; by rewrite lookup_insert_eq).
  assert (authMiddleware now1 now2 now3 (c, w)
          = (Ok Next, (set_rateLimitTier (ak_tier row) (RateLimiter.set_apiKey k c), w2)))
    as Eauth.
  { destruct (AuthTheory.auth_valid_key now1 now2 now3 c w k _ w1 Hk Ht Ev)
      as (w2' & E'). rewrite E'. repeat f_equal.
    revert E'. unfold authMiddleware, try_catch, gets, modify, throw,
      mbind, mret, M_bind, M_ret.
    cbv beta iota zeta delta [fst snd truthy_opt from_option Datatypes.id].
    rewrite Hk. cbv beta iota zeta delta [fst snd truthy_opt from_option Datatypes.id].
    rewrite Ht, Ev. cbv beta iota zeta delta [fst snd negb isValid validated].
    rewrite Ei. by intros [= <-]. }
  unfold admission. rewrite Eauth.
  set (c1 := set_rateLimitTier (ak_tier row) (RateLimiter.set_apiKey k c)).
  unfold rateLimitMiddleware, createRateLimiter. simpl. rewrite Ht. simpl.
  rewrite (RateLimiterTheory.increment_live _ _ _ _ Hh Hwin). simpl.
  destruct (Z.ltb_spec 100 (count h + 1)); [|lia].
  eexists _, _, _. split; [reflexivity|]. split.
  - rewrite Hbump. unfold bump_usage, set_lastUsedAt. simpl. by rewrite Ha.
  - by rewrite lookup_insert_eq.
Qed.

(** The 101st request of the BASIC sample credential in one window;
    the validation reads the clock at 1000 and 1001, the use is stamped
    at 1002. *)
Lemma throttled_request_is_counted_witness :
  ∃ c' w' hits',
    admission 1000 1001 1002 1003 1004
      Sample.basic_request Sample.basic_world Sample.hits_100
    = (Ok (Respond (Json 42901 "Too many requests. Please try again later." 429), c'),
       w', hits')
    ∧ apiKey w' !! "sk_basic"
      = Some (mkApiKeyRow "id_basic" "Acme" BASIC 1000 (0 + 1) true (Some 1002))
    ∧ hits' !! ("api:" +:+ "sk_basic") = Some (mkHit (100 + 1) 60000).
Proof.
  apply (throttled_request_is_counted 1000 1001 1002 1003 1004
           Sample.basic_request Sample.basic_world Sample.hits_100
           "sk_basic" Sample.basic_row (mkHit 100 60000));
    try reflexivity; vm_compute; discriminate.
Defined.

End AdmissionTheory.

(** ** More on the batch endpoint *)

Module BatchMoreTheory.
Import Prisma Cache Batch.
Open Scope Z_scope.

Section Handler.
Context (stringify : CachedName → string) (parse : string → option CachedName).
Context (clock : nat → Z * Z * Z) (includePopularity : bool).

Context (schedules : nat → list nat) (issue_message : list string → option string).

Abbreviation processName := (Batch.processName stringify parse clock includePopularity).
Abbreviation batchRoute :=
  (Batch.batchRoute stringify parse clock includePopularity schedules issue_message).

(** The route validates the body before the handler runs.  A [names]
    array that is empty, that has more than 100 names, or that holds a
    name of no or of more than 50 UTF-16 units is answered with 400 and
    the code 40001, with the message of the validator, whatever the
    tier, FREE included.  With a body that passes, a FREE caller is
    refused with 403 and the code 40303.  Either refusal touches neither
    the cache nor the database.  A paid caller with a body that passes
    gets one result per name, so the handler never takes its own two
    answers with 400. *)
Lemma batchHandler_guards tier names s :
  (names = [] ∨ (100 < length names)%nat
   ∨ (∃ n, n ∈ names ∧ (utf16_length n = 0 ∨ 50 < utf16_length n)%nat) →
   batchRoute tier names s
   = (Ok (BatchError 40001
            (match issue_message names with
             | Some message => if String.eqb message "" then "Validation error"
                               else message
             | None => "Validation error"
             end) 400), s))
  ∧ ((1 ≤ length names ≤ 100)%nat →
     Forall (λ n, (1 ≤ utf16_length n ≤ 50)%nat) names →
     (tier = FREE →
      batchRoute tier names s
      = (Ok (BatchError 40303 "Batch processing requires a paid API key" 403), s))
     ∧ (tier ≠ FREE →
        ∃ rs s',
          batchRoute tier names s
          = (Ok (BatchOk rs (Z.of_nat (length names))
                   (Z.of_nat (zero_confidence rs))), s')
          ∧ map name rs = names)).
Proof.
  unfold Batch.batchRoute. split.
  - intros Hbad.
    assert (batchRequestSchema names = false) as ->.
    { unfold batchRequestSchema.
      destruct Hbad as [->|[Hlen|(n & Hin & Hn)]]; [done| |].
      - apply andb_false_intro2. apply Nat.leb_gt. lia.
      - apply andb_false_intro1, andb_false_intro1.
        apply not_true_is_false. intros Hall.
        rewrite forallb_forall in Hall.
        specialize (Hall n (proj1 (list_elem_of_In _ _) Hin)).
        apply andb_prop in Hall as [H1 H2].
        apply Nat.leb_le in H1, H2. lia. }
    unfold or_else, truthy.
    by destruct (issue_message names) as [m|]; [destruct (String.eqb m "")|].
  - intros Hlen Hall.
    assert (batchRequestSchema names = true) as ->.
    { unfold batchRequestSchema. rewrite !andb_true_iff. repeat split.
      - apply forallb_forall. intros n Hin.
        apply list_elem_of_In in Hin.
        pose proof (proj1 (Forall_forall _ _) Hall n Hin) as Hn. simpl in Hn.
        apply andb_true_intro. split; apply Nat.leb_le; lia.
      - apply Nat.leb_le. lia.
      - apply Nat.leb_le. lia. }
    split.
    + intros ->. reflexivity.
    + intros Ht. by apply BatchTheory.batchHandler_shape.
Qed.

(** A name that the table does not hold gets the very result of a name
    whose lookup threw, and, unlike a name that is found, it is not
    written to the cache. *)
Lemma processName_not_found idx n cm w :
  origin_fault w n = false → ¬ stored w n → uncached cm w n →
  ∃ w',
    processName idx n (cm, w) = (Ok (failed_result includePopularity n), (cm, w'))
    ∧ cacheEntry w' = cacheEntry w.
Proof.
  intros Hf Hns [H1 H2]. unfold Batch.processName.
  destruct (clock idx) as [[now1 now2] now3].
  unfold try_catch. unfold mbind at 1, M_bind at 1.
  destruct (CacheTheory.get_absent parse now1 now2 ("name:" +:+ n) cm w H1 H2)
    as (w' & E & Hc & Hp & Ho).
  rewrite E. unfold mbind, M_bind, liftW, persianName_findFirst. simpl.
  rewrite Ho, Hf, Hp.
  destruct (find _ (persianName w)) as [row|] eqn:Efind.
  { exfalso. apply Hns. unfold stored. rewrite Efind. eauto. }
  simpl. unfold failed_result. eauto.
Qed.

(** A name that is found is cached: the first answer carries a
    confidence of 0.95 and the fields of the row, an empty gender or
    English name being answered as [null], and a second lookup before
    the hour is over is answered from memory, with the fields as they
    were cached and a confidence of 1.0, without the origin. *)
Lemma processName_repeat i j n cm w row a1 a2 a3 b1 b2 b3 :
  uncached cm w n →
  origin_fault w n = false →
  find (λ r, String.eqb (nr_name r) n) (persianName w) = Some row →
  clock i = (a1, a2, a3) → clock j = (b1, b2, b3) →
  b1 < a3 + 3600000 →
  ∃ s1,
    processName i n (cm, w)
    = (Ok (mkResult n
             (if String.eqb (nr_gender row) "" then None else Some (nr_gender row))
             (match nr_enName row with
              | Some e => if String.eqb e "" then None else Some e
              | None => None
              end)
             (if includePopularity then Some (nr_popularity row) else None) 95), s1)
    ∧ memoryCache s1.1 !! getKey cm ("name:" +:+ n)
      = Some (mkItem (mkCached (nr_gender row) (nr_enName row)
                        (if includePopularity then Some (nr_popularity row) else None))
                (a3 + 3600000))
    ∧ ∀ w'',
        processName j n (s1.1, w'')
        = (Ok (mkResult n (Some (nr_gender row)) (nr_enName row)
                 (if includePopularity then Some (nr_popularity row) else None) 100),
           (s1.1, w'')).
Proof.
  intros [H1 H2] Hf Hrow Hi Hj Hlt. unfold Batch.processName. rewrite Hi, Hj.
  unfold try_catch. unfold mbind at 1, M_bind at 1.
  destruct (CacheTheory.get_absent parse a1 a2 ("name:" +:+ n) cm w H1 H2)
    as (w' & E & Hc & Hp & Ho).
  rewrite E. unfold mbind at 1, M_bind at 1, liftW, persianName_findFirst. simpl.
  rewrite Ho, Hf, Hp, Hrow. simpl.
  match goal with
  | |- context [Cache.set stringify a3 ?k ?v ?t] =>
      destruct (CacheTheory.set_memory stringify a3 k v t cm w') as (w2 & E2)
  end.
  unfold mbind at 1, M_bind at 1. rewrite E2. simpl.
  match goal with |- ∃ s1, (_, ?st) = _ ∧ _ => exists st end.
  split; [|split].
  - unfold or_null, truthy.
    destruct (String.eqb (nr_gender row) ""), (nr_enName row) as [e|];
      try destruct (String.eqb e ""); reflexivity.
  - simpl. rewrite lookup_insert_eq. unfold effective_ttl. simpl.
    by replace (a3 + 3600 * 1000) with (a3 + 3600000) by lia.
  - simpl. intros w''. unfold mbind, M_bind.
    rewrite (CacheTheory.get_memory_hit parse b1 b2 ("name:" +:+ n) _ w''
               (mkItem (mkCached (nr_gender row) (nr_enName row)
                          (if includePopularity then Some (nr_popularity row) else None))
                       (a3 + effective_ttl (Some 3600) * 1000))
               (a3 + effective_ttl (Some 3600) * 1000)).
    + simpl. by destruct includePopularity.
    + unfold getKey; simpl. by rewrite lookup_insert_eq.
    + reflexivity.
    + unfold effective_ttl. simpl. lia.
Qed.

End Handler.

Lemma batchHandler_guards_witness :
  Batch.batchRoute c_gender (λ _, None) (λ _, (0, 0, 0)) false (λ _, [])
    (λ _, Some "first issue") FREE []
    (Cache.new (Some "shenasa"), Sample.origin_world)
  = (Ok (BatchError 40001 "first issue" 400),
     (Cache.new (Some "shenasa"), Sample.origin_world))
  ∧ Batch.batchRoute c_gender (λ _, None) (λ _, (0, 0, 0)) false (λ _, [])
      (λ _, None) BASIC (replicate 101 "ali")
      (Cache.new (Some "shenasa"), Sample.origin_world)
    = (Ok (BatchError 40001 "Validation error" 400),
       (Cache.new (Some "shenasa"), Sample.origin_world))
  ∧ Batch.batchRoute c_gender (λ _, None) (λ _, (0, 0, 0)) false (λ _, [])
      (λ _, Some "") PREMIUM ["ali"; ""]
      (Cache.new (Some "shenasa"), Sample.origin_world)
    = (Ok (BatchError 40001 "Validation error" 400),
       (Cache.new (Some "shenasa"), Sample.origin_world))
  ∧ Batch.batchRoute c_gender (λ _, None) (λ _, (0, 0, 0)) false (λ _, [])
      (λ _, None) FREE ["ali"]
      (Cache.new (Some "shenasa"), Sample.origin_world)
    = (Ok (BatchError 40303 "Batch processing requires a paid API key" 403),
       (Cache.new (Some "shenasa"), Sample.origin_world))
  ∧ ∃ rs s',
      Batch.batchRoute c_gender (λ _, None) (λ _, (0, 0, 0)) false (λ _, [])
        (λ _, None) BASIC ["ali"]
        (Cache.new (Some "shenasa"), Sample.origin_world)
      = (Ok (BatchOk rs 1 (Z.of_nat (zero_confidence rs))), s')
      ∧ map name rs = ["ali"].
Proof.
  split; [|split; [|split; [|split]]].
  - apply (proj1 (batchHandler_guards c_gender (λ _, None) (λ _, (0, 0, 0)) false
                    (λ _, []) (λ _, Some "first issue") FREE [] _)).
    by left.
  - apply (proj1 (batchHandler_guards c_gender (λ _, None) (λ _, (0, 0, 0)) false
                    (λ _, []) (λ _, None) BASIC (replicate 101 "ali") _)).
    right; left. rewrite length_replicate. lia.
  - apply (proj1 (batchHandler_guards c_gender (λ _, None) (λ _, (0, 0, 0)) false
                    (λ _, []) (λ _, Some "") PREMIUM ["ali"; ""] _)).
    right; right. exists "". split; [|by left].
    apply elem_of_cons. right. apply elem_of_cons. by left.
  - apply (proj2 (batchHandler_guards c_gender (λ _, None) (λ _, (0, 0, 0)) false
                    (λ _, []) (λ _, None) FREE ["ali"] _)).
    + simpl. lia.
    + repeat constructor.
    + reflexivity.
  - apply (proj2 (batchHandler_guards c_gender (λ _, None) (λ _, (0, 0, 0)) false
                    (λ _, []) (λ _, None) BASIC ["ali"] _)).
    + simpl. lia.
    + repeat constructor.
    + discriminate.
Defined.

Lemma processName_not_found_witness :
  ∃ w',
    Batch.processName c_gender (λ _, None) (λ _, (0, 0, 0)) false 0 "nobody"
      (Cache.new (Some "shenasa"), Sample.origin_world)
    = (Ok (failed_result false "nobody"), (Cache.new (Some "shenasa"), w'))
    ∧ cacheEntry w' = cacheEntry Sample.origin_world.
Proof.
  apply processName_not_found; [reflexivity | | split; reflexivity].
  intros [row H]. vm_compute in H. discriminate H.
Defined.

Lemma processName_repeat_witness :
  ∃ s1,
    Batch.processName c_gender (λ _, None) (λ _, (0, 0, 0)) true 0 "ali"
      (Cache.new (Some "shenasa"), Sample.origin_world)
    = (Ok (mkResult "ali" (Some "MALE") (Some "ali") (Some 90) 95), s1)
    ∧ memoryCache s1.1 !! "shenasa:name:ali"
      = Some (mkItem (mkCached "MALE" (Some "ali") (Some 90)) 3600000)
    ∧ ∀ w'',
        Batch.processName c_gender (λ _, None) (λ _, (0, 0, 0)) true 1 "ali" (s1.1, w'')
        = (Ok (mkResult "ali" (Some "MALE") (Some "ali") (Some 90) 100), (s1.1, w'')).
Proof.
  apply (processName_repeat c_gender (λ _, None) (λ _, (0, 0, 0)) true 0%nat 1%nat "ali"
           (Cache.new (Some "shenasa")) Sample.origin_world
           (mkNameRow "ali" "MALE" (Some "ali") 90) 0 0 0 0 0 0);
    try reflexivity. split; reflexivity.
Defined.

End BatchMoreTheory.

(** ** The name lookup endpoint *)

Module NameControllerTheory.
Import Prisma Cache NameController.
Open Scope Z_scope.

Section Handler.
Context (stringify : NameResult → string) (parse : string → option NameResult).

Abbreviation getName := (NameController.getName stringify parse).

Lemma get_absent_log now1 now2 key (cm : @CacheManager NameResult) w :
  memoryCache cm !! getKey cm key = None →
  cacheEntry w !! getKey cm key = None →
  ∃ w',
    get parse now1 now2 key (cm, w) = (Ok None, (cm, w'))
    ∧ cacheEntry w' = cacheEntry w ∧ requestLog w' = requestLog w
    ∧ persianName w' = persianName w ∧ origin_fault w' = origin_fault w
    ∧ (faults w = [] → w' = w).
Proof.
  intros H1 H2. unfold get, liftW, cacheEntry_findUnique, console_error, call,
    try_catch, gets, modify, mbind, mret, M_bind, M_ret. simpl.
  rewrite H1. simpl.
  destruct (faults w) as [|[|] fs] eqn:Hf; simpl; rewrite ?H2; simpl;
    eexists; (split; [reflexivity|]); simpl; repeat split; try done.
Qed.

Lemma set_keeps_log now key (v : NameResult) ttl cm w :
  ∃ w',
    set stringify now key v ttl (cm, w)
    = (Ok tt,
       (mkCache (<[getKey cm key := mkItem v (now + effective_ttl ttl * 1000)]>
                   (memoryCache cm)) (prefix cm), w'))
    ∧ requestLog w' = requestLog w.
Proof.
  unfold set, liftW, cacheEntry_upsert, console_error, call, modify_memory,
    try_catch, gets, modify, mbind, mret, M_bind, M_ret. simpl.
  destruct (faults w) as [|[|] fs]; simpl; eauto.
Qed.

(** A live entry in memory answers the request at once: the answer is
    the cached body with [X-Cache: HIT], the origin is not consulted
    (so its failure does not matter), and no request is logged. *)
Lemma getName_hit requestStart now1 now2 nowR nowLog now3 apiKey_ name cm w item
    (e : Z) :
  truthy name = true →
  memoryCache cm !! getKey cm ("name:" +:+ name) = Some item →
  expiresAt item = Fin e → now1 < e →
  getName requestStart now1 now2 nowR nowLog now3 apiKey_ name (cm, w)
  = (Ok (mkResponse (BodyResult (value item)) 200
           (Some "HIT") (Some "public, max-age=3600") None), (cm, w)).
Proof.
  intros Ht Hitem He Hlive. unfold NameController.getName, try_catch. rewrite Ht. simpl.
  unfold mbind, M_bind.
  by rewrite (CacheTheory.get_memory_hit parse now1 now2 _ cm w item e Hitem He Hlive).
Qed.

(** A lookup that the cache cannot answer and that the origin throws on
    is answered 500; nothing is logged and nothing is cached. *)
Lemma getName_origin_failure requestStart now1 now2 nowR nowLog now3 apiKey_ name cm w :
  truthy name = true →
  memoryCache cm !! getKey cm ("name:" +:+ name) = None →
  cacheEntry w !! getKey cm ("name:" +:+ name) = None →
  origin_fault w name = true →
  ∃ w',
    getName requestStart now1 now2 nowR nowLog now3 apiKey_ name (cm, w)
    = (Ok (mkResponse (BodyError 50001 "Internal server error") 500 None None None),
       (cm, w'))
    ∧ requestLog w' = requestLog w
    ∧ cacheEntry w' = cacheEntry w.
Proof.
  intros Ht H1 H2 Hf. unfold NameController.getName, try_catch. rewrite Ht. simpl.
  destruct (get_absent_log now1 now2 ("name:" +:+ name) cm w H1 H2)
    as (w' & E & Hc & Hl & Hp & Ho & _).
  unfold mbind at 1, M_bind at 1. rewrite E.
  unfold mbind, M_bind, liftW, persianName_findFirst. simpl. rewrite Ho, Hf.
  simpl. eauto.
Qed.

(** A lookup that the cache cannot answer and the origin does: the
    answer is what the table says, found or not, with [X-Cache: MISS]
    and the response time; with a backend that answers, one request is
    logged for the key of the caller; and the answer, a negative one
    too, is kept in memory, so that until an hour after it was stored
    every request for the name gets it back as a HIT, whatever the
    database holds by then. *)
Lemma getName_miss_then_hit requestStart now1 now2 nowR nowLog now3 apiKey_ name cm w :
  truthy name = true →
  memoryCache cm !! getKey cm ("name:" +:+ name) = None →
  cacheEntry w !! getKey cm ("name:" +:+ name) = None →
  origin_fault w name = false →
  let result :=
    match find (λ r, String.eqb (nr_name r) name) (persianName w) with
    | Some data => mkNameResult (Some (nr_gender data)) (nr_enName data)
    | None => mkNameResult None None
    end in
  ∃ cm1 w1,
    getName requestStart now1 now2 nowR nowLog now3 apiKey_ name (cm, w)
    = (Ok (mkResponse (BodyResult result) 200
             (Some "MISS") (Some "public, max-age=3600") (Some (nowR - requestStart))),
       (cm1, w1))
    ∧ (faults w = [] → requestLog w1 = requestLog w ++ [mkLogRow apiKey_ nowLog])
    ∧ ∀ requestStart' b1 b2 bR bLog b3 apiKey' w'',
        b1 < now3 + 3600000 →
        getName requestStart' b1 b2 bR bLog b3 apiKey' name (cm1, w'')
        = (Ok (mkResponse (BodyResult result) 200
                 (Some "HIT") (Some "public, max-age=3600") None), (cm1, w'')).
Proof.
  intros Ht H1 H2 Hf result. unfold NameController.getName at 1, try_catch.
  rewrite Ht. simpl.
  destruct (get_absent_log now1 now2 ("name:" +:+ name) cm w H1 H2)
    as (w' & E & Hc & Hl & Hp & Ho & Hsame).
  unfold mbind at 1, M_bind at 1. rewrite E.
  unfold mbind at 1, M_bind at 1, liftW at 1, persianName_findFirst. simpl.
  rewrite Ho, Hf, Hp. fold result.
  unfold mbind at 1, M_bind at 1, liftW at 1. simpl.
  assert (∃ w2, Metrics.logRequest nowLog apiKey_ w' = (Ok tt, w2)
                ∧ (faults w' = [] →
                   requestLog w2 = requestLog w' ++ [mkLogRow apiKey_ nowLog]))
    as (w2 & El & Hlog).
  { unfold Metrics.logRequest, requestLog_create, console_error, call, try_catch,
      modify. destruct (faults w') as [|[|] fs]; simpl; eauto; by eexists. }
  rewrite El. simpl.
  destruct (set_keeps_log now3 ("name:" +:+ name) result (Some 3600) cm w2)
    as (w3 & E3 & Hl3).
  unfold mbind, M_bind. rewrite E3. simpl.
  eexists _, _. split; [reflexivity|]. split.
  - intros Hfw. rewrite Hl3, <- Hl. apply Hlog. by rewrite (Hsame Hfw).
  - intros requestStart' b1 b2 bR bLog b3 apiKey' w'' Hb.
    unfold NameController.getName, try_catch. rewrite Ht. simpl.
    unfold mbind, M_bind.
    rewrite (CacheTheory.get_memory_hit parse b1 b2 ("name:" +:+ name) _ w''
               (mkItem result (now3 + effective_ttl (Some 3600) * 1000))
               (now3 + effective_ttl (Some 3600) * 1000)).
    + done.
    + unfold getKey; simpl. by rewrite lookup_insert_eq.
    + reflexivity.
    + unfold effective_ttl. simpl. lia.
Qed.

End Handler.

Lemma getName_hit_witness :
  getName (λ r, default "null" (gender r)) (λ _, None) 0 10 10 12 12 12 None "x1"
    (mkCache {["shenasa:name:x1" := mkItem (mkNameResult (Some "MALE") (Some "Ali")) 50]}
       (Some "shenasa"), Sample.origin_world)
  = (Ok (mkResponse (BodyResult (mkNameResult (Some "MALE") (Some "Ali"))) 200
           (Some "HIT") (Some "public, max-age=3600") None),
     (mkCache {["shenasa:name:x1" := mkItem (mkNameResult (Some "MALE") (Some "Ali")) 50]}
        (Some "shenasa"), Sample.origin_world)).
Proof.
  apply (getName_hit (λ r, default "null" (gender r)) (λ _, None) 0 10 10 12 12 12 None "x1" _ _
           (mkItem (mkNameResult (Some "MALE") (Some "Ali")) 50) 50).
  - reflexivity.
  - reflexivity.
  - reflexivity.
  - lia.
Defined.

Lemma getName_origin_failure_witness :
  ∃ w',
    getName (λ r, default "null" (gender r)) (λ _, None) 0 10 10 12 12 12 (Some "sk_a") "x1"
      (Cache.new (Some "shenasa"), Sample.origin_world)
    = (Ok (mkResponse (BodyError 50001 "Internal server error") 500 None None None),
       (Cache.new (Some "shenasa"), w'))
    ∧ requestLog w' = requestLog Sample.origin_world
    ∧ cacheEntry w' = cacheEntry Sample.origin_world.
Proof.
  apply getName_origin_failure; reflexivity.
Defined.

Lemma getName_miss_then_hit_witness :
  ∃ cm1 w1,
    getName (λ r, default "null" (gender r)) (λ _, None) 0 10 10 12 12 12 (Some "sk_a") "nobody"
      (Cache.new (Some "shenasa"), Sample.origin_world)
    = (Ok (mkResponse (BodyResult (mkNameResult None None)) 200
             (Some "MISS") (Some "public, max-age=3600") (Some 12)),
       (cm1, w1))
    ∧ (faults Sample.origin_world = [] →
       requestLog w1 = requestLog Sample.origin_world ++ [mkLogRow (Some "sk_a") 12])
    ∧ ∀ requestStart' b1 b2 bR bLog b3 apiKey' w'',
        b1 < 12 + 3600000 →
        getName (λ r, default "null" (gender r)) (λ _, None) requestStart' b1 b2 bR bLog b3 apiKey' "nobody" (cm1, w'')
        = (Ok (mkResponse (BodyResult (mkNameResult None None)) 200
                 (Some "HIT") (Some "public, max-age=3600") None), (cm1, w'')).
Proof.
  apply (getName_miss_then_hit (λ r, default "null" (gender r)) (λ _, None) 0 10 10 12 12 12 (Some "sk_a") "nobody"
           (Cache.new (Some "shenasa")) Sample.origin_world); reflexivity.
Defined.

End NameControllerTheory.

(** ** Cache warming *)

Module WarmTheory.
Import Prisma Cache Batch Warm.
Open Scope Z_scope.

(** Sorting the table keeps its rows. *)
Lemma insert_desc_perm r l : insert_desc r l ≡ₚ r :: l.
Proof.
  induction l as [|x l IH]; simpl; [done|].
  destruct (nr_popularity x <=? nr_popularity r); [done|].
  rewrite IH. apply Permutation_swap.
Qed.

Lemma by_popularity_desc_perm l : by_popularity_desc l ≡ₚ l.
Proof.
  unfold by_popularity_desc. induction l as [|x l IH]; simpl; [done|].
  by rewrite insert_desc_perm, IH.
Qed.

Lemma popular_names_nodup (n : nat) l :
  NoDup (nr_name <$> l) →
  NoDup (nr_name <$> take n (by_popularity_desc l)).
Proof.
  intros H. rewrite fmap_take.
  eapply sublist_NoDup; [|apply sublist_take].
  by rewrite by_popularity_desc_perm.
Qed.

Section WarmCache.
Context (stringify : CachedName → string) (parse : string → option CachedName).
Context (clock : nat → Z).

Implicit Types (cm : @CacheManager CachedName) (w : World).

Lemma warm_loop_inv l : ∀ idx cm w,
  ∃ cm' w',
    warm_loop stringify clock idx l (cm, w) = (Ok tt, (cm', w'))
    ∧ prefix cm' = prefix cm
    ∧ (∀ k, (∀ r, r ∈ l → k ≠ getKey cm ("name:" +:+ nr_name r)) →
            memoryCache cm' !! k = memoryCache cm !! k)
    ∧ (NoDup (nr_name <$> l) →
       ∀ i r, l !! i = Some r →
         memoryCache cm' !! getKey cm ("name:" +:+ nr_name r)
         = Some (mkItem (mkCached (nr_gender r) (nr_enName r) (Some (nr_popularity r)))
                   (clock (idx + i)%nat + 7200000))).
Proof.
  induction l as [|x l IH]; intros idx cm w.
  - simpl. eexists _, _. split; [reflexivity|]. repeat split; try done.
  - simpl. unfold mbind at 1, M_bind at 1.
    destruct (CacheTheory.set_memory stringify (clock idx) ("name:" +:+ nr_name x)
                (mkCached (nr_gender x) (nr_enName x) (Some (nr_popularity x)))
                (Some 7200) cm w) as (w1 & E1).
    rewrite E1.
    match type of E1 with _ = (_, (?c, _)) => set (cm1 := c) in * end.
    destruct (IH (S idx) cm1 w1) as (cm' & w' & E & Hp & Hframe & Hmem).
    rewrite E. eexists _, _. split; [reflexivity|].
    assert (∀ k, getKey cm1 k = getKey cm k) as Hk by done.
    split; [done|]. split.
    + intros k Hk'. rewrite Hframe.
      * unfold cm1; simpl. rewrite lookup_insert_ne; [done|].
        intros <-. apply (Hk' x); [|done]. apply elem_of_cons. by left.
      * intros r Hr. rewrite Hk. apply Hk'. apply elem_of_cons. by right.
    + intros Hnd i r Hi. simpl in Hnd. apply NoDup_cons in Hnd as [Hx Hnd].
      destruct i as [|i]; simpl in Hi.
      * injection Hi as ->. rewrite Hframe.
        -- unfold cm1; simpl. rewrite lookup_insert_eq.
           unfold effective_ttl. simpl. rewrite Nat.add_0_r. done.
        -- intros r' Hr' Heq. rewrite Hk in Heq.
           apply BatchTheory.getKey_inj, BatchTheory.append_inj_r in Heq.
           apply Hx. rewrite Heq. by apply list_elem_of_fmap_2.
      * rewrite <- Hk, (Hmem Hnd i r Hi).
        by replace (idx + S i)%nat with (S idx + i)%nat by lia.
Qed.

(** [warmCache] returns for every backend behaviour. *)
Lemma warmCache_returns cm w :
  ∃ s', warmCache stringify clock (cm, w) = (Ok tt, s').
Proof.
  unfold warmCache, try_catch, mbind at 1, M_bind at 1, liftW at 1,
    persianName_findMany_popular, call, gets. simpl.
  destruct (faults w) as [|[|] fs]; simpl.
  - destruct (warm_loop_inv (take 100 (by_popularity_desc (persianName w))) 0 cm w)
      as (cm' & w' & E & _). rewrite E. eauto.
  - eauto.
  - destruct (warm_loop_inv (take 100 (by_popularity_desc (persianName w))) 0 cm
                (set_faults fs w)) as (cm' & w' & E & _).
    simpl in E. rewrite E. eauto.
Qed.

(** When the backend fails the query for the popular names, nothing is
    warmed: both tiers are as before and the failure goes to the
    console. *)
Lemma warmCache_backend_down cm w fs :
  faults w = true :: fs →
  ∃ w',
    warmCache stringify clock (cm, w) = (Ok tt, (cm, w'))
    ∧ cacheEntry w' = cacheEntry w
    ∧ console w' = console w ++ [("Cache warming error:", "PrismaClientError")].
Proof.
  intros Hf.
  unfold warmCache, try_catch, mbind at 1, M_bind at 1, liftW,
    persianName_findMany_popular, console_error, call, gets, modify. simpl.
  rewrite Hf. simpl. eauto.
Qed.

(** When the query for the popular names is answered and names are
    unique in the table, each of the (at most 100) rows it returns is
    in memory afterwards: the [i]-th one is a hit, with its gender,
    English name and popularity, until two hours after it was stored,
    whatever happened to the database writes. *)
Lemma warmCache_warms cm w :
  hd false (faults w) = false →
  NoDup (nr_name <$> persianName w) →
  ∃ cm' w',
    warmCache stringify clock (cm, w) = (Ok tt, (cm', w'))
    ∧ ∀ (i : nat) r, take 100 (by_popularity_desc (persianName w)) !! i = Some r →
        ∀ now1 now2 w'', now1 < clock i + 7200000 →
          get parse now1 now2 ("name:" +:+ nr_name r) (cm', w'')
          = (Ok (Some (mkCached (nr_gender r) (nr_enName r) (Some (nr_popularity r)))),
             (cm', w'')).
Proof.
  intros Hf Hnd.
  unfold warmCache, try_catch, mbind at 1, M_bind at 1, liftW at 1,
    persianName_findMany_popular, call, gets. simpl.
  destruct (faults w) as [|[|] fs] eqn:Hfw; simpl in *; [|done|].
  - destruct (warm_loop_inv (take 100 (by_popularity_desc (persianName w))) 0 cm w)
      as (cm' & w' & E & Hp & _ & Hmem). rewrite E.
    eexists _, _. split; [reflexivity|]. intros i r Hi now1 now2 w'' Hlt.
    rewrite (CacheTheory.get_memory_hit parse now1 now2 _ cm' w''
               (mkItem (mkCached (nr_gender r) (nr_enName r) (Some (nr_popularity r)))
                  (clock i + 7200000)) (clock i + 7200000)); [done| |done|done].
    assert (getKey cm' ("name:" +:+ nr_name r) = getKey cm ("name:" +:+ nr_name r))
      as -> by (unfold getKey; by rewrite Hp).
    by rewrite (Hmem (popular_names_nodup 100 _ Hnd) i r Hi).
  - destruct (warm_loop_inv (take 100 (by_popularity_desc (persianName w))) 0 cm
                (set_faults fs w)) as (cm' & w' & E & Hp & _ & Hmem).
    simpl in E. rewrite E.
    eexists _, _. split; [reflexivity|]. intros i r Hi now1 now2 w'' Hlt.
    rewrite (CacheTheory.get_memory_hit parse now1 now2 _ cm' w''
               (mkItem (mkCached (nr_gender r) (nr_enName r) (Some (nr_popularity r)))
                  (clock i + 7200000)) (clock i + 7200000)); [done| |done|done].
    assert (getKey cm' ("name:" +:+ nr_name r) = getKey cm ("name:" +:+ nr_name r))
      as -> by (unfold getKey; by rewrite Hp).
    by rewrite (Hmem (popular_names_nodup 100 _ Hnd) i r Hi).
Qed.

End WarmCache.

Lemma warmCache_warms_witness :
  ∃ cm' w',
    warmCache c_gender (λ i, Z.of_nat i) (Cache.new (Some "shenasa"), Sample.origin_world)
    = (Ok tt, (cm', w'))
    ∧ ∀ (i : nat) r,
        take 100 (by_popularity_desc (persianName Sample.origin_world)) !! i = Some r →
        ∀ now1 now2 w'', now1 < Z.of_nat i + 7200000 →
          get (λ _, None) now1 now2 ("name:" +:+ nr_name r) (cm', w'')
          = (Ok (Some (mkCached (nr_gender r) (nr_enName r) (Some (nr_popularity r)))),
             (cm', w'')).
Proof.
  apply (warmCache_warms c_gender (λ _, None) (λ i, Z.of_nat i)
           (Cache.new (Some "shenasa")) Sample.origin_world).
  - reflexivity.
  - apply (bool_decide_unpack _). vm_compute. reflexivity.
Defined.

End WarmTheory.

(** ** The administration endpoints *)

Module AdminTheory.
Import Prisma Cache Batch Admin.
Open Scope Z_scope.

(** Who passes the admin check: a non-empty [x-admin-key] equal to the
    configured secret, or to ["admin-secret-key"] when none is
    configured. *)
Lemma admin_denied_spec adminKey secret :
  admin_denied adminKey secret = false
  ↔ ∃ k, adminKey = Some k ∧ k ≠ "" ∧ k = or_else secret "admin-secret-key".
Proof.
  unfold admin_denied, truthy_opt, truthy. split.
  - intros H. apply orb_false_elim in H as [H1 H2].
    apply negb_false_iff in H1, H2. destruct adminKey as [k|]; [|done].
    simpl in *. apply negb_true_iff, String.eqb_neq in H1.
    apply String.eqb_eq in H2. eauto.
  - intros (k & -> & Hk & E). simpl.
    apply String.eqb_neq in Hk. apply String.eqb_eq in E. by rewrite Hk, E.
Qed.

(** Without the admin key neither endpoint does anything: both answer
    401 (code 40101) and leave the table of keys, the cache and the
    database as they were. *)
Lemma admin_routes_denied adminKey secret :
  admin_denied adminKey secret = true →
  (∀ uid rowId name tier w,
     ∃ message,
       createKey adminKey secret uid rowId name tier w
       = (Ok (CreateError 40101 message 401), w))
  ∧ (∀ stringify clock startTime endTime s,
       warm stringify clock adminKey secret startTime endTime s
       = (Ok (WarmError 40101 "Admin access required" 401), s)).
Proof.
  intros H. split.
  - intros uid rowId name tier w. unfold createKey, try_catch.
    unfold admin_denied in H.
    destruct (negb (truthy_opt adminKey)); simpl in *; [by eexists|].
    rewrite H. by eexists.
  - intros stringify clock startTime endTime [cm w]. unfold warm, try_catch.
    by rewrite H.
Qed.

(** With the admin key, [POST /admin/api-keys] always answers: when the
    backend takes the call and the generated key is new, the answer is
    the created key, stored active with the quota of its tier and no
    use counted; when the backend fails or the key exists already, the
    answer is 500 (code 50001) and the table of keys is unchanged, so
    that an existing key is never overwritten. *)
Lemma createKey_authorized adminKey secret uid rowId name tier w :
  admin_denied adminKey secret = false →
  let key := "sk_" +:+ uid in
  let row := mkApiKeyRow rowId name tier
               (RateLimiter.requests (RateLimiter.rateLimitTiers tier)) 0 true None in
  ∃ w',
    (hd false (faults w) = false ∧ apiKey w !! key = None
     ∧ createKey adminKey secret uid rowId name tier w = (Ok (Created row key), w')
     ∧ apiKey w' = <[key := row]> (apiKey w))
    ∨ ((hd false (faults w) = true ∨ is_Some (apiKey w !! key))
       ∧ createKey adminKey secret uid rowId name tier w
         = (Ok (CreateError 50001 "Failed to create API key" 500), w')
       ∧ apiKey w' = apiKey w).
Proof.
  intros H key row. unfold admin_denied in H.
  apply orb_false_elim in H as [H1 H2].
  unfold createKey, try_catch. rewrite H1, H2.
  unfold mbind, mret, M_bind, M_ret, ApiKey.createApiKey, apiKey_create, call.
  fold key row.
  destruct (faults w) as [|[|] fs]; simpl;
    destruct (apiKey w !! key) eqn:E; simpl; eexists;
    first [ left; by repeat split
          | right; split; [by eauto|by split] ].
Qed.

Section WarmHandler.
Context (stringify : CachedName → string) (clock : nat → Z).

(** With the admin key, [POST /admin/cache/warm] answers "Cache warmed
    successfully" with [warmed: 1000] and the measured duration for
    every state and backend behaviour; this is also the answer when the
    query for the popular names failed and nothing was warmed. *)
Lemma warm_reports_success adminKey secret startTime endTime cm w :
  admin_denied adminKey secret = false →
  ∃ cm' w',
    warm stringify clock adminKey secret startTime endTime (cm, w)
    = (Ok (Warmed "Cache warmed successfully" 1000 (endTime - startTime)), (cm', w'))
    ∧ (∀ fs, faults w = true :: fs → cm' = cm ∧ cacheEntry w' = cacheEntry w).
Proof.
  intros H. unfold warm, try_catch. rewrite H.
  unfold mbind, M_bind.
  destruct (WarmTheory.warmCache_returns stringify clock cm w) as ([cm' w'] & E).
  rewrite E. simpl. eexists _, _. split; [reflexivity|].
  intros fs Hf.
  destruct (WarmTheory.warmCache_backend_down stringify clock cm w fs Hf)
    as (w1 & E1 & Hc & _).
  rewrite E1 in E. by simplify_eq.
Qed.

End WarmHandler.

Lemma admin_routes_denied_witness :
  (∀ uid rowId name tier w,
     ∃ message,
       createKey (Some "guess") None uid rowId name tier w
       = (Ok (CreateError 40101 message 401), w))
  ∧ (∀ stringify clock startTime endTime s,
       warm stringify clock (Some "guess") None startTime endTime s
       = (Ok (WarmError 40101 "Admin access required" 401), s)).
Proof. apply admin_routes_denied. reflexivity. Defined.

Lemma createKey_authorized_witness :
  ∃ w',
    (hd false (faults MoreSamples.one_left_world) = false
     ∧ apiKey MoreSamples.one_left_world !! ("sk_" +:+ "one") = None
     ∧ createKey (Some "s3cret") (Some "s3cret") "one" "id_two" "Duo" BASIC
         MoreSamples.one_left_world
       = (Ok (Created (mkApiKeyRow "id_two" "Duo" BASIC
                         (RateLimiter.requests (RateLimiter.rateLimitTiers BASIC))
                         0 true None) ("sk_" +:+ "one")), w')
     ∧ apiKey w'
       = <["sk_" +:+ "one" :=
             mkApiKeyRow "id_two" "Duo" BASIC
               (RateLimiter.requests (RateLimiter.rateLimitTiers BASIC)) 0 true None]>
           (apiKey MoreSamples.one_left_world))
    ∨ ((hd false (faults MoreSamples.one_left_world) = true
        ∨ is_Some (apiKey MoreSamples.one_left_world !! ("sk_" +:+ "one")))
       ∧ createKey (Some "s3cret") (Some "s3cret") "one" "id_two" "Duo" BASIC
           MoreSamples.one_left_world
         = (Ok (CreateError 50001 "Failed to create API key" 500), w')
       ∧ apiKey w' = apiKey MoreSamples.one_left_world).
Proof.
  apply (createKey_authorized (Some "s3cret") (Some "s3cret") "one" "id_two" "Duo" BASIC
           MoreSamples.one_left_world).
  reflexivity.
Defined.

Lemma warm_reports_success_witness :
  ∃ cm' w',
    warm c_gender (λ i, Z.of_nat i) (Some "admin-secret-key") None 5 9
      (Cache.new (Some "shenasa"), Sample.failing_world)
    = (Ok (Warmed "Cache warmed successfully" 1000 (9 - 5)), (cm', w'))
    ∧ (∀ fs, faults Sample.failing_world = true :: fs →
         cm' = Cache.new (Some "shenasa")
         ∧ cacheEntry w' = cacheEntry Sample.failing_world).
Proof. apply warm_reports_success. reflexivity. Defined.

End AdminTheory.
